(** * Debt-snowball payment schedule: the engine of [cc_paydown_planner.py]

    A shallow embedding of [CreditCard], [calculate_interest] and
    [create_payment_schedule], and the properties of the schedule they
    compute.

    The Python code computes on floats.  The embedding is written once over
    an interface of numbers ([Num]) and read at two instances: IEEE binary64
    floats (what the interpreter does, bit for bit) and exact rationals.
    The rationals agree with the floats on the comparison of inputs, not on
    sums, differences, products and quotients: they serve the statements on
    the order of the cards.  The statements on balances are proved from laws
    of the order and of subtraction ([NumLaws]) that the floats keep, which
    is shown from the specification of binary64 in the Standard Library.

    The last part of the file embeds the helpers around the engine: the
    parsing of due dates, headers and calendar dates, the colours and the
    rows of the calendar, the call of the engine in [main], and the reading
    and saving of cards as JSON. *)

From Stdlib Require Import List String Ascii ZArith QArith Qcanon Floats Uint63.
From Stdlib Require Import Lia Lqa Bool Arith Permutation Sorted DecimalString.
From Stdlib Require Import Zpower.
Import ListNotations.

Set Implicit Arguments.

(** ** Numbers *)

Declare Scope num_scope.
Delimit Scope num_scope with num.

(** The operations the engine uses on money and rates.  [ltb a b] is Python's
    [a < b] (and [b > a]). *)
Class Num (num : Type) : Type := {
  of_int : Z -> num;
  add : num -> num -> num;
  sub : num -> num -> num;
  mul : num -> num -> num;
  div : num -> num -> num;
  ltb : num -> num -> bool
}.

Infix "+" := add : num_scope.
Infix "-" := sub : num_scope.
Infix "*" := mul : num_scope.
Infix "/" := div : num_scope.
Infix "<?" := ltb : num_scope.

(** Exact rationals in canonical form: no rounding, no infinity and no value
    that is not a number.  They compare as the floats of the same value do;
    their sums, differences, products and quotients are not those of the
    floats. *)
Definition Qc_ltb (a b : Qc) : bool :=
  match (a ?= b)%Qc with Lt => true | _ => false end.

#[export] Instance Qc_Num : Num Qc := {
  of_int z := Q2Qc (inject_Z z);
  add := Qcplus;
  sub := Qcminus;
  mul := Qcmult;
  div := Qcdiv;
  ltb := Qc_ltb
}.

(** IEEE 754 binary64, the floats of CPython. *)
Definition float_of_Z (z : Z) : float :=
  match z with
  | Zneg p => PrimFloat.opp (PrimFloat.of_uint63 (Uint63.of_Z (Zpos p)))
  | _ => PrimFloat.of_uint63 (Uint63.of_Z z)
  end.

#[export] Instance float_Num : Num float := {
  of_int := float_of_Z;
  add := PrimFloat.add;
  sub := PrimFloat.sub;
  mul := PrimFloat.mul;
  div := PrimFloat.div;
  ltb := PrimFloat.ltb
}.

(** ** The program *)

Section Planner.

Context {num : Type} `{Num num}.

Local Open Scope num_scope.

Definition zero : num := of_int 0.

(** [max(a, b)] and [min(a, b)] of two arguments: the first argument is kept
    unless the second is strictly greater (strictly smaller). *)
Definition py_max (a b : num) : num := if a <? b then b else a.
Definition py_min (a b : num) : num := if b <? a then b else a.

(** [sum(iterable)]: left to right, from [0]. *)
Definition py_sum (l : list num) : num := fold_left add l zero.

(** [sorted(l, key=key)]: the stable sort by [<] on the keys.  [insert_by]
    puts an element in front of the first one whose key is not smaller, so
    that equal keys keep the order of [l]. *)
Fixpoint insert_by {A : Type} (key : A -> num) (x : A) (l : list A) : list A :=
  match l with
  | [] => [x]
  | y :: l' =>
      if key y <? key x then y :: insert_by key x l' else x :: y :: l'
  end.

Definition sorted {A : Type} (key : A -> num) (l : list A) : list A :=
  fold_right (insert_by key) [] l.

(** [class CreditCard]: the attributes set by [__init__]. *)
Record CreditCard : Type := {
  name : string;
  balance : num;
  minimum_payment : num;
  due_date : string;
  apr : num;
  credit_limit : num;
  notes : string;
  monthly_interest_rate : num
}.

(** [CreditCard.__init__]. *)
Definition CreditCard_init (name : string) (balance minimum_payment : num)
    (due_date : string) (apr credit_limit : num) (notes : string)
  : CreditCard :=
  {| name := name;
     balance := balance;
     minimum_payment := minimum_payment;
     due_date := due_date;
     apr := apr;
     credit_limit := credit_limit;
     notes := notes;
     monthly_interest_rate := apr / of_int 100 / of_int 12 |}.

Definition calculate_interest (balance monthly_rate : num) : num :=
  balance * monthly_rate.

(** An element of [remaining_cards]: the dict with keys ["name"],
    ["balance"], ["minimum"], ["apr"], ["monthly_rate"]. *)
Record card_dict : Type := {
  c_name : string;
  c_balance : num;
  c_minimum : num;
  c_apr : num;
  c_monthly_rate : num
}.

Definition card_dict_of (card : CreditCard) : card_dict :=
  {| c_name := name card;
     c_balance := balance card;
     c_minimum := minimum_payment card;
     c_apr := apr card;
     c_monthly_rate := monthly_interest_rate card |}.

(** [card["balance"] = b]. *)
Definition set_balance (card : card_dict) (b : num) : card_dict :=
  {| c_name := c_name card;
     c_balance := b;
     c_minimum := c_minimum card;
     c_apr := c_apr card;
     c_monthly_rate := c_monthly_rate card |}.

(** An element of [month_data["payments"]]. *)
Record payment_record : Type := {
  p_card : string;
  p_payment : num;
  p_interest : num;
  p_principal : num;
  p_balance_before : num;
  p_balance_after : num
}.

(** The dict [month_data]. *)
Record month_data : Type := {
  m_month : nat;
  m_payments : list payment_record;
  m_balances_after : list (string * num);
  m_total_paid : num;
  m_interest_paid : num
}.

(** The messages of the two [{"error": ...}] results.  [BudgetError] stands
    for the f-string that formats the monthly payment and the total of the
    minimum payments; [ExceedsError] for "Payment schedule exceeds 1000
    months. Please check your inputs." *)
Inductive error_message : Type :=
| BudgetError (total_monthly_payment total_minimums : num)
| ExceedsError.

(** The returned dict: an error, or the four keys ["schedule"],
    ["total_months"], ["total_interest_paid"], ["total_amount_paid"]. *)
Inductive result : Type :=
| Error (e : error_message)
| Schedule (schedule : list month_data) (total_months : nat)
           (total_interest_paid total_amount_paid : num).

(** The body of the first [for] loop for one card: the payment record that
    is appended and the card with its new balance. *)
Definition minimum_step (card : card_dict) : payment_record * card_dict :=
  let interest_charge := calculate_interest (c_balance card) (c_monthly_rate card) in
  let payment := c_minimum card in
  let principal := payment - interest_charge in
  let '(principal, payment) :=
    if principal <? zero then (zero, interest_charge) else (principal, payment) in
  let new_balance := py_max zero (c_balance card - principal) in
  ({| p_card := c_name card;
      p_payment := payment;
      p_interest := interest_charge;
      p_principal := principal;
      p_balance_before := c_balance card;
      p_balance_after := new_balance |},
   set_balance card new_balance).

(** "Apply minimum payments to all cards". *)
Fixpoint apply_minimums (cards : list card_dict) (md : month_data)
  : list card_dict * month_data :=
  match cards with
  | [] => ([], md)
  | card :: rest =>
      let '(record, card') := minimum_step card in
      let md' :=
        {| m_month := m_month md;
           m_payments := m_payments md ++ [record];
           m_balances_after := m_balances_after md;
           m_total_paid := m_total_paid md + p_payment record;
           m_interest_paid := m_interest_paid md + p_interest record |} in
      let '(rest', md'') := apply_minimums rest md' in
      (card' :: rest', md'')
  end.

(** The three assignments to a payment record that receives the extra
    payment. *)
Definition add_extra (r : payment_record) (extra_applied balance : num)
  : payment_record :=
  {| p_card := p_card r;
     p_payment := p_payment r + extra_applied;
     p_interest := p_interest r;
     p_principal := p_principal r + extra_applied;
     p_balance_before := p_balance_before r;
     p_balance_after := balance |}.

(** The inner [for payment_record in month_data["payments"]] with its
    [break]: the first record whose ["card"] is the target's name gets the
    extra payment. *)
Fixpoint update_payment_record (target_name : string) (extra_applied balance : num)
    (payments : list payment_record) : list payment_record :=
  match payments with
  | [] => []
  | r :: rest =>
      if String.eqb (p_card r) target_name then
        add_extra r extra_applied balance :: rest
      else r :: update_payment_record target_name extra_applied balance rest
  end.

(** "Apply extra payment to the card with smallest balance". *)
Definition apply_extra (extra_payment : num) (remaining_cards : list card_dict)
    (md : month_data) : list card_dict * month_data :=
  if zero <? extra_payment then
    match remaining_cards with
    | [] => (remaining_cards, md)
    | target_card :: rest =>
        if zero <? c_balance target_card then
          let extra_applied := py_min extra_payment (c_balance target_card) in
          let target_card' :=
            set_balance target_card (c_balance target_card - extra_applied) in
          (target_card' :: rest,
           {| m_month := m_month md;
              m_payments :=
                update_payment_record (c_name target_card') extra_applied
                  (c_balance target_card') (m_payments md);
              m_balances_after := m_balances_after md;
              m_total_paid := m_total_paid md + extra_applied;
              m_interest_paid := m_interest_paid md |})
        else (remaining_cards, md)
    end
  else (remaining_cards, md).

(** One pass of the [while] body up to "Remove paid-off cards": the month's
    record and the cards as mutated by it. *)
Definition period (month : nat) (extra_payment : num)
    (remaining_cards : list card_dict) : month_data * list card_dict :=
  let md :=
    {| m_month := month; m_payments := []; m_balances_after := [];
       m_total_paid := zero; m_interest_paid := zero |} in
  let '(cards, md) := apply_minimums remaining_cards md in
  let '(cards, md) := apply_extra extra_payment cards md in
  ({| m_month := m_month md;
      m_payments := m_payments md;
      m_balances_after := map (fun card => (c_name card, c_balance card)) cards;
      m_total_paid := m_total_paid md;
      m_interest_paid := m_interest_paid md |},
   cards).

(** [card["balance"] > 0]. *)
Definition has_balance (card : card_dict) : bool := zero <? c_balance card.

(** The [while remaining_cards] loop and the final [return].  [fuel] bounds
    the recursion; [None] is "out of fuel", which [create_payment_schedule]
    is shown never to reach. *)
Fixpoint payoff_loop (fuel : nat) (extra_payment : num) (month : nat)
    (remaining_cards : list card_dict) (schedule : list month_data)
    (total_interest_paid : num) : option result :=
  match remaining_cards with
  | [] =>
      Some (Schedule schedule (List.length schedule) total_interest_paid
              (py_sum (map m_total_paid schedule)))
  | _ :: _ =>
      match fuel with
      | O => None
      | S fuel' =>
          let '(md, cards) := period month extra_payment remaining_cards in
          let remaining_cards' := filter has_balance cards in
          let total_interest_paid' := total_interest_paid + m_interest_paid md in
          let schedule' := schedule ++ [md] in
          let month' := S month in
          if Nat.ltb 1000 month' then Some (Error ExceedsError)
          else payoff_loop fuel' extra_payment month' remaining_cards'
                 schedule' total_interest_paid'
      end
  end.

(** The locals [cards_with_balance], [cards_sorted] and [total_minimums]. *)
Definition cards_with_balance (cards : list CreditCard) : list CreditCard :=
  filter (fun card => zero <? balance card) cards.

Definition cards_sorted (cards : list CreditCard) : list CreditCard :=
  sorted balance (cards_with_balance cards).

Definition total_minimums (cards : list CreditCard) : num :=
  py_sum (map minimum_payment (cards_sorted cards)).

(** [create_payment_schedule] with [fuel] passes of the [while] loop
    allowed. *)
Definition payment_schedule_fuel (fuel : nat) (cards : list CreditCard)
    (total_monthly_payment : num) : option result :=
  if total_monthly_payment <? total_minimums cards then
    Some (Error (BudgetError total_monthly_payment (total_minimums cards)))
  else
    let extra_payment := total_monthly_payment - total_minimums cards in
    let remaining_cards := map card_dict_of (cards_sorted cards) in
    payoff_loop fuel extra_payment 1 remaining_cards [] zero.

(** The loop stops by itself when [month] passes 1000, so 1000 passes are
    all it can make ([create_payment_schedule_total] below). *)
Definition create_payment_schedule (cards : list CreditCard)
    (total_monthly_payment : num) : option result :=
  payment_schedule_fuel 1000 cards total_monthly_payment.

End Planner.

Arguments CreditCard num : clear implicits.
Arguments card_dict num : clear implicits.
Arguments payment_record num : clear implicits.
Arguments month_data num : clear implicits.
Arguments error_message num : clear implicits.
Arguments result num : clear implicits.


(** ** The shape of one period *)

Section Period.

Context {num : Type} `{Num num}.

Local Open Scope num_scope.

(** The record appended for a card by the minimum-payment loop, and the card
    after it. *)
Definition minimum_record (card : card_dict num) : payment_record num :=
  fst (minimum_step card).

Definition after_minimum (card : card_dict num) : card_dict num :=
  snd (minimum_step card).

(** The extra payment a period applies to its first card, if any: [None]
    when there is no extra budget or the first card is already at zero after
    its minimum payment. *)
Definition extra_for (extra_payment : num) (target_card : card_dict num)
  : option num :=
  if zero <? extra_payment then
    if zero <? c_balance (after_minimum target_card) then
      Some (py_min extra_payment (c_balance (after_minimum target_card)))
    else None
  else None.

(** The payment records of a period, read off the working list. *)
Definition period_payments (extra_payment : num)
    (remaining_cards : list (card_dict num)) : list (payment_record num) :=
  match remaining_cards with
  | [] => []
  | target_card :: rest =>
      match extra_for extra_payment target_card with
      | Some extra_applied =>
          add_extra (minimum_record target_card) extra_applied
            (c_balance (after_minimum target_card) - extra_applied)
          :: map minimum_record rest
      | None => map minimum_record remaining_cards
      end
  end.

(** The cards at the end of a period, before the paid-off ones are removed. *)
Definition period_cards (extra_payment : num)
    (remaining_cards : list (card_dict num)) : list (card_dict num) :=
  match remaining_cards with
  | [] => []
  | target_card :: rest =>
      match extra_for extra_payment target_card with
      | Some extra_applied =>
          set_balance (after_minimum target_card)
            (c_balance (after_minimum target_card) - extra_applied)
          :: map after_minimum rest
      | None => map after_minimum remaining_cards
      end
  end.

(** The working list of the next period. *)
Definition next_remaining (extra_payment : num)
    (remaining_cards : list (card_dict num)) : list (card_dict num) :=
  filter has_balance (period_cards extra_payment remaining_cards).

Lemma apply_minimums_eq (cards : list (card_dict num)) (md : month_data num) :
  apply_minimums cards md =
  (map after_minimum cards,
   {| m_month := m_month md;
      m_payments := m_payments md ++ map minimum_record cards;
      m_balances_after := m_balances_after md;
      m_total_paid :=
        fold_left add (map (fun c => p_payment (minimum_record c)) cards)
          (m_total_paid md);
      m_interest_paid :=
        fold_left add (map (fun c => p_interest (minimum_record c)) cards)
          (m_interest_paid md) |}).
Proof.
  revert md. induction cards as [|card rest IH]; intros md.
  - destruct md; simpl. now rewrite app_nil_r.
  - cbn [apply_minimums]. unfold minimum_record, after_minimum in *.
    destruct (minimum_step card) as [record card'] eqn:E.
    rewrite IH. cbn. rewrite E. cbn. now rewrite <- app_assoc.
Qed.

Lemma minimum_record_card (card : card_dict num) :
  p_card (minimum_record card) = c_name card.
Proof.
  unfold minimum_record, minimum_step.
  now destruct (_ <? _).
Qed.

Lemma after_minimum_name (card : card_dict num) :
  c_name (after_minimum card) = c_name card.
Proof.
  unfold after_minimum, minimum_step.
  now destruct (_ <? _).
Qed.

Lemma minimum_record_balance_after (card : card_dict num) :
  p_balance_after (minimum_record card) = c_balance (after_minimum card).
Proof.
  unfold minimum_record, after_minimum, minimum_step.
  now destruct (_ <? _).
Qed.

Lemma minimum_record_balance_before (card : card_dict num) :
  p_balance_before (minimum_record card) = c_balance card.
Proof.
  unfold minimum_record, minimum_step.
  now destruct (_ <? _).
Qed.

(** The search by name stops at the first record: the target is the first
    card, and the records are in the order of the cards. *)
Lemma update_payment_record_head (target_name : string) (e b : num)
    (r : payment_record num) (rest : list (payment_record num)) :
  p_card r = target_name ->
  update_payment_record target_name e b (r :: rest) = add_extra r e b :: rest.
Proof.
  intros <-. cbn. now rewrite String.eqb_refl.
Qed.

Lemma period_eq (month : nat) (extra_payment : num)
    (remaining_cards : list (card_dict num)) :
  period month extra_payment remaining_cards =
  ({| m_month := month;
      m_payments := period_payments extra_payment remaining_cards;
      m_balances_after :=
        map (fun card => (c_name card, c_balance card))
          (period_cards extra_payment remaining_cards);
      m_total_paid :=
        (let paid :=
           fold_left add
             (map (fun c => p_payment (minimum_record c)) remaining_cards) zero in
         match remaining_cards with
         | [] => paid
         | target_card :: _ =>
             match extra_for extra_payment target_card with
             | Some extra_applied => paid + extra_applied
             | None => paid
             end
         end);
      m_interest_paid :=
        fold_left add
          (map (fun c => p_interest (minimum_record c)) remaining_cards) zero |},
   period_cards extra_payment remaining_cards).
Proof.
  unfold period. rewrite apply_minimums_eq. cbn [m_payments app m_month
    m_balances_after m_total_paid m_interest_paid].
  destruct remaining_cards as [|target_card rest].
  - cbn. unfold apply_extra. now destruct (_ <? _).
  - unfold apply_extra, period_payments, period_cards, extra_for.
    cbn [map]. destruct (zero <? extra_payment); [|reflexivity].
    destruct (zero <? c_balance (after_minimum target_card)); [|reflexivity].
    cbn [m_payments m_month m_balances_after m_total_paid m_interest_paid
         set_balance c_name c_balance].
    rewrite update_payment_record_head
      by (now rewrite minimum_record_card, after_minimum_name).
    reflexivity.
Qed.

End Period.

(** ** The run of the loop *)

Section Run.

Context {num : Type} `{Num num}.

Local Open Scope num_scope.

(** The working list after [k] periods. *)
Fixpoint remaining_after (extra_payment : num) (k : nat)
    (remaining_cards : list (card_dict num)) : list (card_dict num) :=
  match k with
  | O => remaining_cards
  | S k' => remaining_after extra_payment k' (next_remaining extra_payment remaining_cards)
  end.

(** The months a run to the end appends to [schedule], from a given month
    and working list. *)
Inductive payoff (extra_payment : num)
  : nat -> list (card_dict num) -> list (month_data num) -> Prop :=
| payoff_done (month : nat) : payoff extra_payment month [] []
| payoff_month (month : nat) (remaining_cards : list (card_dict num))
    (months : list (month_data num)) :
    remaining_cards <> [] ->
    payoff extra_payment (S month) (next_remaining extra_payment remaining_cards) months ->
    payoff extra_payment month remaining_cards
      (fst (period month extra_payment remaining_cards) :: months).

Lemma remaining_after_nil (extra_payment : num) (k : nat) :
  remaining_after extra_payment k [] = [].
Proof. induction k; cbn; auto. Qed.

Lemma remaining_after_S (extra_payment : num) (k : nat)
    (remaining_cards : list (card_dict num)) :
  remaining_after extra_payment (S k) remaining_cards =
  next_remaining extra_payment (remaining_after extra_payment k remaining_cards).
Proof.
  revert remaining_cards. induction k as [|k IH]; intros w; [reflexivity|].
  change (remaining_after extra_payment (S (S k)) w)
    with (remaining_after extra_payment (S k) (next_remaining extra_payment w)).
  now rewrite IH.
Qed.

Lemma period_snd (month : nat) (extra_payment : num)
    (remaining_cards : list (card_dict num)) :
  snd (period month extra_payment remaining_cards) =
  period_cards extra_payment remaining_cards.
Proof. now rewrite period_eq. Qed.

(** What a pass of the loop does, in terms of [period] and [next_remaining]. *)
Lemma payoff_loop_step (fuel : nat) (extra_payment : num) (month : nat)
    (card : card_dict num) (rest : list (card_dict num))
    (schedule : list (month_data num)) (total_interest_paid : num) :
  payoff_loop (S fuel) extra_payment month (card :: rest) schedule total_interest_paid =
  if Nat.ltb 1000 (S month) then Some (Error ExceedsError)
  else payoff_loop fuel extra_payment (S month)
         (next_remaining extra_payment (card :: rest))
         (schedule ++ [fst (period month extra_payment (card :: rest))])
         (total_interest_paid
          + m_interest_paid (fst (period month extra_payment (card :: rest)))).
Proof.
  cbn [payoff_loop]. unfold next_remaining. rewrite <- period_snd with (month := month).
  now destruct (period month extra_payment (card :: rest)).
Qed.

(** A run that returns a schedule has appended the months of [payoff], has
    emptied the working list, and has summed the totals over them. *)
Lemma payoff_loop_schedule (fuel : nat) (extra_payment : num) :
  forall (month : nat) (remaining_cards : list (card_dict num))
         (schedule : list (month_data num)) (total_interest_paid : num)
         (s : list (month_data num)) (n : nat) (ti ta : num),
  payoff_loop fuel extra_payment month remaining_cards schedule total_interest_paid
    = Some (Schedule s n ti ta) ->
  exists months,
    s = schedule ++ months /\
    payoff extra_payment month remaining_cards months /\
    (month + List.length months <= 1000 \/ months = [])%nat /\
    n = List.length s /\
    ti = fold_left add (map (@m_interest_paid num) months) total_interest_paid /\
    ta = py_sum (map (@m_total_paid num) s).
Proof.
  induction fuel as [|fuel IH]; intros month w schedule tip s n ti ta Hrun.
  - destruct w as [|card rest]; [|discriminate].
    cbn in Hrun. injection Hrun as <- <- <- <-.
    exists []. rewrite app_nil_r. repeat split; auto. constructor.
  - destruct w as [|card rest].
    + cbn in Hrun. injection Hrun as <- <- <- <-.
      exists []. rewrite app_nil_r. repeat split; auto. constructor.
    + rewrite payoff_loop_step in Hrun.
      destruct (Nat.ltb 1000 (S month)) eqn:Hm; [discriminate|].
      apply Nat.ltb_ge in Hm.
      apply IH in Hrun as (months & -> & Hp & Hlen & -> & -> & ->).
      exists (fst (period month extra_payment (card :: rest)) :: months).
      rewrite <- app_assoc. cbn [app map fold_left List.length].
      repeat split; auto.
      * constructor; [discriminate|exact Hp].
      * left. destruct Hlen as [Hlen| ->]; cbn [List.length]; lia.
Qed.

(** The loop returns: it needs no more fuel than the months left to 1000. *)
Lemma payoff_loop_returns (fuel : nat) (extra_payment : num) :
  forall (month : nat) (remaining_cards : list (card_dict num))
         (schedule : list (month_data num)) (total_interest_paid : num),
  (1000 < month + fuel)%nat -> (month <= 1000)%nat ->
  exists r,
    payoff_loop fuel extra_payment month remaining_cards schedule total_interest_paid
    = Some r.
Proof.
  induction fuel as [|fuel IH]; intros month w schedule tip Hfuel Hmonth.
  - lia.
  - destruct w as [|card rest]; [cbn; eauto|].
    rewrite payoff_loop_step.
    destruct (Nat.ltb 1000 (S month)) eqn:Hm; [eauto|].
    apply Nat.ltb_ge in Hm. apply IH; lia.
Qed.

(** The outcome of the loop, by the working list after the months that are
    left: a schedule when it is empty once [month] has reached 1000, the
    error otherwise. *)
Lemma payoff_loop_outcome (fuel : nat) (extra_payment : num) :
  forall (month : nat) (remaining_cards : list (card_dict num))
         (schedule : list (month_data num)) (total_interest_paid : num),
  (1000 < month + fuel)%nat -> (month <= 1000)%nat ->
  (remaining_after extra_payment (1000 - month) remaining_cards = [] ->
   exists s n ti ta,
     payoff_loop fuel extra_payment month remaining_cards schedule total_interest_paid
     = Some (Schedule s n ti ta)) /\
  (remaining_after extra_payment (1000 - month) remaining_cards <> [] ->
   payoff_loop fuel extra_payment month remaining_cards schedule total_interest_paid
   = Some (Error ExceedsError)).
Proof.
  induction fuel as [|fuel IH]; intros month w schedule tip Hfuel Hmonth.
  - lia.
  - destruct w as [|card rest].
    + rewrite remaining_after_nil. split; [cbn; eauto 6|congruence].
    + rewrite payoff_loop_step.
      destruct (Nat.ltb 1000 (S month)) eqn:Hm.
      * apply Nat.ltb_lt in Hm. replace (1000 - month)%nat with O by lia.
        cbn [remaining_after]. split; [discriminate|reflexivity].
      * apply Nat.ltb_ge in Hm.
        replace (1000 - month)%nat with (S (1000 - S month)) by lia.
        cbn [remaining_after]. apply IH; lia.
Qed.

(** The [k]-th month of a run is the period of the working list after [k]
    periods. *)
Lemma payoff_nth (extra_payment : num) (month : nat)
    (remaining_cards : list (card_dict num)) (months : list (month_data num)) :
  payoff extra_payment month remaining_cards months ->
  forall (k : nat) (md : month_data num),
  nth_error months k = Some md ->
  remaining_after extra_payment k remaining_cards <> [] /\
  md = fst (period (month + k) extra_payment
              (remaining_after extra_payment k remaining_cards)).
Proof.
  induction 1 as [month|month w months Hw Hp IH]; intros k md Hk.
  - now destruct k.
  - destruct k as [|k]; cbn in Hk.
    + injection Hk as <-. rewrite Nat.add_0_r. now split.
    + apply IH in Hk. cbn [remaining_after].
      now replace (month + S k)%nat with (S month + k)%nat by lia.
Qed.

(** A run ends when the working list is empty, not before. *)
Lemma payoff_length (extra_payment : num) (month : nat)
    (remaining_cards : list (card_dict num)) (months : list (month_data num)) :
  payoff extra_payment month remaining_cards months ->
  remaining_after extra_payment (List.length months) remaining_cards = [].
Proof.
  induction 1; cbn; auto.
Qed.

End Run.

(** ** The outcomes of [create_payment_schedule] *)

Section Outcomes.

Context {num : Type} `{Num num}.

Local Open Scope num_scope.

(** The working list the loop starts from, and the extra payment. *)
Definition initial_remaining (cards : list (CreditCard num)) : list (card_dict num) :=
  map card_dict_of (cards_sorted cards).

Definition extra_payment_of (cards : list (CreditCard num))
    (total_monthly_payment : num) : num :=
  total_monthly_payment - total_minimums cards.

(** The keys of a returned dict; empty or zero when there is none. *)
Definition schedule_of (r : option (result num)) : list (month_data num) :=
  match r with Some (Schedule s _ _ _) => s | _ => [] end.

Definition total_months_of (r : option (result num)) : nat :=
  match r with Some (Schedule _ n _ _) => n | _ => O end.

Definition total_interest_paid_of (r : option (result num)) : num :=
  match r with Some (Schedule _ _ ti _) => ti | _ => zero end.

Definition total_amount_paid_of (r : option (result num)) : num :=
  match r with Some (Schedule _ _ _ ta) => ta | _ => zero end.

(** The function returns on every input: 1000 passes are enough fuel. *)
Lemma create_payment_schedule_total (cards : list (CreditCard num))
    (total_monthly_payment : num) :
  exists r, create_payment_schedule cards total_monthly_payment = Some r.
Proof.
  unfold create_payment_schedule, payment_schedule_fuel.
  destruct (_ <? _); [eauto|].
  apply payoff_loop_returns; lia.
Qed.

(** The three ways out.  The loop gives up as soon as [month] is 1001, that
    is after the 1000th period, whatever that period left: a schedule is
    returned only if the working list is empty after 999 periods. *)
Lemma create_payment_schedule_outcome (cards : list (CreditCard num))
    (total_monthly_payment : num) :
  let extra_payment := extra_payment_of cards total_monthly_payment in
  ((total_monthly_payment <? total_minimums cards) = true ->
   create_payment_schedule cards total_monthly_payment
   = Some (Error (BudgetError total_monthly_payment (total_minimums cards)))) /\
  ((total_monthly_payment <? total_minimums cards) = false ->
   remaining_after extra_payment 999 (initial_remaining cards) = [] ->
   exists s n ti ta,
     create_payment_schedule cards total_monthly_payment
     = Some (Schedule s n ti ta)) /\
  ((total_monthly_payment <? total_minimums cards) = false ->
   remaining_after extra_payment 999 (initial_remaining cards) <> [] ->
   create_payment_schedule cards total_monthly_payment
   = Some (Error ExceedsError)).
Proof.
  cbv zeta. unfold create_payment_schedule, payment_schedule_fuel.
  repeat split; intros Hb; rewrite Hb; [reflexivity| |];
    intros Hrem;
    apply (payoff_loop_outcome 1000 (extra_payment_of cards total_monthly_payment)
             (month := 1)); try lia; exact Hrem.
Qed.

(** A returned schedule is the run of the loop from the sorted cards. *)
Lemma create_payment_schedule_schedule (cards : list (CreditCard num))
    (total_monthly_payment : num) (s : list (month_data num)) (n : nat)
    (ti ta : num) :
  create_payment_schedule cards total_monthly_payment = Some (Schedule s n ti ta) ->
  (total_monthly_payment <? total_minimums cards) = false /\
  payoff (extra_payment_of cards total_monthly_payment) 1 (initial_remaining cards) s /\
  (List.length s <= 999)%nat /\
  n = List.length s /\
  ti = fold_left add (map (@m_interest_paid num) s) zero /\
  ta = py_sum (map (@m_total_paid num) s).
Proof.
  unfold create_payment_schedule, payment_schedule_fuel.
  destruct (_ <? _); [discriminate|]. intros Hrun.
  apply payoff_loop_schedule in Hrun as (months & -> & Hp & Hlen & -> & -> & ->).
  cbn [app]. repeat split; auto.
  destruct Hlen as [Hlen| ->]; cbn [List.length]; lia.
Qed.

End Outcomes.

(** ** Numbers of the two instances *)

(** Literals. *)
Definition fl (z : Z) : float := of_int z.
Definition qc (z : Z) : Qc := of_int z.

Lemma Qc_ltb_lt (a b : Qc) : Qc_ltb a b = true <-> (a < b)%Qc.
Proof.
  unfold Qc_ltb. rewrite Qclt_alt. destruct (a ?= b)%Qc; intuition congruence.
Qed.

Lemma Qc_ltb_ge (a b : Qc) : Qc_ltb a b = false <-> (b <= a)%Qc.
Proof.
  split; intros Hab.
  - apply Qcnot_lt_le. intros Hlt. apply Qc_ltb_lt in Hlt. congruence.
  - destruct (Qc_ltb a b) eqn:E; [|reflexivity].
    apply Qc_ltb_lt in E. now apply Qcle_not_lt in Hab.
Qed.

Lemma Qc_ltb_irrefl (a : Qc) : Qc_ltb a a = false.
Proof. apply Qc_ltb_ge, Qcle_refl. Qed.

Lemma float_ltb_irrefl (x : float) : PrimFloat.ltb x x = false.
Proof.
  rewrite FloatAxioms.ltb_spec. unfold SFltb.
  destruct (Prim2SF x) as [s|s| |s m e]; cbn.
  - reflexivity.
  - now destruct s.
  - reflexivity.
  - rewrite Z.compare_refl, Pos.compare_refl. now destruct s.
Qed.

(** ** Inputs of the scenarios *)

Section Scenarios.

Context {num : Type} `{Num num}.

(** [CreditCard(name, balance, minimum_payment, "15th", apr)]. *)
Definition card (name : string) (balance minimum_payment apr : Z) : CreditCard num :=
  CreditCard_init name (of_int balance) (of_int minimum_payment) "15th"
    (of_int apr) (of_int 0) "".

(** One card that the budget clears in the first month. *)
Definition quick_payoff : list (CreditCard num) := [card "Quick Payoff" 500 25 18].

(** Two cards whose minimum payments add up to 100. *)
Definition two_cards : list (CreditCard num) := [card "A" 500 25 18; card "B" 2000 75 20].

(** Cards that owe nothing. *)
Definition zero_cards : list (CreditCard num) := [card "Zero 1" 0 0 18; card "Zero 2" 0 0 20].

(** A card whose minimum payment is below its monthly interest of 20. *)
Definition interest_only : list (CreditCard num) := [card "A" 1000 10 24].

(** A card without interest whose last minimum payment of 30 meets a balance
    of 10. *)
Definition last_payment_over : list (CreditCard num) := [card "A" 100 30 0].

(** A card without interest that minimum payments of 1 clear in exactly 1000
    months. *)
Definition thousand_months : list (CreditCard num) := [card "A" 1000 1 0].

(** Two cards without interest: the smaller one is paid slowly, so that after
    the first month the larger one owes less. *)
Definition overtaken : list (CreditCard num) := [card "A" 100 1 0; card "B" 101 50 0].

End Scenarios.

(** ** One account across the periods *)

Section Accounts.

Context {num : Type} `{Num num}.

Local Open Scope num_scope.

(** A payment record of an account that stays in the working list: its
    recorded balance is still above zero. *)
Definition still_owed (r : payment_record num) : bool := zero <? p_balance_after r.

(** The records of the account that is at position [i] of the first month of
    [schedule], month after month.  The cards keep their order when the
    paid-off ones are removed, so the account is found in the next month at
    the number of accounts before it that stay. *)
Fixpoint account_lines (schedule : list (month_data num)) (i : nat)
  : list (payment_record num) :=
  match schedule with
  | [] => []
  | md :: later =>
      match nth_error (m_payments md) i with
      | None => []
      | Some r =>
          r :: (if still_owed r then
                  account_lines later
                    (List.length (filter still_owed (firstn i (m_payments md))))
                else [])
      end
  end.

(** What a period does to one card: the minimum payment, and for the first
    card of the working list the extra payment when there is one. *)
Inductive line_of (extra_payment : num) (card : card_dict num)
  : payment_record num -> card_dict num -> Prop :=
| line_minimum :
    line_of extra_payment card (minimum_record card) (after_minimum card)
| line_extra (extra_applied : num) :
    extra_for extra_payment card = Some extra_applied ->
    line_of extra_payment card
      (add_extra (minimum_record card) extra_applied
         (c_balance (after_minimum card) - extra_applied))
      (set_balance (after_minimum card)
         (c_balance (after_minimum card) - extra_applied)).

(** The life of one account: a record per period while its balance is above
    zero at the end of the period, and a last one. *)
Inductive account_run (extra_payment : num)
  : card_dict num -> list (payment_record num) -> Prop :=
| account_settled (card : card_dict num) (r : payment_record num)
    (card' : card_dict num) :
    line_of extra_payment card r card' ->
    has_balance card' = false ->
    account_run extra_payment card [r]
| account_active (card : card_dict num) (r : payment_record num)
    (card' : card_dict num) (rs : list (payment_record num)) :
    line_of extra_payment card r card' ->
    has_balance card' = true ->
    account_run extra_payment card' rs ->
    account_run extra_payment card (r :: rs).

(** Lists: the position of an element that a filter keeps. *)
Lemma nth_error_filter_keep {A : Type} (f : A -> bool) (l : list A) (i : nat) (x : A) :
  nth_error l i = Some x -> f x = true ->
  nth_error (filter f l) (List.length (filter f (firstn i l))) = Some x.
Proof.
  revert i. induction l as [|y l IH]; intros i Hi Hx.
  - now destruct i.
  - destruct i as [|i]; cbn in Hi.
    + injection Hi as ->. cbn. now rewrite Hx.
    + cbn [firstn filter]. destruct (f y); cbn; auto.
Qed.

Lemma nth_error_filter_from {A : Type} (f : A -> bool) (l : list A) (j : nat) (x : A) :
  nth_error (filter f l) j = Some x ->
  exists i, nth_error l i = Some x /\ f x = true /\
            List.length (filter f (firstn i l)) = j.
Proof.
  revert j. induction l as [|y l IH]; intros j Hj.
  - now destruct j.
  - cbn in Hj. destruct (f y) eqn:Hy.
    + destruct j as [|j]; cbn in Hj.
      * injection Hj as ->. exists O. auto.
      * apply IH in Hj as (i & Hi & Hx & Hlen). exists (S i).
        cbn [firstn filter nth_error]. rewrite Hy. cbn. auto.
    + apply IH in Hj as (i & Hi & Hx & Hlen). exists (S i).
      cbn [firstn filter nth_error]. now rewrite Hy.
Qed.

Lemma filter_length_map {A B C : Type} (f : A -> C) (g : B -> C) (p : C -> bool)
    (la : list A) (lb : list B) (i : nat) :
  map f la = map g lb ->
  List.length (filter (fun a => p (f a)) (firstn i la))
  = List.length (filter (fun b => p (g b)) (firstn i lb)).
Proof.
  revert lb i. induction la as [|a la IH]; intros [|b lb] i Hm; try discriminate.
  - now destruct i.
  - injection Hm as Hab Hm. destruct i as [|i]; [reflexivity|].
    cbn. rewrite Hab. destruct (p (g b)); cbn; auto.
Qed.

(** The records and the cards of a period have the length of the working
    list, and all records but the first are minimum payments only. *)
Lemma period_lengths (extra_payment : num) (remaining_cards : list (card_dict num)) :
  List.length (period_payments extra_payment remaining_cards)
  = List.length remaining_cards /\
  List.length (period_cards extra_payment remaining_cards)
  = List.length remaining_cards /\
  tl (period_payments extra_payment remaining_cards)
  = map minimum_record (tl remaining_cards).
Proof.
  destruct remaining_cards as [|target_card rest]; cbn; [auto|].
  destruct (extra_for extra_payment target_card); cbn; rewrite !length_map; auto.
Qed.

(** The balance a record shows is the balance of its card at the end of the
    period. *)
Lemma period_balances_after (extra_payment : num)
    (remaining_cards : list (card_dict num)) :
  map (@p_balance_after num) (period_payments extra_payment remaining_cards)
  = map (@c_balance num) (period_cards extra_payment remaining_cards).
Proof.
  assert (Hmin : forall l : list (card_dict num),
             map (@p_balance_after num) (map minimum_record l)
             = map (@c_balance num) (map after_minimum l)).
  { intros l. rewrite !map_map. apply map_ext. intros c.
    apply minimum_record_balance_after. }
  destruct remaining_cards as [|target_card rest]; [reflexivity|]. cbn.
  destruct (extra_for extra_payment target_card); cbn.
  - now rewrite Hmin.
  - now rewrite Hmin, minimum_record_balance_after.
Qed.

(** Every card of the working list gets its line, at its position. *)
Lemma period_line_at (extra_payment : num) (remaining_cards : list (card_dict num))
    (i : nat) (card : card_dict num) :
  nth_error remaining_cards i = Some card ->
  exists r card',
    nth_error (period_payments extra_payment remaining_cards) i = Some r /\
    nth_error (period_cards extra_payment remaining_cards) i = Some card' /\
    line_of extra_payment card r card' /\
    (i <> O -> r = minimum_record card /\ card' = after_minimum card).
Proof.
  intros Hi. destruct remaining_cards as [|target_card rest]; [now destruct i|].
  destruct i as [|i]; cbn in Hi.
  - injection Hi as ->. cbn.
    destruct (extra_for extra_payment card) as [e|] eqn:He; cbn;
      do 2 eexists; (split; [reflexivity|]); (split; [reflexivity|]);
      (split; [now constructor|intros Hne; now elim Hne]).
  - exists (minimum_record card), (after_minimum card).
    cbn. destruct (extra_for extra_payment target_card); cbn;
      (split; [now apply map_nth_error|]); (split; [now apply map_nth_error|]);
      (split; [constructor|auto]).
Qed.

(** A line keeps the name of the card, starts from its balance and records
    the balance it leaves. *)
Lemma line_of_frame (extra_payment : num) (card : card_dict num)
    (r : payment_record num) (card' : card_dict num) :
  line_of extra_payment card r card' ->
  p_card r = c_name card /\ c_name card' = c_name card /\
  c_minimum card' = c_minimum card /\ c_apr card' = c_apr card /\
  c_monthly_rate card' = c_monthly_rate card /\
  p_balance_before r = c_balance card /\
  p_balance_after r = c_balance card' /\
  p_interest r = calculate_interest (c_balance card) (c_monthly_rate card).
Proof.
  assert (Hm : p_card (minimum_record card) = c_name card /\
               c_name (after_minimum card) = c_name card /\
               c_minimum (after_minimum card) = c_minimum card /\
               c_apr (after_minimum card) = c_apr card /\
               c_monthly_rate (after_minimum card) = c_monthly_rate card /\
               p_balance_before (minimum_record card) = c_balance card /\
               p_balance_after (minimum_record card) = c_balance (after_minimum card) /\
               p_interest (minimum_record card)
               = calculate_interest (c_balance card) (c_monthly_rate card)).
  { unfold minimum_record, after_minimum, minimum_step.
    destruct (_ <? _); cbn; repeat split. }
  destruct 1; [exact Hm|]. cbn. tauto.
Qed.

Lemma still_owed_has_balance (extra_payment : num) (card : card_dict num)
    (r : payment_record num) (card' : card_dict num) :
  line_of extra_payment card r card' -> still_owed r = has_balance card'.
Proof.
  intros Hline. apply line_of_frame in Hline.
  unfold still_owed, has_balance. now replace (p_balance_after r) with (c_balance card').
Qed.

(** The account found by [account_lines] in the next month is the same card:
    the positions of the records and of the cards that stay agree. *)
Lemma position_next (extra_payment : num) (remaining_cards : list (card_dict num))
    (i : nat) :
  List.length (filter still_owed
                 (firstn i (period_payments extra_payment remaining_cards)))
  = List.length (filter has_balance
                   (firstn i (period_cards extra_payment remaining_cards))).
Proof.
  apply (filter_length_map (@p_balance_after num) (@c_balance num) (ltb zero)).
  apply period_balances_after.
Qed.

(** In a run, the records of the account at position [i] of the working list
    are the life of that card. *)
Lemma payoff_account (extra_payment : num) (month : nat)
    (remaining_cards : list (card_dict num)) (months : list (month_data num)) :
  payoff extra_payment month remaining_cards months ->
  forall (i : nat) (card : card_dict num),
  nth_error remaining_cards i = Some card ->
  account_run extra_payment card (account_lines months i).
Proof.
  induction 1 as [month|month w months Hw Hp IH]; intros i card Hi.
  - now destruct i.
  - cbn [account_lines]. rewrite period_eq. cbn [fst m_payments].
    destruct (period_line_at extra_payment w i Hi) as (r & card' & Hr & Hc & Hline & _).
    rewrite Hr. rewrite (still_owed_has_balance Hline).
    destruct (has_balance card') eqn:Hb.
    + apply account_active with card'; auto.
      apply IH. rewrite position_next. unfold next_remaining.
      now apply nth_error_filter_keep.
    + now apply account_settled with card'.
Qed.

(** Every record of every month belongs to one of the accounts of the
    working list. *)
Lemma payoff_covered (extra_payment : num) (month : nat)
    (remaining_cards : list (card_dict num)) (months : list (month_data num)) :
  payoff extra_payment month remaining_cards months ->
  forall (k : nat) (md : month_data num) (j : nat) (r : payment_record num),
  nth_error months k = Some md ->
  nth_error (m_payments md) j = Some r ->
  exists i, (i < List.length remaining_cards)%nat /\
            nth_error (account_lines months i) k = Some r.
Proof.
  induction 1 as [month|month w months Hw Hp IH]; intros k md j r Hk Hj.
  - now destruct k.
  - destruct (period_lengths extra_payment w) as (Hlp & Hlc & _).
    destruct k as [|k]; cbn in Hk.
    + injection Hk as <-. rewrite period_eq in Hj. cbn [fst m_payments] in Hj.
      exists j. split.
      * rewrite <- Hlp. apply nth_error_Some. congruence.
      * cbn [account_lines]. rewrite period_eq. cbn [fst m_payments].
        now rewrite Hj.
    + destruct (IH k md j r Hk Hj) as (i' & Hi' & Hline).
      apply nth_error_Some in Hi'.
      destruct (nth_error (next_remaining extra_payment w) i') as [x|] eqn:Hx;
        [clear Hi'|congruence].
      apply nth_error_filter_from in Hx as (i & Hi & Hbx & Hpos).
      assert (Hlt : (i < List.length w)%nat).
      { rewrite <- Hlc. apply nth_error_Some. congruence. }
      exists i. split; [exact Hlt|].
      destruct (nth_error w i) as [card|] eqn:Hcard;
        [|apply nth_error_None in Hcard; lia].
      destruct (period_line_at extra_payment w i Hcard)
        as (r0 & card' & Hr0 & Hc' & Hline0 & _).
      assert (card' = x) by congruence. subst card'.
      cbn [account_lines]. rewrite period_eq. cbn [fst m_payments].
      rewrite Hr0, (still_owed_has_balance Hline0), Hbx, position_next, Hpos.
      exact Hline.
Qed.

(** The records of an account carry its name, and each starts from the
    balance the one before has left. *)
Fixpoint chained (b : num) (rs : list (payment_record num)) : Prop :=
  match rs with
  | [] => True
  | r :: rs' => p_balance_before r = b /\ chained (p_balance_after r) rs'
  end.

Lemma account_run_chained (extra_payment : num) (card : card_dict num)
    (rs : list (payment_record num)) :
  account_run extra_payment card rs ->
  chained (c_balance card) rs /\ Forall (fun r => p_card r = c_name card) rs.
Proof.
  induction 1 as [card r card' Hline Hb|card r card' rs Hline Hb Hrun [IHc IHn]];
    pose proof (line_of_frame Hline) as (Hn & Hn' & _ & _ & _ & Hbb & Hba & _).
  - cbn. repeat split; auto.
  - cbn. rewrite Hba. repeat split; auto. constructor; auto.
    rewrite Hn' in IHn. exact IHn.
Qed.

Lemma chained_nth (b : num) (rs : list (payment_record num)) :
  chained b rs ->
  forall (k : nat) (r r' : payment_record num),
  nth_error rs k = Some r -> nth_error rs (S k) = Some r' ->
  p_balance_before r' = p_balance_after r.
Proof.
  revert b. induction rs as [|r0 rs IH]; intros b Hc k r r' Hk Hk';
    [now destruct k|].
  destruct Hc as (_ & Hc). destruct k as [|k]; cbn in Hk, Hk'.
  - injection Hk as <-. destruct rs as [|r1 rs]; [discriminate|].
    injection Hk' as <-. apply Hc.
  - eapply IH; eauto.
Qed.

(** The records of a settled account stop. *)
Lemma account_lines_last (schedule : list (month_data num)) :
  forall (i k : nat) (r : payment_record num),
  nth_error (account_lines schedule i) k = Some r ->
  still_owed r = false ->
  nth_error (account_lines schedule i) (S k) = None.
Proof.
  induction schedule as [|md later IH]; intros i k r Hk Hr; [now destruct k|].
  cbn [account_lines] in *.
  destruct (nth_error (m_payments md) i) as [r0|]; [|now destruct k].
  destruct k as [|k]; cbn in Hk.
  - injection Hk as ->. now rewrite Hr.
  - cbn [nth_error]. destruct (still_owed r0); [eauto|now destruct k].
Qed.

(** Beyond the accounts of the working list there are no records. *)
Lemma payoff_no_account (extra_payment : num) (month : nat)
    (remaining_cards : list (card_dict num)) (months : list (month_data num)) (i : nat) :
  payoff extra_payment month remaining_cards months ->
  nth_error remaining_cards i = None ->
  account_lines months i = [].
Proof.
  destruct 1 as [month|month w months Hw Hp]; intros Hi; [reflexivity|].
  cbn [account_lines]. rewrite period_eq. cbn [fst m_payments].
  destruct (period_lengths extra_payment w) as (Hlp & _).
  apply nth_error_None in Hi. rewrite <- Hlp in Hi. apply nth_error_None in Hi.
  now rewrite Hi.
Qed.

(** The accounts of a returned schedule, for any numbers: the records of an
    account are the life of its card. *)
Lemma schedule_account_runs (cards : list (CreditCard num)) (budget : num)
    (s : list (month_data num)) (n : nat) (ti ta : num) (i : nat) :
  create_payment_schedule cards budget = Some (Schedule s n ti ta) ->
  account_lines s i = [] \/
  exists card,
    nth_error (initial_remaining cards) i = Some card /\
    account_run (extra_payment_of cards budget) card (account_lines s i).
Proof.
  intros Hrun. apply create_payment_schedule_schedule in Hrun as (_ & Hp & _).
  destruct (nth_error (initial_remaining cards) i) as [card|] eqn:Hi.
  - right. exists card. split; [reflexivity|]. eapply payoff_account; eauto.
  - left. eapply payoff_no_account; eauto.
Qed.

End Accounts.

(** ** The working list: sorted once, then only shrinking *)

Section WorkingList.

Context {num : Type} `{Num num}.

Local Open Scope num_scope.

Lemma insert_by_Permutation {A : Type} (key : A -> num) (x : A) (l : list A) :
  Permutation (insert_by key x l) (x :: l).
Proof.
  induction l as [|y l IH]; cbn; [reflexivity|].
  destruct (key y <? key x); [|reflexivity].
  rewrite IH. apply perm_swap.
Qed.

(** [sorted] rearranges its list. *)
Lemma sorted_Permutation {A : Type} (key : A -> num) (l : list A) :
  Permutation (sorted key l) l.
Proof.
  induction l as [|x l IH]; cbn; [reflexivity|].
  rewrite insert_by_Permutation. now constructor.
Qed.

(** The loop starts from cards that all have a balance, and keeps only such
    cards. *)
Lemma initial_remaining_has_balance (cards : list (CreditCard num)) :
  Forall (fun c => has_balance c = true) (initial_remaining cards).
Proof.
  unfold initial_remaining, cards_sorted, cards_with_balance.
  apply Forall_map. apply Forall_forall. intros c Hc.
  apply (Permutation_in _ (sorted_Permutation _ _)) in Hc.
  apply filter_In in Hc. apply Hc.
Qed.

Lemma remaining_after_has_balance (extra_payment : num) (k : nat)
    (remaining_cards : list (card_dict num)) :
  Forall (fun c => has_balance c = true) remaining_cards ->
  Forall (fun c => has_balance c = true) (remaining_after extra_payment k remaining_cards).
Proof.
  intros Hw. destruct k as [|k]; [exact Hw|].
  rewrite remaining_after_S. unfold next_remaining.
  apply Forall_forall. intros c Hc. apply filter_In in Hc. apply Hc.
Qed.

(** The fields of a card that the loop never assigns. *)
Definition static (card : card_dict num) : string * num * num * num :=
  (c_name card, c_minimum card, c_apr card, c_monthly_rate card).

(** [l1] is [l2] with some elements removed, the others in their order. *)
Inductive subsequence {A : Type} : list A -> list A -> Prop :=
| subsequence_nil : subsequence [] []
| subsequence_keep (x : A) (l1 l2 : list A) :
    subsequence l1 l2 -> subsequence (x :: l1) (x :: l2)
| subsequence_drop (x : A) (l1 l2 : list A) :
    subsequence l1 l2 -> subsequence l1 (x :: l2).

Lemma subsequence_refl {A : Type} (l : list A) : subsequence l l.
Proof. induction l; constructor; auto. Qed.

Lemma subsequence_trans {A : Type} (l1 l2 l3 : list A) :
  subsequence l1 l2 -> subsequence l2 l3 -> subsequence l1 l3.
Proof.
  intros H12 H23. revert l1 H12.
  induction H23 as [|x l2 l3 H23 IH|x l2 l3 H23 IH]; intros l1 H12.
  - exact H12.
  - inversion H12; subst; constructor; auto.
  - constructor; auto.
Qed.

Lemma subsequence_filter_map {A B : Type} (f : A -> bool) (g : A -> B) (l : list A) :
  subsequence (map g (filter f l)) (map g l).
Proof.
  induction l as [|x l IH]; cbn; [constructor|].
  destruct (f x); cbn; constructor; auto.
Qed.

Lemma subsequence_Forall {A : Type} (P : A -> Prop) (l1 l2 : list A) :
  subsequence l1 l2 -> Forall P l2 -> Forall P l1.
Proof.
  induction 1; intros HF; auto; inversion HF; subst; auto.
Qed.

Lemma subsequence_sorted {A : Type} (R : A -> A -> Prop) (l1 l2 : list A) :
  subsequence l1 l2 -> StronglySorted R l2 -> StronglySorted R l1.
Proof.
  induction 1 as [|x l1 l2 Hsub IH|x l1 l2 Hsub IH]; intros Hs; auto;
    inversion Hs; subst; auto.
  constructor; auto. eapply subsequence_Forall; eauto.
Qed.

Lemma subsequence_map_inv {A B : Type} (f : A -> B) (l : list A) :
  forall l1 : list B,
  subsequence l1 (map f l) ->
  exists l', subsequence l' l /\ l1 = map f l'.
Proof.
  induction l as [|x l IH]; intros l1 Hsub; cbn in Hsub;
    inversion Hsub as [|y k1 k2 Hk|y k1 k2 Hk]; subst.
  - exists []. split; constructor.
  - destruct (IH _ Hk) as (l' & Hl' & ->).
    exists (x :: l'). split; [now constructor|reflexivity].
  - destruct (IH _ Hk) as (l' & Hl' & ->).
    exists l'. split; [now constructor|reflexivity].
Qed.

Lemma period_cards_static (extra_payment : num)
    (remaining_cards : list (card_dict num)) :
  map static (period_cards extra_payment remaining_cards)
  = map static remaining_cards.
Proof.
  assert (Ha : forall c, static (after_minimum c) = static c).
  { intros c. unfold static, after_minimum, minimum_step.
    now destruct (_ <? _). }
  assert (Hmin : forall l, map static (map after_minimum l) = map static l).
  { intros l. rewrite map_map. now apply map_ext. }
  destruct remaining_cards as [|target_card rest]; [reflexivity|]. cbn.
  destruct (extra_for extra_payment target_card); cbn; rewrite Hmin; f_equal.
  - apply (Ha target_card).
  - apply Ha.
Qed.

(** After any number of periods the working list is the first one with cards
    removed: the order of the cards never changes. *)
Lemma remaining_after_subsequence (extra_payment : num) (k : nat)
    (remaining_cards : list (card_dict num)) :
  subsequence (map static (remaining_after extra_payment k remaining_cards))
    (map static remaining_cards).
Proof.
  induction k as [|k IH]; [apply subsequence_refl|].
  rewrite remaining_after_S. unfold next_remaining.
  eapply subsequence_trans; [apply subsequence_filter_map|].
  now rewrite period_cards_static.
Qed.

(** Every record of a run is the line of the card at its position in the
    working list of its month. *)
Lemma payoff_line (extra_payment : num) (month : nat)
    (remaining_cards : list (card_dict num)) (months : list (month_data num)) :
  payoff extra_payment month remaining_cards months ->
  forall (k : nat) (md : month_data num) (j : nat) (r : payment_record num),
  nth_error months k = Some md ->
  nth_error (m_payments md) j = Some r ->
  exists card card',
    nth_error (remaining_after extra_payment k remaining_cards) j = Some card /\
    line_of extra_payment card r card' /\
    (j <> O -> r = minimum_record card).
Proof.
  intros Hp k md j r Hk Hj.
  destruct (payoff_nth Hp _ Hk) as (_ & ->).
  rewrite period_eq in Hj. cbn [fst m_payments] in Hj.
  set (w := remaining_after extra_payment k remaining_cards) in *.
  destruct (period_lengths extra_payment w) as (Hlp & _ & _).
  destruct (nth_error w j) as [card|] eqn:Hcard.
  - destruct (period_line_at extra_payment w j Hcard) as (r0 & card' & Hr0 & _ & Hline & Hne).
    assert (r0 = r) by congruence. subst r0.
    exists card, card'. repeat split; auto. intros Hj0. now apply Hne.
  - apply nth_error_None in Hcard.
    assert (j < List.length (period_payments extra_payment w))%nat
      by (apply nth_error_Some; congruence).
    lia.
Qed.

End WorkingList.

(** ** The laws of the numbers

    What the statements on balances use of the numbers: the order, and how
    subtraction meets it.  They are written with [<?] alone, as the program
    compares, so that they also say what holds of a float that is not a
    number, on which every comparison is false. *)

Class NumLaws (num : Type) `{Num num} : Prop := {
  ltb_asym : forall a b : num, (a <? b)%num = true -> (b <? a)%num = false;
  ltb_between : forall a b c : num,
    (a <? c)%num = true -> (zero <? b)%num = true ->
    (a <? b)%num = true \/ (b <? c)%num = true;
  sub_not_above : forall b p : num,
    (zero <? b)%num = true -> (p <? zero)%num = false -> (b <? b - p)%num = false;
  sub_not_below_zero : forall b p : num,
    (zero <? b)%num = true -> (zero <? p)%num = true -> (b <? p)%num = false ->
    (b - p <? zero)%num = false;
  sub_below_zero : forall a b : num,
    (a <? b)%num = true -> (a - b <? zero)%num = true;
  sub_zero : forall b : num, (zero <? b)%num = true -> (b - zero)%num = b
}.

Arguments NumLaws num {_}.

(** ** Exact arithmetic *)

Section Exact.

Local Open Scope Qc_scope.

Lemma this_add (a b : Qc) : (this (a + b) == this a + this b)%Q.
Proof. unfold Qcplus, Q2Qc; cbn [this]. apply Qred_correct. Qed.

Lemma this_opp (a : Qc) : (this (- a) == - this a)%Q.
Proof. unfold Qcopp, Q2Qc; cbn [this]. apply Qred_correct. Qed.

Lemma this_sub (a b : Qc) : (this (a - b) == this a - this b)%Q.
Proof. unfold Qcminus. rewrite this_add, this_opp. reflexivity. Qed.

(** The zero of the interface at [Qc]. *)
Lemma Qc_zero_eq : zero (num := Qc) = 0. Proof. apply Qc_is_canon. reflexivity. Qed.

Lemma Qc_ltb_cases (a b : Qc) :
  (ltb a b = true /\ a < b) \/ (ltb a b = false /\ b <= a).
Proof.
  change (ltb a b) with (Qc_ltb a b).
  destruct (Qc_ltb a b) eqn:E; [left|right]; split; auto.
  - now apply Qc_ltb_lt.
  - now apply Qc_ltb_ge.
Qed.

(** Linear arithmetic on [Qc], through [Q]. *)
Ltac qc_ops :=
  change (@add Qc Qc_Num) with Qcplus in *;
  change (@sub Qc Qc_Num) with Qcminus in *;
  change (@mul Qc Qc_Num) with Qcmult in *.

Ltac qc_lra :=
  qc_ops;
  change (Q2Qc (inject_Z 0)) with (Q2Qc 0) in *;
  rewrite ?Qc_zero_eq in *;
  repeat match goal with
         | H : @eq Qc ?a ?b |- _ =>
             let H' := fresh in
             assert (H' : (this a == this b)%Q) by (rewrite H; reflexivity);
             clear H
         end;
  try apply Qc_is_canon;
  unfold Qcle, Qclt in *;
  repeat (rewrite ?this_add, ?this_sub, ?this_opp in * );
  change (this 0) with 0%Q in *;
  lra.

Lemma py_min_bounds (a b : Qc) :
  py_min a b <= a /\ py_min a b <= b /\ (0 < a -> 0 < b -> 0 < py_min a b).
Proof.
  unfold py_min. destruct (Qc_ltb_cases b a) as [[-> Hx]|[-> Hx]];
    repeat split; intros; qc_lra.
Qed.


Lemma extra_for_exact (extra_payment : Qc) (card : card_dict Qc) (e : Qc) :
  extra_for extra_payment card = Some e ->
  0 < e /\ e <= extra_payment /\ e <= c_balance (after_minimum card) /\
  0 < c_balance (after_minimum card).
Proof.
  unfold extra_for.
  destruct (Qc_ltb_cases zero extra_payment) as [[-> Hx]|[-> Hx]]; [|discriminate].
  destruct (Qc_ltb_cases zero (c_balance (after_minimum card))) as [[-> Hb]|[-> Hb]];
    [|discriminate].
  intros [= <-].
  destruct (py_min_bounds extra_payment (c_balance (after_minimum card)))
    as (Hle1 & Hle2 & Hpos).
  repeat split; auto.
Qed.

(** The two cards with a monthly payment of 200 get a schedule. *)
Lemma two_cards_schedule :
  create_payment_schedule two_cards (qc 200)
  = Some (Schedule
            (schedule_of (create_payment_schedule two_cards (qc 200)))
            (total_months_of (create_payment_schedule two_cards (qc 200)))
            (total_interest_paid_of (create_payment_schedule two_cards (qc 200)))
            (total_amount_paid_of (create_payment_schedule two_cards (qc 200)))).
Proof. vm_compute. reflexivity. Qed.

(** *** The sort *)

Lemma insert_by_sorted {A : Type} (key : A -> Qc) (x : A) (l : list A) :
  StronglySorted (fun a b => key a <= key b) l ->
  StronglySorted (fun a b => key a <= key b) (insert_by key x l).
Proof.
  induction 1 as [|y l Hs IH Hy]; cbn [insert_by]; [repeat constructor|].
  destruct (Qc_ltb_cases (key y) (key x)) as [[-> Hlt]|[-> Hge]].
  - constructor; [exact IH|].
    apply Forall_forall. intros z Hz.
    apply (Permutation_in _ (insert_by_Permutation key x l)) in Hz.
    destruct Hz as [<-|Hz]; [now apply Qclt_le_weak|].
    rewrite Forall_forall in Hy. now apply Hy.
  - constructor; [now constructor|].
    constructor; [exact Hge|].
    eapply Forall_impl; [|exact Hy]. cbn. intros z Hz.
    now apply Qcle_trans with (key y).
Qed.

(** [sorted] puts the keys in ascending order. *)
Lemma sorted_sorted {A : Type} (key : A -> Qc) (l : list A) :
  StronglySorted (fun a b => key a <= key b) (sorted key l).
Proof.
  induction l as [|x l IH]; cbn; [constructor|]. now apply insert_by_sorted.
Qed.

Lemma insert_by_stable {A : Type} (key : A -> Qc) (b : Qc) (x : A) (l : list A) :
  filter (fun c => Qc_eq_bool (key c) b) (insert_by key x l)
  = filter (fun c => Qc_eq_bool (key c) b) (x :: l).
Proof.
  induction l as [|y l IH]; [reflexivity|]. cbn [insert_by].
  destruct (Qc_ltb_cases (key y) (key x)) as [[-> Hlt]|[-> Hge]]; [|reflexivity].
  cbn [filter] in *. rewrite IH.
  destruct (Qc_eq_bool (key x) b) eqn:Hx; destruct (Qc_eq_bool (key y) b) eqn:Hy;
    try reflexivity.
  apply Qc_eq_bool_correct in Hx, Hy. rewrite Hx, Hy in Hlt.
  now apply Qclt_not_eq in Hlt.
Qed.

(** [sorted] is stable: the elements of any one key keep the order they have
    in the list. *)
Lemma sorted_stable {A : Type} (key : A -> Qc) (b : Qc) (l : list A) :
  filter (fun c => Qc_eq_bool (key c) b) (sorted key l)
  = filter (fun c => Qc_eq_bool (key c) b) l.
Proof.
  induction l as [|x l IH]; [reflexivity|]. cbn [sorted fold_right].
  rewrite insert_by_stable. cbn [filter]. fold (sorted key l). now rewrite IH.
Qed.


(** C1.  For any numbers: in every month of a returned schedule the working
    list is not empty and is the sorted list of cards with cards removed, in
    the same order; the records are in the order of the working list; the
    records of all cards but the first are their minimum-payment records; the
    record of the first card is its minimum-payment record, or that record
    with the one extra payment of the month added.  In exact arithmetic: the
    sorted list holds the cards with a balance in ascending order of balance,
    cards of equal balance in the order of the input, and so does what is
    left of it when cards are removed; an extra payment is above zero and
    not above the extra budget.  The first card gets the extra payment also
    when a later card owes less by then, as for the two cards of [overtaken]
    in their second month. *)
Theorem snowball_target :
  (forall (num : Type) (N : Num num) (cards : list (CreditCard num)) (budget : num)
          (s : list (month_data num)) (n : nat) (ti ta : num),
     create_payment_schedule cards budget = Some (Schedule s n ti ta) ->
     forall (k : nat) (md : month_data num),
       nth_error s k = Some md ->
       exists (active : list (CreditCard num)) (target_card : card_dict num)
              (rest : list (card_dict num)) (r : payment_record num),
         remaining_after (extra_payment_of cards budget) k (initial_remaining cards)
         = target_card :: rest /\
         subsequence active (cards_sorted cards) /\
         map static (target_card :: rest)
         = map (fun c => static (card_dict_of c)) active /\
         m_payments md = r :: map minimum_record rest /\
         map (@p_card num) (m_payments md) = map (@c_name num) (target_card :: rest) /\
         (r = minimum_record target_card \/
          exists extra_applied : num,
            extra_for (extra_payment_of cards budget) target_card = Some extra_applied /\
            r = add_extra (minimum_record target_card) extra_applied
                  (sub (c_balance (after_minimum target_card)) extra_applied))) /\
  (forall cards : list (CreditCard Qc),
     Permutation (cards_sorted cards) (cards_with_balance cards) /\
     StronglySorted (fun a b => balance a <= balance b) (cards_sorted cards) /\
     (forall b : Qc,
        filter (fun c => Qc_eq_bool (balance c) b) (cards_sorted cards)
        = filter (fun c => Qc_eq_bool (balance c) b) (cards_with_balance cards)) /\
     (forall active : list (CreditCard Qc),
        subsequence active (cards_sorted cards) ->
        StronglySorted (fun a b => balance a <= balance b) active)) /\
  (forall (extra_payment : Qc) (target_card : card_dict Qc) (extra_applied : Qc),
     extra_for extra_payment target_card = Some extra_applied ->
     0 < extra_applied /\ extra_applied <= extra_payment /\
     extra_applied <= c_balance (after_minimum target_card)) /\
  (exists (a b : card_dict Qc) (ra rb : payment_record Qc) (md : month_data Qc),
     remaining_after (extra_payment_of overtaken (qc 52)) 1 (initial_remaining overtaken)
     = [a; b] /\
     c_name a = "A"%string /\ c_name b = "B"%string /\
     c_balance b < c_balance a /\
     nth_error (schedule_of (create_payment_schedule overtaken (qc 52))) 1 = Some md /\
     m_payments md = [ra; rb] /\
     p_payment (minimum_record a) < p_payment ra /\
     rb = minimum_record b).
Proof.
  repeat apply conj.
  - intros num N cards budget s n ti ta Hrun k md Hk.
    apply create_payment_schedule_schedule in Hrun as (_ & Hp & _).
    destruct (payoff_nth Hp _ Hk) as (Hne & ->).
    pose proof (remaining_after_subsequence (extra_payment_of cards budget) k
                  (initial_remaining cards)) as Hsub.
    destruct (remaining_after (extra_payment_of cards budget) k (initial_remaining cards))
      as [|target_card rest]; [congruence|]. clear Hne.
    unfold initial_remaining in Hsub at 1. rewrite map_map in Hsub.
    apply subsequence_map_inv in Hsub as (active & Hact & Hstatic).
    rewrite period_eq. cbn [fst m_payments period_payments].
    assert (Hnames : forall l : list (card_dict num),
               map (@p_card num) (map minimum_record l) = map (@c_name num) l).
    { intros l. rewrite map_map. apply map_ext. intros c. apply minimum_record_card. }
    destruct (extra_for (extra_payment_of cards budget) target_card) as [e|] eqn:He.
    + exists active, target_card, rest,
        (add_extra (minimum_record target_card) e
           (sub (c_balance (after_minimum target_card)) e)).
      repeat split; auto.
      * cbn [map add_extra p_card]. now rewrite Hnames, minimum_record_card.
      * right. exists e. auto.
    + exists active, target_card, rest, (minimum_record target_card).
      repeat split; auto; apply (Hnames (target_card :: rest)).
  - intros cards. repeat apply conj.
    + apply sorted_Permutation.
    + apply sorted_sorted.
    + intros b. apply sorted_stable.
    + intros active Hact.
      eapply subsequence_sorted; [exact Hact|apply sorted_sorted].
  - intros extra_payment target_card e He.
    apply extra_for_exact in He as (H0 & Hle & Hb & _). auto.
  - do 5 eexists.
    split; [vm_compute; reflexivity|].
    split; [reflexivity|]. split; [reflexivity|].
    split; [vm_compute; reflexivity|].
    split; [vm_compute; reflexivity|].
    split; [reflexivity|].
    split; vm_compute; reflexivity.
Qed.

(** The first month of the schedule of the two cards: the card of 500 is the
    first of the working list. *)
Lemma snowball_target_witness :
  match schedule_of (create_payment_schedule two_cards (qc 200)) with
  | md :: _ =>
      exists (target_card : card_dict Qc) (rest : list (card_dict Qc))
             (r : payment_record Qc),
        initial_remaining two_cards = target_card :: rest /\
        m_payments md = r :: map minimum_record rest
  | [] => False
  end.
Proof.
  pose proof (proj1 snowball_target Qc Qc_Num two_cards (qc 200) _ _ _ _
                two_cards_schedule O) as Hmonth.
  destruct (schedule_of (create_payment_schedule two_cards (qc 200))) as [|md later]
    eqn:Hs.
  - vm_compute in Hs. discriminate.
  - destruct (Hmonth md eq_refl) as (_ & target_card & rest & r & Hw & _ & _ & Hpay & _).
    exists target_card, rest, r. split; [exact Hw|exact Hpay].
Defined.

(** The exact rationals keep the laws. *)
Lemma Qc_laws : NumLaws Qc.
Proof.
  split; cbn [ltb Qc_Num].
  - intros a b Hab. apply Qc_ltb_lt in Hab. apply Qc_ltb_ge. now apply Qclt_le_weak.
  - intros a b c Hac _. apply Qc_ltb_lt in Hac.
    destruct (Qc_ltb a b) eqn:E; [now left|right].
    apply Qc_ltb_ge in E. apply Qc_ltb_lt. now apply Qcle_lt_trans with a.
  - intros b p _ Hp. apply Qc_ltb_ge in Hp. apply Qc_ltb_ge. qc_lra.
  - intros b p _ _ Hp. apply Qc_ltb_ge in Hp. apply Qc_ltb_ge. qc_lra.
  - intros a b Hab. apply Qc_ltb_lt in Hab. apply Qc_ltb_lt. qc_lra.
  - intros b _. qc_lra.
Qed.
End Exact.

#[export] Instance Qc_NumLaws : NumLaws Qc := Qc_laws.

(** ** Binary64: the order and the subtraction of [float] *)

Section Binary64.

Local Open Scope Z_scope.

(** *** Digits *)

Lemma digits2_pos_size (p : positive) : digits2_pos p = Pos.size p.
Proof. induction p as [p IH|p IH|]; cbn; congruence. Qed.

Lemma Zdigits2_log2 (m : Z) : 0 < m -> Zdigits2 m = Z.log2 m + 1.
Proof.
  destruct m as [|p|p]; try lia. intros _. cbn [Zdigits2]. rewrite digits2_pos_size.
  destruct p as [p|p|]; cbn; lia.
Qed.

Lemma Zdigits2_nonneg (m : Z) : 0 <= Zdigits2 m.
Proof. destruct m; cbn; lia. Qed.

Lemma Zdigits2_pos (m : Z) : 0 < m -> 0 < Zdigits2 m.
Proof. destruct m; cbn; lia. Qed.

Lemma Zdigits2_bounds (m : Z) : 0 < m -> 2 ^ (Zdigits2 m - 1) <= m < 2 ^ Zdigits2 m.
Proof.
  intros Hm. rewrite (Zdigits2_log2 Hm).
  replace (Z.log2 m + 1 - 1) with (Z.log2 m) by lia.
  apply (Z.log2_spec m Hm).
Qed.

Lemma Zdigits2_le (m m' : Z) : 0 <= m <= m' -> Zdigits2 m <= Zdigits2 m'.
Proof.
  intros [Hm Hle]. destruct (Z.eq_dec m 0) as [->|Hne]; [apply Zdigits2_nonneg|].
  rewrite !Zdigits2_log2 by lia. pose proof (Z.log2_le_mono m m' Hle). lia.
Qed.

Lemma Zdigits2_shift (m k : Z) : 0 < m -> 0 <= k -> Zdigits2 (m * 2 ^ k) = Zdigits2 m + k.
Proof.
  intros Hm Hk. assert (0 < 2 ^ k) by (apply Z.pow_pos_nonneg; lia).
  rewrite !Zdigits2_log2 by nia. rewrite Z.log2_mul_pow2 by lia. lia.
Qed.

(** *** Shifts *)

Lemma shr_1_m (mrs : shr_record) : 0 <= shr_m mrs -> shr_m (shr_1 mrs) = shr_m mrs / 2.
Proof.
  destruct mrs as [m r s]. cbn [shr_m]. intros Hm.
  destruct m as [|[p|p|]|p]; cbn [shr_1 shr_m]; try lia; try reflexivity.
  - apply Z.div_unique with 1; lia.
  - apply Z.div_unique with 0; lia.
Qed.

Lemma iter_shr_m (p : positive) :
  forall mrs : shr_record,
    0 <= shr_m mrs ->
    shr_m (iter_pos shr_1 p mrs) = shr_m mrs / 2 ^ Zpos p.
Proof.
  assert (Hnn : forall mrs, 0 <= shr_m mrs -> 0 <= shr_m (shr_1 mrs)).
  { intros mrs Hm. rewrite shr_1_m by exact Hm. apply Z.div_pos; lia. }
  induction p as [p IH|p IH|]; intros mrs Hm; cbn [iter_pos].
  - assert (H1 := Hnn _ Hm).
    assert (H2 : 0 <= shr_m (iter_pos shr_1 p (shr_1 mrs)))
      by (rewrite IH by exact H1; apply Z.div_pos; lia).
    rewrite IH by exact H2. rewrite IH by exact H1. rewrite shr_1_m by exact Hm.
    assert (Hpow : 2 ^ Z.pos p~1 = 2 * (2 ^ Z.pos p * 2 ^ Z.pos p)).
    { rewrite <- Z.pow_add_r by lia. rewrite <- (Z.pow_1_r 2) at 2.
      rewrite <- Z.pow_add_r by lia. f_equal. lia. }
    assert (0 < 2 ^ Z.pos p) by (apply Z.pow_pos_nonneg; lia).
    rewrite Hpow, !Z.div_div by lia. f_equal; ring.
  - assert (H2 : 0 <= shr_m (iter_pos shr_1 p mrs))
      by (rewrite IH by exact Hm; apply Z.div_pos; lia).
    rewrite IH by exact H2. rewrite IH by exact Hm.
    assert (Hpow : 2 ^ Z.pos p~0 = 2 ^ Z.pos p * 2 ^ Z.pos p).
    { rewrite <- Z.pow_add_r by lia. f_equal. lia. }
    assert (0 < 2 ^ Z.pos p) by (apply Z.pow_pos_nonneg; lia).
    rewrite Hpow, !Z.div_div by lia. reflexivity.
  - rewrite shr_1_m by exact Hm. now rewrite Z.pow_1_r.
Qed.

Lemma shr_record_of_loc_m (m : Z) (l : location) : shr_m (shr_record_of_loc m l) = m.
Proof. destruct l as [|[]]; reflexivity. Qed.

(** [shr_fexp] brings the exponent up to that of the format and divides
    the mantissa accordingly. *)
Lemma shr_fexp_spec (m e : Z) (l : location) :
  0 <= m ->
  let e' := Z.max e (fexp prec emax (Zdigits2 m + e)) in
  snd (shr_fexp prec emax m e l) = e' /\
  shr_m (fst (shr_fexp prec emax m e l)) = m / 2 ^ (e' - e).
Proof.
  intros Hm e'. unfold shr_fexp, shr.
  destruct (fexp prec emax (Zdigits2 m + e) - e) as [|p|p] eqn:En; cbn [fst snd].
  - assert (e' = e) by (unfold e'; lia).
    rewrite shr_record_of_loc_m. replace (e' - e) with 0 by lia.
    rewrite Z.pow_0_r, Z.div_1_r. auto.
  - assert (e' = e + Zpos p) by (unfold e'; lia).
    rewrite iter_shr_m by (rewrite shr_record_of_loc_m; exact Hm).
    rewrite shr_record_of_loc_m. replace (e' - e) with (Zpos p) by lia. auto.
  - assert (e' = e) by (unfold e'; lia).
    rewrite shr_record_of_loc_m. replace (e' - e) with 0 by lia.
    rewrite Z.pow_0_r, Z.div_1_r. auto.
Qed.

Lemma round_nearest_even_bounds (mx : Z) (lx : location) :
  mx <= round_nearest_even mx lx <= mx + 1.
Proof.
  destruct lx as [|[]]; cbn [round_nearest_even]; try lia.
  destruct (Z.even mx); lia.
Qed.

(** The result of a rounding, by the mantissas and exponents of its two
    shifts. *)
Definition rounded (sx : bool) (m2 e2 : Z) : spec_float :=
  match m2 with
  | Z0 => S754_zero sx
  | Zpos m => if e2 <=? emax - prec then S754_finite sx m e2 else S754_infinity sx
  | Zneg _ => S754_nan
  end.

Lemma binary_round_aux_spec (sx : bool) (mx ex : Z) (lx : location) :
  0 <= mx ->
  exists m1 : Z,
    let e1 := Z.max ex (fexp prec emax (Zdigits2 mx + ex)) in
    let e2 := Z.max e1 (fexp prec emax (Zdigits2 m1 + e1)) in
    mx / 2 ^ (e1 - ex) <= m1 <= mx / 2 ^ (e1 - ex) + 1 /\
    binary_round_aux prec emax sx mx ex lx = rounded sx (m1 / 2 ^ (e2 - e1)) e2.
Proof.
  intros Hm. unfold binary_round_aux.
  destruct (@shr_fexp_spec mx ex lx Hm) as [He1 Hm1].
  destruct (shr_fexp prec emax mx ex lx) as [mrs' e'] eqn:E1. cbn [fst snd] in He1, Hm1.
  rewrite <- He1 in Hm1.
  set (m1 := round_nearest_even (shr_m mrs') (loc_of_shr_record mrs')).
  assert (Hb := round_nearest_even_bounds (shr_m mrs') (loc_of_shr_record mrs')).
  fold m1 in Hb.
  assert (Hm1' : 0 <= m1).
  { rewrite Hm1 in Hb. assert (0 <= mx / 2 ^ (e' - ex)); [|lia].
    apply Z.div_pos; [exact Hm|]. apply Z.pow_pos_nonneg; lia. }
  destruct (@shr_fexp_spec m1 e' loc_Exact Hm1') as [He2 Hm2].
  destruct (shr_fexp prec emax m1 e' loc_Exact) as [mrs'' e''] eqn:E2.
  cbn [fst snd] in He2, Hm2. rewrite <- He2 in Hm2.
  exists m1. cbv zeta. rewrite <- He1, <- He2, <- Hm2, <- Hm1.
  split; [exact Hb|]. unfold rounded. reflexivity.
Qed.

(** Aligning a mantissa to a smaller exponent. *)
Lemma shl_align_spec (mx : positive) (ex ex' : Z) :
  snd (shl_align mx ex ex') = Z.min ex ex' /\
  Zpos (fst (shl_align mx ex ex')) = Zpos mx * 2 ^ (ex - Z.min ex ex').
Proof.
  unfold shl_align. destruct (ex' - ex) as [|d|d] eqn:Ed; cbn [fst snd].
  - replace (Z.min ex ex') with ex by lia. rewrite Z.sub_diag. cbn. lia.
  - replace (Z.min ex ex') with ex by lia. rewrite Z.sub_diag. cbn. lia.
  - replace (Z.min ex ex') with ex' by lia. split; [reflexivity|].
    change (Pos.iter xO mx d) with (shift_pos d mx). rewrite shift_pos_correct.
    replace (ex - ex') with (Zpos d) by lia. rewrite Z.mul_comm. reflexivity.
Qed.


(** *** The format *)

Lemma fexp_eq (e : Z) : fexp prec emax e = Z.max (e - 53) (-1074).
Proof. reflexivity. Qed.

Lemma bounded_spec (m : positive) (e : Z) :
  bounded prec emax m e = true ->
  e = Z.max (Zdigits2 (Zpos m) + e - 53) (-1074) /\ e <= 971.
Proof.
  unfold bounded, canonical_mantissa. intros Hb.
  apply andb_true_iff in Hb as [Hc He]. apply Z.eqb_eq in Hc. apply Z.leb_le in He.
  rewrite fexp_eq in Hc. cbn [Zdigits2]. change (emax - prec) with 971 in He. lia.
Qed.

Lemma pow2_pos (k : Z) : 0 <= k -> 0 < 2 ^ k.
Proof. intros Hk. apply Z.pow_pos_nonneg; lia. Qed.

Lemma pow2_split (a b : Z) : 0 <= a -> 0 <= b -> 2 ^ (a + b) = 2 ^ a * 2 ^ b.
Proof. intros Ha Hb. now rewrite Z.pow_add_r. Qed.

Lemma pow2_le (a b : Z) : 0 <= a <= b -> 2 ^ a <= 2 ^ b.
Proof. intros H. apply Z.pow_le_mono_r; lia. Qed.

(** The rounding of [M * 2 ^ ez], for a positive [M]. *)
Lemma binary_round_spec (sx : bool) (M : positive) (ez : Z) :
  exists m1 : Z,
    let E0 := fexp prec emax (Zdigits2 (Zpos M) + ez) in
    let e0 := Z.min ez E0 in
    let q := (Zpos M * 2 ^ (ez - e0)) / 2 ^ (E0 - e0) in
    let e2 := Z.max E0 (fexp prec emax (Zdigits2 m1 + E0)) in
    q <= m1 <= q + 1 /\
    binary_round prec emax sx M ez = rounded sx (m1 / 2 ^ (e2 - E0)) e2.
Proof.
  unfold binary_round.
  set (E0 := fexp prec emax (Z.pos (digits2_pos M) + ez)).
  destruct (shl_align_spec M ez E0) as [He0 Hmz].
  destruct (shl_align M ez E0) as [mz e0] eqn:Es. cbn [fst snd] in He0, Hmz.
  destruct (@binary_round_aux_spec sx (Zpos mz) e0 loc_Exact ltac:(lia)) as (m1 & Hb & Hr).
  cbv zeta in Hb, Hr.
  assert (Hd : Zdigits2 (Zpos mz) + e0 = Zdigits2 (Zpos M) + ez).
  { rewrite Hmz, Zdigits2_shift by lia. lia. }
  rewrite Hd in Hb, Hr. change (Zdigits2 (Z.pos M)) with (Z.pos (digits2_pos M)) in Hb, Hr.
  fold E0 in Hb, Hr.
  assert (Hmax : Z.max e0 E0 = E0) by lia. rewrite Hmax in Hb, Hr.
  exists m1. cbv zeta. change (Zdigits2 (Z.pos M)) with (Z.pos (digits2_pos M)).
  fold E0. rewrite <- Hmz, <- He0. split; [exact Hb|exact Hr].
Qed.

(** A rounding keeps the sign. *)
Lemma binary_round_sign (sx : bool) (M : positive) (ez : Z) :
  match binary_round prec emax sx M ez with
  | S754_zero s | S754_infinity s | S754_finite s _ _ => s = sx
  | S754_nan => True
  end.
Proof.
  destruct (binary_round_spec sx M ez) as (m1 & _ & ->). unfold rounded.
  destruct (m1 / _); [reflexivity| |exact I]. now destruct (_ <=? _).
Qed.

(** The rounding of a number that is not below the least exponent is not
    zero. *)
Lemma binary_round_nonzero (sx : bool) (M : positive) (ez : Z) :
  -1074 <= ez ->
  match binary_round prec emax sx M ez with
  | S754_infinity s | S754_finite s _ _ => s = sx
  | _ => False
  end.
Proof.
  intros Hez. destruct (binary_round_spec sx M ez) as (m1 & Hb & ->).
  cbv zeta in Hb. revert Hb. rewrite !fexp_eq.
  set (d := Zdigits2 (Zpos M)). set (E0 := Z.max (d + ez - 53) (-1074)).
  assert (Hd := @Zdigits2_bounds (Zpos M) ltac:(lia)). fold d in Hd.
  assert (Hdp : 0 < d) by (apply Zdigits2_pos; lia).
  intros Hb.
  assert (Hq : 1 <= Z.pos M * 2 ^ (ez - Z.min ez E0) / 2 ^ (E0 - Z.min ez E0)).
  { destruct (Z.le_gt_cases E0 ez) as [Hle|Hgt].
    - replace (Z.min ez E0) with E0 by lia. rewrite Z.sub_diag, Z.pow_0_r, Z.div_1_r.
      assert (0 < 2 ^ (ez - E0)) by (apply pow2_pos; lia). nia.
    - replace (Z.min ez E0) with ez by lia. rewrite Z.sub_diag, Z.pow_0_r, Z.mul_1_r.
      apply Z.div_le_lower_bound; [apply pow2_pos; lia|]. rewrite Z.mul_1_r.
      assert (2 ^ (E0 - ez) <= 2 ^ (d - 1)) by (apply pow2_le; lia). lia. }
  assert (Hm1 : 1 <= m1) by lia.
  assert (HD := @Zdigits2_bounds m1 ltac:(lia)).
  assert (HDp : 0 < Zdigits2 m1) by (apply Zdigits2_pos; lia).
  set (D := Zdigits2 m1) in *. set (e2 := Z.max E0 (Z.max (D + E0 - 53) (-1074))).
  assert (Hm2 : 1 <= m1 / 2 ^ (e2 - E0)).
  { apply Z.div_le_lower_bound; [apply pow2_pos; lia|]. rewrite Z.mul_1_r.
    assert (2 ^ (e2 - E0) <= 2 ^ (D - 1)) by (apply pow2_le; lia). lia. }
  unfold rounded. destruct (m1 / 2 ^ (e2 - E0)); try lia. now destruct (_ <=? _).
Qed.

(** The order of two numbers of the format is that of their mantissas at a
    common exponent. *)
Lemma compare_aligned (m1 : positive) (e1 : Z) (m2 : positive) (e2 : Z) :
  bounded prec emax m1 e1 = true -> bounded prec emax m2 e2 = true ->
  match e1 ?= e2 with
  | Lt => Lt
  | Gt => Gt
  | Eq => Pos.compare_cont Eq m1 m2
  end
  = (Zpos m1 * 2 ^ (e1 - Z.min e1 e2) ?= Zpos m2 * 2 ^ (e2 - Z.min e1 e2)).
Proof.
  intros H1 H2. apply bounded_spec in H1 as [H1 _], H2 as [H2 _].
  assert (Hd1 := @Zdigits2_bounds (Zpos m1) ltac:(lia)).
  assert (Hd2 := @Zdigits2_bounds (Zpos m2) ltac:(lia)).
  assert (Hp1 : 0 < Zdigits2 (Zpos m1)) by (apply Zdigits2_pos; lia).
  assert (Hp2 : 0 < Zdigits2 (Zpos m2)) by (apply Zdigits2_pos; lia).
  set (d1 := Zdigits2 (Zpos m1)) in *. set (d2 := Zdigits2 (Zpos m2)) in *.
  destruct (Z.compare_spec e1 e2) as [Heq|Hlt|Hgt].
  - subst e2. rewrite Z.min_id, Z.sub_diag, Z.pow_0_r, !Z.mul_1_r. reflexivity.
  - replace (Z.min e1 e2) with e1 by lia. rewrite Z.sub_diag, Z.pow_0_r, Z.mul_1_r.
    symmetry. apply Z.compare_lt_iff.
    assert (Z.pos m1 < 2 ^ 53) by (assert (2 ^ d1 <= 2 ^ 53) by (apply pow2_le; lia); lia).
    assert (d2 = 53) by lia.
    assert (2 ^ 52 <= Z.pos m2) by (replace 52 with (d2 - 1) by lia; lia).
    assert (2 ^ 1 <= 2 ^ (e2 - e1)) by (apply pow2_le; lia).
    change (2 ^ 53) with (2 ^ 52 * 2 ^ 1) in *. nia.
  - replace (Z.min e1 e2) with e2 by lia. rewrite Z.sub_diag, Z.pow_0_r, Z.mul_1_r.
    symmetry. apply Z.compare_gt_iff.
    assert (Z.pos m2 < 2 ^ 53) by (assert (2 ^ d2 <= 2 ^ 53) by (apply pow2_le; lia); lia).
    assert (d1 = 53) by lia.
    assert (2 ^ 52 <= Z.pos m1) by (replace 52 with (d1 - 1) by lia; lia).
    assert (2 ^ 1 <= 2 ^ (e1 - e2)) by (apply pow2_le; lia).
    change (2 ^ 53) with (2 ^ 52 * 2 ^ 1) in *. nia.
Qed.


(** The rounding of a number below a number of the format is not above
    it. *)
Lemma round_below (mb : positive) (eb : Z) (M : positive) (ez : Z) :
  bounded prec emax mb eb = true ->
  ez <= eb ->
  Zpos M < Zpos mb * 2 ^ (eb - ez) ->
  SFltb (S754_finite false mb eb) (binary_round prec emax false M ez) = false.
Proof.
  intros Hb Hez HM. apply bounded_spec in Hb as [Hc Hmax].
  destruct (binary_round_spec false M ez) as (m1 & Hq & ->).
  cbv zeta in Hq. revert Hq. rewrite !fexp_eq.
  assert (Hdp : 0 < Zdigits2 (Zpos M)) by (apply Zdigits2_pos; lia).
  assert (Hdbp : 0 < Zdigits2 (Zpos mb)) by (apply Zdigits2_pos; lia).
  assert (Hdd : Zdigits2 (Zpos M) + ez <= Zdigits2 (Zpos mb) + eb).
  { assert (Zdigits2 (Zpos M) <= Zdigits2 (Zpos mb * 2 ^ (eb - ez)))
      by (apply Zdigits2_le; lia).
    rewrite Zdigits2_shift in H by lia. lia. }
  set (d := Zdigits2 (Zpos M)) in *. set (db := Zdigits2 (Zpos mb)) in *.
  set (E0 := Z.max (d + ez - 53) (-1074)).
  assert (HE0 : E0 <= eb) by lia.
  set (e0 := Z.min ez E0). intros Hq.
  set (B := Zpos mb * 2 ^ (eb - E0)).
  assert (HB : 0 < B) by (assert (0 < 2 ^ (eb - E0)) by (apply pow2_pos; lia); nia).
  assert (Hlt : Z.pos M * 2 ^ (ez - e0) / 2 ^ (E0 - e0) < B).
  { apply Z.div_lt_upper_bound; [apply pow2_pos; lia|].
    assert (H1 : 2 ^ (E0 - e0) * B = Zpos mb * 2 ^ (eb - e0)).
    { unfold B. replace (eb - e0) with ((E0 - e0) + (eb - E0)) by lia.
      rewrite pow2_split by lia. ring. }
    assert (H2 : 2 ^ (eb - e0) = 2 ^ (eb - ez) * 2 ^ (ez - e0)).
    { replace (eb - e0) with ((eb - ez) + (ez - e0)) by lia. apply pow2_split; lia. }
    rewrite H1, H2. assert (0 < 2 ^ (ez - e0)) by (apply pow2_pos; lia). nia. }
  assert (Hq0 : 0 <= Z.pos M * 2 ^ (ez - e0) / 2 ^ (E0 - e0)).
  { apply Z.div_pos; [|apply pow2_pos; lia].
    assert (0 < 2 ^ (ez - e0)) by (apply pow2_pos; lia). nia. }
  assert (Hm1 : 0 <= m1 <= B) by lia.
  assert (HD : Zdigits2 m1 <= db + eb - E0).
  { assert (Zdigits2 m1 <= Zdigits2 B) by (apply Zdigits2_le; lia).
    unfold B in H. rewrite Zdigits2_shift in H by lia.
    change (Zdigits2 (Z.pos mb)) with db in H. lia. }
  assert (HD0 := Zdigits2_nonneg m1).
  set (D := Zdigits2 m1) in *.
  set (e2 := Z.max E0 (Z.max (D + E0 - 53) (-1074))).
  assert (He2 : E0 <= e2 <= eb) by lia.
  unfold rounded. destruct (m1 / 2 ^ (e2 - E0)) as [|m|m] eqn:Em2; try reflexivity.
  replace (e2 <=? emax - prec) with true
    by (symmetry; apply Z.leb_le; change (emax - prec) with 971; lia).
  unfold SFltb, SFcompare.
  destruct (Z.compare_spec eb e2) as [Heq|Hlt2|Hgt]; [|lia|reflexivity].
  change (Pos.compare_cont Eq mb m) with (Pos.compare mb m).
  destruct (Pos.compare_spec mb m) as [_|Hlt'|_]; try reflexivity. exfalso.
  assert (Hle : m1 / 2 ^ (e2 - E0) <= B / 2 ^ (e2 - E0))
    by (apply Z.div_le_mono; [apply pow2_pos|]; lia).
  rewrite Em2 in Hle. unfold B in Hle. rewrite <- Heq, Z.div_mul in Hle
    by (assert (0 < 2 ^ (eb - E0)) by (apply pow2_pos; lia); lia).
  lia.
Qed.

(** *** The order of [spec_float] *)

Ltac compare_cases :=
  repeat match goal with
         | H : context [Pos.compare_cont Eq ?a ?b] |- _ =>
             change (Pos.compare_cont Eq a b) with (Pos.compare a b) in H
         | |- context [Pos.compare_cont Eq ?a ?b] =>
             change (Pos.compare_cont Eq a b) with (Pos.compare a b)
         end;
  repeat match goal with
         | H : context [Z.compare ?a ?b] |- _ => destruct (Z.compare_spec a b)
         | |- context [Z.compare ?a ?b] => destruct (Z.compare_spec a b)
         | H : context [Pos.compare ?a ?b] |- _ => destruct (Pos.compare_spec a b)
         | |- context [Pos.compare ?a ?b] => destruct (Pos.compare_spec a b)
         end;
  cbn [CompOpp] in *; try discriminate; try reflexivity; try lia; auto.

Lemma SFltb_asym (x y : spec_float) : SFltb x y = true -> SFltb y x = false.
Proof.
  unfold SFltb, SFcompare.
  destruct x as [[]|[]| |[] m1 e1], y as [[]|[]| |[] m2 e2];
    try discriminate; try reflexivity; compare_cases.
Qed.

Lemma SFltb_irrefl (x : spec_float) : SFltb x x = false.
Proof.
  destruct (SFltb x x) eqn:E; [|reflexivity]. now rewrite (SFltb_asym _ _ E) in E.
Qed.

(** A number above zero lies on one side of every two numbers in order. *)
Lemma SFltb_between (x y z : spec_float) :
  SFltb x z = true -> SFltb (S754_zero false) y = true ->
  SFltb x y = true \/ SFltb y z = true.
Proof.
  unfold SFltb, SFcompare.
  destruct y as [[]|[]| |[] m2 e2]; try discriminate; intros Hxz _;
    destruct x as [[]|[]| |[] m1 e1], z as [[]|[]| |[] m3 e3];
    try discriminate; auto; compare_cases.
Qed.

(** *** Subtraction *)

Abbreviation SFzero := (S754_zero false).

Lemma aligned_spec (mx : positive) (ex ey : Z) :
  Zpos (fst (shl_align mx ex (Z.min ex ey))) = Zpos mx * 2 ^ (ex - Z.min ex ey).
Proof.
  destruct (shl_align_spec mx ex (Z.min ex ey)) as [_ ->].
  now replace (Z.min ex (Z.min ex ey)) with (Z.min ex ey) by lia.
Qed.

Lemma aligned_spec_r (my : positive) (ex ey : Z) :
  Zpos (fst (shl_align my ey (Z.min ex ey))) = Zpos my * 2 ^ (ey - Z.min ex ey).
Proof.
  destruct (shl_align_spec my ey (Z.min ex ey)) as [_ ->].
  now replace (Z.min ey (Z.min ex ey)) with (Z.min ex ey) by lia.
Qed.

(** Taking an amount that is not below zero from a number above zero does
    not give more. *)
Lemma SFsub_not_above (b p : spec_float) :
  valid_binary b = true -> valid_binary p = true ->
  SFltb SFzero b = true -> SFltb p SFzero = false ->
  SFltb b (SF64sub b p) = false.
Proof.
  intros Hvb Hvp Hb Hp.
  destruct b as [[]|[]| |[] mb eb]; try discriminate Hb.
  - destruct p as [[]|[]| |[] mp ep]; reflexivity.
  - destruct p as [sp|[]| |[] mp ep]; try discriminate Hp; try reflexivity.
    + apply SFltb_irrefl.
    + cbn [valid_binary] in Hvb, Hvp. unfold SF64sub, SFsub. cbv zeta.
      rewrite aligned_spec, aligned_spec_r. cbn [cond_Zopp].
      set (ez := Z.min eb ep).
      assert (Hmp : 0 < Zpos mp * 2 ^ (ep - ez))
        by (assert (0 < 2 ^ (ep - ez)) by (apply pow2_pos; lia); nia).
      destruct (Z.pos mb * 2 ^ (eb - ez) - Z.pos mp * 2 ^ (ep - ez)) as [|M|M] eqn:EM;
        cbn [binary_normalize].
      * reflexivity.
      * apply round_below; [exact Hvb|lia|lia].
      * pose proof (binary_round_sign true M ez) as Hs.
        destruct (binary_round prec emax true M ez) as [s|s| |s m e];
          try subst s; reflexivity.
Qed.

(** Taking from a number above zero an amount above zero that is not
    above it does not give less than zero. *)
Lemma SFsub_not_below_zero (b p : spec_float) :
  valid_binary b = true -> valid_binary p = true ->
  SFltb SFzero b = true -> SFltb SFzero p = true -> SFltb b p = false ->
  SFltb (SF64sub b p) SFzero = false.
Proof.
  intros Hvb Hvp Hb Hp Hbp.
  destruct b as [[]|[]| |[] mb eb]; try discriminate Hb;
    destruct p as [[]|[]| |[] mp ep]; try discriminate Hp; try discriminate Hbp;
    try reflexivity.
  cbn [valid_binary] in Hvb, Hvp. unfold SF64sub, SFsub. cbv zeta.
  rewrite aligned_spec, aligned_spec_r. cbn [cond_Zopp].
  unfold SFltb, SFcompare in Hbp. rewrite (compare_aligned _ _ _ _ Hvb Hvp) in Hbp.
  set (ez := Z.min eb ep) in *.
  destruct (Z.compare_spec (Z.pos mb * 2 ^ (eb - ez)) (Z.pos mp * 2 ^ (ep - ez)))
    as [Heq|Hlt|Hgt]; try discriminate Hbp.
  - rewrite Heq, Z.sub_diag. reflexivity.
  - destruct (Z.pos mb * 2 ^ (eb - ez) - Z.pos mp * 2 ^ (ep - ez)) as [|M|M] eqn:EM;
      try lia. cbn [binary_normalize].
    pose proof (binary_round_sign false M ez) as Hs.
    destruct (binary_round prec emax false M ez) as [s|s| |s m e];
      try subst s; reflexivity.
Qed.

(** The difference of a number and a greater one is below zero. *)
Lemma SFsub_below_zero (a b : spec_float) :
  valid_binary a = true -> valid_binary b = true ->
  SFltb a b = true -> SFltb (SF64sub a b) SFzero = true.
Proof.
  intros Hva Hvb Hab.
  destruct a as [[]|[]| |sa ma ea], b as [[]|[]| |sb mb eb];
    try discriminate Hab; try reflexivity;
    try (destruct sa; try discriminate Hab; reflexivity);
    try (destruct sb; try discriminate Hab; reflexivity).
  cbn [valid_binary] in Hva, Hvb. unfold SF64sub, SFsub. cbv zeta.
  rewrite aligned_spec, aligned_spec_r.
  pose proof (compare_aligned _ _ _ _ Hva Hvb) as Hc.
  destruct (bounded_spec _ _ Hva) as [Hea _]. destruct (bounded_spec _ _ Hvb) as [Heb _].
  set (ez := Z.min ea eb) in *.
  assert (Hez : -1074 <= ez) by lia.
  assert (Ha : 0 < Zpos ma * 2 ^ (ea - ez))
    by (assert (0 < 2 ^ (ea - ez)) by (apply pow2_pos; lia); nia).
  assert (Hb : 0 < Zpos mb * 2 ^ (eb - ez))
    by (assert (0 < 2 ^ (eb - ez)) by (apply pow2_pos; lia); nia).
  assert (Hneg : cond_Zopp sa (Z.pos ma * 2 ^ (ea - ez))
                 - cond_Zopp sb (Z.pos mb * 2 ^ (eb - ez)) < 0).
  { unfold SFltb, SFcompare in Hab.
    destruct sa, sb; cbn [cond_Zopp]; try discriminate Hab; try lia.
    - assert (Hgt : (Z.pos ma * 2 ^ (ea - ez) ?= Z.pos mb * 2 ^ (eb - ez)) = Gt).
      { rewrite <- Hc. destruct (ea ?= eb); try discriminate Hab; try reflexivity.
        destruct (Pos.compare_cont Eq ma mb); try discriminate Hab; reflexivity. }
      apply Z.compare_gt_iff in Hgt. lia.
    - assert (Hlt : (Z.pos ma * 2 ^ (ea - ez) ?= Z.pos mb * 2 ^ (eb - ez)) = Lt).
      { rewrite <- Hc. destruct (ea ?= eb); try discriminate Hab; try reflexivity.
        destruct (Pos.compare_cont Eq ma mb); try discriminate Hab; reflexivity. }
      rewrite Z.compare_lt_iff in Hlt. lia. }
  destruct (cond_Zopp sa (Z.pos ma * 2 ^ (ea - ez))
            - cond_Zopp sb (Z.pos mb * 2 ^ (eb - ez))) as [|M|M]; try lia.
  cbn [binary_normalize]. pose proof (binary_round_nonzero true M Hez) as Hs.
  destruct (binary_round prec emax true M ez) as [s|s| |s m e];
    try contradiction; subst s; reflexivity.
Qed.

Lemma SFsub_zero (b : spec_float) :
  SFltb SFzero b = true -> SF64sub b SFzero = b.
Proof. destruct b as [[]|[]| |[] mb eb]; try discriminate; reflexivity. Qed.

End Binary64.

(** The floats of the program keep the laws. *)
Lemma float_zero : Prim2SF (zero (num := float)) = S754_zero false.
Proof. reflexivity. Qed.

Lemma float_laws : NumLaws float.
Proof.
  split; cbn [ltb sub float_Num].
  - intros a b. rewrite !FloatAxioms.ltb_spec. apply SFltb_asym.
  - intros a b c. rewrite !FloatAxioms.ltb_spec, float_zero. apply SFltb_between.
  - intros b p. rewrite !FloatAxioms.ltb_spec, FloatAxioms.sub_spec, float_zero.
    apply SFsub_not_above; apply Prim2SF_valid.
  - intros b p. rewrite !FloatAxioms.ltb_spec, FloatAxioms.sub_spec, float_zero.
    apply SFsub_not_below_zero; apply Prim2SF_valid.
  - intros a b. rewrite !FloatAxioms.ltb_spec, FloatAxioms.sub_spec, float_zero.
    apply SFsub_below_zero; apply Prim2SF_valid.
  - intros b. rewrite FloatAxioms.ltb_spec, float_zero. intros Hb.
    apply Prim2SF_inj. rewrite FloatAxioms.sub_spec, float_zero. now apply SFsub_zero.
Qed.

#[export] Instance float_NumLaws : NumLaws float := float_laws.

(** ** Balances, for any numbers that keep the laws *)

Section Lawful.

Context {num : Type} {N : Num num} {L : NumLaws num}.

Local Open Scope num_scope.

Lemma ltb_irrefl (a : num) : (a <? a) = false.
Proof.
  destruct (a <? a) eqn:E; [|reflexivity].
  pose proof (ltb_asym _ _ E). congruence.
Qed.


Lemma py_max_zero_cases (x : num) :
  ((zero <? x) = true /\ py_max zero x = x) \/
  ((zero <? x) = false /\ py_max zero x = zero).
Proof. unfold py_max. destruct (zero <? x); auto. Qed.

(** The records of a returned schedule: each is the line of a card of the
    working list of its month, a card with a balance. *)
Lemma schedule_lines_active (cards : list (CreditCard num)) (budget : num)
    (s : list (month_data num)) (n : nat) (ti ta : num) :
  create_payment_schedule cards budget = Some (Schedule s n ti ta) ->
  forall (k : nat) (md : month_data num) (j : nat) (r : payment_record num),
  nth_error s k = Some md ->
  nth_error (m_payments md) j = Some r ->
  exists card card',
    nth_error (remaining_after (extra_payment_of cards budget) k
                 (initial_remaining cards)) j = Some card /\
    has_balance card = true /\
    line_of (extra_payment_of cards budget) card r card' /\
    (j <> O -> r = minimum_record card).
Proof.
  intros Hrun k md j r Hk Hj.
  apply create_payment_schedule_schedule in Hrun as (_ & Hp & _).
  destruct (payoff_line Hp _ _ Hk Hj) as (card & card' & Hcard & Hline & Hmin).
  exists card, card'. repeat split; auto.
  pose proof (remaining_after_has_balance (extra_payment_of cards budget) k
                (initial_remaining_has_balance cards)) as Hall.
  rewrite Forall_forall in Hall. eapply Hall, nth_error_In, Hcard.
Qed.






End Lawful.

(** *** The balances of an account *)


(** The two cards with a monthly payment of 200 get a schedule, in floats. *)
Lemma two_cards_schedule_float :
  create_payment_schedule two_cards (fl 200)
  = Some (Schedule
            (schedule_of (create_payment_schedule two_cards (fl 200)))
            (total_months_of (create_payment_schedule two_cards (fl 200)))
            (total_interest_paid_of (create_payment_schedule two_cards (fl 200)))
            (total_amount_paid_of (create_payment_schedule two_cards (fl 200)))).
Proof. vm_compute. reflexivity. Qed.




(** *** A minimum payment below the interest *)

(** C6.  For the floats of the program and for any other numbers that keep
    the laws: for a card with a balance whose minimum payment is below the
    interest of the month, the minimum-payment step records a payment equal
    to the interest and a principal of zero, and leaves the balance as it
    was, in the record and in the card.  Every record of a returned schedule
    is the record of this step for a card of the working list that has a
    balance, changed only by the extra payment when it is the first of its
    month. *)
Theorem minimum_below_interest (num : Type) (N : Num num) (L : NumLaws num) :
  (forall card : card_dict num,
     has_balance card = true ->
     (c_minimum card <? calculate_interest (c_balance card) (c_monthly_rate card))%num
     = true ->
     p_interest (minimum_record card)
     = calculate_interest (c_balance card) (c_monthly_rate card) /\
     p_payment (minimum_record card) = p_interest (minimum_record card) /\
     p_principal (minimum_record card) = zero /\
     p_balance_before (minimum_record card) = c_balance card /\
     p_balance_after (minimum_record card) = c_balance card /\
     c_balance (after_minimum card) = c_balance card) /\
  (forall (cards : list (CreditCard num)) (budget : num)
          (s : list (month_data num)) (n : nat) (ti ta : num)
          (k : nat) (md : month_data num) (j : nat) (r : payment_record num),
     create_payment_schedule cards budget = Some (Schedule s n ti ta) ->
     nth_error s k = Some md ->
     nth_error (m_payments md) j = Some r ->
     exists card,
       nth_error (remaining_after (extra_payment_of cards budget) k
                    (initial_remaining cards)) j = Some card /\
       has_balance card = true /\
       (r = minimum_record card \/
        j = O /\
        exists e,
          extra_for (extra_payment_of cards budget) card = Some e /\
          r = add_extra (minimum_record card) e
                (c_balance (after_minimum card) - e)%num)).
Proof.
  split.
  - intros card Hpos Hmin.
    rewrite <- minimum_record_balance_after.
    unfold minimum_record, minimum_step, has_balance in *.
    revert Hmin. generalize (calculate_interest (c_balance card) (c_monthly_rate card)).
    intros i Hmin.
    rewrite (sub_below_zero _ _ Hmin).
    cbn [fst p_interest p_payment p_principal p_balance_before p_balance_after].
    rewrite (sub_zero _ Hpos). unfold py_max. rewrite Hpos. repeat split.
  - intros cards budget s n ti ta k md j r Hrun Hk Hj.
    destruct (schedule_lines_active _ _ Hrun _ _ Hk Hj)
      as (card & card' & Hcard & Hpos & Hline & Hmin).
    exists card. repeat split; auto.
    destruct Hline as [|e He]; [now left|].
    destruct j as [|j]; [right; split; eauto|left; now apply Hmin].
Qed.

(** In floats, the card of 1000 with a minimum payment of 10 at 24%: the
    interest is 20. *)
Lemma minimum_below_interest_witness :
  p_payment (minimum_record (card_dict_of (card (num := float) "A" 1000 10 24)))
  = fl 20 /\
  p_principal (minimum_record (card_dict_of (card (num := float) "A" 1000 10 24)))
  = fl 0 /\
  p_balance_after (minimum_record (card_dict_of (card (num := float) "A" 1000 10 24)))
  = fl 1000.
Proof.
  destruct (proj1 (@minimum_below_interest float float_Num float_NumLaws)
              (card_dict_of (card (num := float) "A" 1000 10 24)))
    as (Hi & Hp & Hz & _ & Ha & _).
  - vm_compute. reflexivity.
  - vm_compute. reflexivity.
  - rewrite Hp, Hi, Hz, Ha. repeat split; vm_compute; reflexivity.
Defined.

(** *** The lines of a schedule *)

(** What the minimum-payment step records for a card with the given minimum
    payment and monthly rate: the interest on the balance before, the
    minimum payment with the principal it leaves, or the interest with no
    principal when that is below zero, and the balance before less the
    principal, or zero. *)
Definition minimum_line {num : Type} `{Num num} (minimum rate : num)
    (m : payment_record num) : Prop :=
  p_interest m = calculate_interest (p_balance_before m) rate /\
  (((minimum - p_interest m <? zero)%num = false /\
    p_payment m = minimum /\ p_principal m = (minimum - p_interest m)%num) \/
   ((minimum - p_interest m <? zero)%num = true /\
    p_payment m = p_interest m /\ p_principal m = zero)) /\
  p_balance_after m = py_max zero (p_balance_before m - p_principal m)%num.

Lemma minimum_record_line {num : Type} `{Num num} (card : card_dict num) :
  minimum_line (c_minimum card) (c_monthly_rate card) (minimum_record card).
Proof.
  unfold minimum_line, minimum_record, minimum_step.
  destruct (c_minimum card - calculate_interest (c_balance card) (c_monthly_rate card)
            <? zero)%num eqn:E; cbn; rewrite E; repeat split; auto.
Qed.

(** C10, as the code has it.  For any numbers, the floats of the program
    among them: in a returned schedule every record belongs to an account,
    and along the records of an account the name stays and each balance
    before is the balance after of the month before.  Every record is the
    line of the minimum-payment step for a card of the working list; the
    first record of a month can have the extra payment added to its payment
    and to its principal and taken from its balance after.  The sums and
    the differences are those of the numbers: in floats they are rounded.
    With the laws, a record that has a record after it in its account leaves
    a balance above zero, so that a balance after that is the balance before
    less the principal, or zero, is the former there. *)
Theorem payment_lines_consistent :
  (forall (num : Type) (N : Num num) (cards : list (CreditCard num)) (budget : num)
          (s : list (month_data num)) (n : nat) (ti ta : num),
     create_payment_schedule cards budget = Some (Schedule s n ti ta) ->
     (forall (k : nat) (md : month_data num) (j : nat) (r : payment_record num),
        nth_error s k = Some md ->
        nth_error (m_payments md) j = Some r ->
        exists i, nth_error (account_lines s i) k = Some r) /\
     (forall (i k : nat) (r r' : payment_record num),
        nth_error (account_lines s i) k = Some r ->
        nth_error (account_lines s i) (S k) = Some r' ->
        p_card r' = p_card r /\ p_balance_before r' = p_balance_after r) /\
     (forall (k : nat) (md : month_data num) (j : nat) (r : payment_record num),
        nth_error s k = Some md ->
        nth_error (m_payments md) j = Some r ->
        exists card,
          nth_error (remaining_after (extra_payment_of cards budget) k
                       (initial_remaining cards)) j = Some card /\
          p_card r = c_name card /\
          p_balance_before r = c_balance card /\
          (minimum_line (c_minimum card) (c_monthly_rate card) r \/
           j = O /\
           exists (m : payment_record num) (e : num),
             minimum_line (c_minimum card) (c_monthly_rate card) m /\
             (zero <? extra_payment_of cards budget)%num = true /\
             (zero <? p_balance_after m)%num = true /\
             e = py_min (extra_payment_of cards budget) (p_balance_after m) /\
             p_payment r = (p_payment m + e)%num /\
             p_interest r = p_interest m /\
             p_principal r = (p_principal m + e)%num /\
             p_balance_before r = p_balance_before m /\
             p_balance_after r = (p_balance_after m - e)%num))) /\
  (forall (num : Type) (N : Num num) (L : NumLaws num)
          (cards : list (CreditCard num)) (budget : num)
          (s : list (month_data num)) (n : nat) (ti ta : num)
          (i k : nat) (r r' : payment_record num),
     create_payment_schedule cards budget = Some (Schedule s n ti ta) ->
     nth_error (account_lines s i) k = Some r ->
     nth_error (account_lines s i) (S k) = Some r' ->
     (zero <? p_balance_after r)%num = true /\
     (p_balance_after r = py_max zero (p_balance_before r - p_principal r)%num ->
      p_balance_after r = (p_balance_before r - p_principal r)%num)).
Proof.
  split.
  - intros num N cards budget s n ti ta Hrun. repeat apply conj.
    + intros k md j r Hk Hj.
      apply create_payment_schedule_schedule in Hrun as (_ & Hp & _).
      destruct (payoff_covered Hp _ _ Hk Hj) as (i & _ & Hi). eauto.
    + intros i k r r' Hk Hk'.
      destruct (schedule_account_runs _ _ i Hrun) as [Hnil|(card & _ & Hacc)];
        [rewrite Hnil in Hk; now destruct k|].
      apply account_run_chained in Hacc as (Hc & Hn). split.
      * rewrite Forall_forall in Hn.
        rewrite (Hn r), (Hn r'); eauto using nth_error_In.
      * eapply chained_nth; eauto.
    + intros k md j r Hk Hj.
      apply create_payment_schedule_schedule in Hrun as (_ & Hp & _).
      destruct (payoff_line Hp _ _ Hk Hj) as (card & card' & Hcard & Hline & Hmin).
      exists card. split; [exact Hcard|].
      pose proof (line_of_frame Hline) as (Hn & _ & _ & _ & _ & Hbb & _).
      do 2 (split; [assumption|]).
      destruct Hline as [|e He]; [left; apply minimum_record_line|].
      destruct j as [|j].
      * right. split; [reflexivity|].
        exists (minimum_record card), e.
        unfold extra_for in He. rewrite <- !minimum_record_balance_after in *.
        destruct (zero <? extra_payment_of cards budget)%num eqn:Hx; [|discriminate].
        destruct (zero <? p_balance_after (minimum_record card))%num eqn:Ha;
          [|discriminate].
        injection He as <-.
        split; [apply minimum_record_line|]. cbn. repeat split; auto.
      * left. rewrite Hmin by discriminate. apply minimum_record_line.
  - intros num N L cards budget s n ti ta i k r r' _ Hk Hk'.
    assert (Hr : (zero <? p_balance_after r)%num = true).
    { destruct (still_owed r) eqn:Hr; [exact Hr|].
      rewrite (account_lines_last _ _ _ Hk Hr) in Hk'. discriminate. }
    split; [exact Hr|]. intros Hmax.
    destruct (py_max_zero_cases (p_balance_before r - p_principal r)%num)
      as [(_ & Hx)|(_ & Hx)]; rewrite Hx in Hmax; [exact Hmax|].
    rewrite Hmax, ltb_irrefl in Hr. discriminate.
Qed.

(** The first two records of the first account in the schedule of the two
    cards, in floats. *)
Lemma payment_lines_consistent_witness :
  match account_lines (schedule_of (create_payment_schedule two_cards (fl 200))) 0 with
  | r :: r' :: _ => p_card r' = p_card r /\ p_balance_before r' = p_balance_after r
  | _ => False
  end.
Proof.
  pose proof (proj1 payment_lines_consistent float float_Num two_cards (fl 200) _ _ _ _
                two_cards_schedule_float) as (_ & Hnext & _).
  specialize (Hnext O O).
  destruct (account_lines (schedule_of (create_payment_schedule two_cards (fl 200))) 0)
    as [|r [|r' rs]] eqn:Hlines.
  - vm_compute in Hlines. discriminate.
  - vm_compute in Hlines. discriminate.
  - now apply Hnext.
Defined.

(** C10, the two equalities as the claim words them, fail in floats: in the
    schedule of the two cards with a monthly payment of 200, the first
    record of the third month has a payment of 125 that is not its interest
    plus its principal, and the first record of the ninth month has a
    balance after that is not its balance before less its principal. *)
Lemma rounded_payment_lines :
  exists (s : list (month_data float)) (n : nat) (ti ta : float),
    create_payment_schedule two_cards (fl 200) = Some (Schedule s n ti ta) /\
    (exists (md : month_data float) (r : payment_record float),
       nth_error s 2 = Some md /\ nth_error (m_payments md) 0 = Some r /\
       p_payment r = fl 125 /\
       PrimFloat.eqb (p_payment r) (p_interest r + p_principal r)%num = false /\
       p_payment r <> (p_interest r + p_principal r)%num) /\
    (exists (md : month_data float) (r : payment_record float),
       nth_error s 8 = Some md /\ nth_error (m_payments md) 0 = Some r /\
       PrimFloat.eqb (p_balance_after r)
         (py_max zero (p_balance_before r - p_principal r)%num) = false /\
       p_balance_after r <> py_max zero (p_balance_before r - p_principal r)%num).
Proof.
  do 4 eexists. split; [vm_compute; reflexivity|].
  split; do 2 eexists; (split; [vm_compute; reflexivity|]);
    (split; [vm_compute; reflexivity|]); repeat split;
    try (vm_compute; reflexivity);
    intros E; apply (f_equal Prim2SF) in E; vm_compute in E; discriminate.
Qed.

(** ** The input objects *)

(** [create_payment_schedule] receives references to [CreditCard] objects,
    whose attributes can be assigned.  Here the objects live in a store, the
    argument is a list of addresses (an object may be listed twice), and the
    function is a computation on the store: it reads attributes through
    [getattr].  The dicts of [remaining_cards] are made by the function and
    hold copies of the attributes, not references into the store, so the
    loop runs on them as in [payoff_loop]. *)

Section Store.

Context {num : Type} `{Num num}.

Local Open Scope num_scope.

Definition addr : Type := nat.

Definition store : Type := addr -> CreditCard num.

(** Computations that read and write the store. *)
Definition M (A : Type) : Type := store -> A * store.

Definition ret {A : Type} (x : A) : M A := fun h => (x, h).

Definition bind {A B : Type} (m : M A) (f : A -> M B) : M B :=
  fun h => let '(x, h') := m h in f x h'.

Notation "x <- m ;; k" := (bind m (fun x => k))
  (at level 61, m at next level, right associativity).

(** [card.attr], and [card.attr = v] as an update of the object. *)
Definition getattr {A : Type} (attr : CreditCard num -> A) (card : addr) : M A :=
  fun h => (attr (h card), h).

Definition setattr (update : CreditCard num -> CreditCard num) (card : addr) : M unit :=
  fun h => (tt, fun a => if Nat.eqb a card then update (h a) else h a).

(** A list comprehension with a condition, and one without. *)
Fixpoint filterM (p : addr -> M bool) (l : list addr) : M (list addr) :=
  match l with
  | [] => ret []
  | a :: l' =>
      keep <- p a ;;
      rest <- filterM p l' ;;
      ret (if keep then a :: rest else rest)
  end.

Fixpoint mapM {B : Type} (f : addr -> M B) (l : list addr) : M (list B) :=
  match l with
  | [] => ret []
  | a :: l' =>
      b <- f a ;;
      rest <- mapM f l' ;;
      ret (b :: rest)
  end.

(** [create_payment_schedule] on references.  [sorted] computes the key of
    every card, then sorts the cards by these keys. *)
Definition create_payment_schedule_on (cards : list addr)
    (total_monthly_payment : num) : M (option (result num)) :=
  cards_with_balance <-
    filterM (fun card => b <- getattr balance card ;; ret (zero <? b)) cards ;;
  keys <- mapM (getattr balance) cards_with_balance ;;
  let cards_sorted := map snd (sorted fst (combine keys cards_with_balance)) in
  minimums <- mapM (getattr minimum_payment) cards_sorted ;;
  let total_minimums := py_sum minimums in
  if total_monthly_payment <? total_minimums then
    ret (Some (Error (BudgetError total_monthly_payment total_minimums)))
  else
    let extra_payment := total_monthly_payment - total_minimums in
    remaining_cards <-
      mapM (fun card =>
              n <- getattr name card ;;
              b <- getattr balance card ;;
              m <- getattr minimum_payment card ;;
              a <- getattr apr card ;;
              r <- getattr monthly_interest_rate card ;;
              ret {| c_name := n; c_balance := b; c_minimum := m;
                     c_apr := a; c_monthly_rate := r |})
           cards_sorted ;;
    ret (payoff_loop 1000 extra_payment 1 remaining_cards [] zero).

(** A computation that only reads: it returns a value that depends on the
    store and leaves the store as it is. *)
Definition reads {A : Type} (m : M A) (v : store -> A) : Prop :=
  forall h, m h = (v h, h).

Lemma reads_ret {A : Type} (x : A) : reads (ret x) (fun _ => x).
Proof. intros h. reflexivity. Qed.

Lemma reads_getattr {A : Type} (attr : CreditCard num -> A) (card : addr) :
  reads (getattr attr card) (fun h => attr (h card)).
Proof. intros h. reflexivity. Qed.

Lemma reads_bind {A B : Type} (m : M A) (f : A -> M B)
    (v : store -> A) (w : A -> store -> B) :
  reads m v -> (forall x, reads (f x) (w x)) ->
  reads (bind m f) (fun h => w (v h) h).
Proof. intros Hm Hf h. unfold bind. rewrite Hm. apply Hf. Qed.

Lemma reads_filterM (p : addr -> M bool) (q : addr -> store -> bool) (l : list addr) :
  (forall a, reads (p a) (q a)) ->
  reads (filterM p l) (fun h => filter (fun a => q a h) l).
Proof.
  intros Hp h. induction l as [|a l IH]; [reflexivity|].
  cbn [filterM filter]. unfold bind. rewrite Hp, IH. reflexivity.
Qed.

Lemma reads_mapM {B : Type} (f : addr -> M B) (g : addr -> store -> B) (l : list addr) :
  (forall a, reads (f a) (g a)) ->
  reads (mapM f l) (fun h => map (fun a => g a h) l).
Proof.
  intros Hf h. induction l as [|a l IH]; [reflexivity|].
  cbn [mapM map]. unfold bind. rewrite Hf, IH. reflexivity.
Qed.

(** An assignment to an attribute is seen in the store. *)
Lemma setattr_writes (update : CreditCard num -> CreditCard num) (card : addr)
    (h : store) :
  snd (setattr update card h) card = update (h card).
Proof. cbn. now rewrite Nat.eqb_refl. Qed.

(** Sorting the cards by their keys is sorting the objects by balance. *)
Lemma combine_keys {A B : Type} (f : A -> B) (l : list A) :
  combine (map f l) l = map (fun a => (f a, a)) l.
Proof. induction l; cbn; congruence. Qed.

Lemma insert_by_map {A B : Type} (f : A -> B) (key : B -> num) (x : A) (l : list A) :
  map f (insert_by (fun a => key (f a)) x l) = insert_by key (f x) (map f l).
Proof.
  induction l as [|y l IH]; [reflexivity|]. cbn [insert_by map].
  destruct (key (f y) <? key (f x)); cbn [map]; congruence.
Qed.

Lemma sorted_map {A B : Type} (f : A -> B) (key : B -> num) (l : list A) :
  map f (sorted (fun a => key (f a)) l) = sorted key (map f l).
Proof.
  induction l as [|x l IH]; [reflexivity|]. cbn [sorted fold_right map].
  rewrite insert_by_map. f_equal. exact IH.
Qed.

Lemma insert_by_ext {A : Type} (key key' : A -> num) (x : A) (l : list A) :
  key x = key' x -> Forall (fun a => key a = key' a) l ->
  insert_by key x l = insert_by key' x l.
Proof.
  intros Hx. induction 1 as [|y l Hy Hl IH]; [reflexivity|].
  cbn [insert_by]. now rewrite Hx, Hy, IH.
Qed.

Lemma sorted_ext {A : Type} (key key' : A -> num) (l : list A) :
  Forall (fun a => key a = key' a) l -> sorted key l = sorted key' l.
Proof.
  induction 1 as [|x l Hx Hl IH]; [reflexivity|]. cbn [sorted fold_right].
  fold (sorted key l). fold (sorted key' l). rewrite IH.
  apply insert_by_ext; [exact Hx|].
  apply Forall_forall. intros a Ha.
  apply (Permutation_in _ (sorted_Permutation key' l)) in Ha.
  rewrite Forall_forall in Hl. now apply Hl.
Qed.

Lemma sorted_by_keys (h : store) (l : list addr) :
  map h (map snd (sorted fst (combine (map (fun a => balance (h a)) l) l)))
  = sorted balance (map h l).
Proof.
  rewrite combine_keys, map_map.
  rewrite (sorted_ext fst (fun p => balance (h (snd p)))).
  - rewrite (sorted_map (fun p => h (snd p)) balance), map_map. reflexivity.
  - apply Forall_map. apply Forall_forall. reflexivity.
Qed.

Lemma filter_map_comm {A B : Type} (f : A -> B) (p : B -> bool) (l : list A) :
  map f (filter (fun a => p (f a)) l) = filter p (map f l).
Proof.
  induction l as [|x l IH]; [reflexivity|]. cbn.
  destruct (p (f x)); cbn; congruence.
Qed.

(** C9.  On any store and any list of references, the function leaves the
    store as it was, every attribute of every object included, and returns
    what [create_payment_schedule] returns on the objects read from the
    store. *)
Theorem inputs_unchanged (cards : list addr) (total_monthly_payment : num)
    (h : store) :
  create_payment_schedule_on cards total_monthly_payment h
  = (create_payment_schedule (map h cards) total_monthly_payment, h).
Proof.
  assert (Hfilter : forall l,
             reads (filterM (fun card => b <- getattr balance card ;; ret (zero <? b)) l)
               (fun h => filter (fun a => zero <? balance (h a)) l)).
  { intros l. apply reads_filterM. intros a h'. reflexivity. }
  assert (Hdicts : forall l,
             reads (mapM (fun card =>
                            n <- getattr name card ;;
                            b <- getattr balance card ;;
                            m <- getattr minimum_payment card ;;
                            a <- getattr apr card ;;
                            r <- getattr monthly_interest_rate card ;;
                            ret {| c_name := n; c_balance := b; c_minimum := m;
                                   c_apr := a; c_monthly_rate := r |}) l)
               (fun h => map (fun a => card_dict_of (h a)) l)).
  { intros l. apply reads_mapM. intros a h'. reflexivity. }
  assert (Hattr : forall (A : Type) (attr : CreditCard num -> A) l,
             reads (mapM (getattr attr) l) (fun h => map (fun a => attr (h a)) l)).
  { intros A attr l. apply reads_mapM. intros a. apply reads_getattr. }
  unfold create_payment_schedule_on, bind.
  rewrite Hfilter, Hattr, Hattr.
  set (l := filter (fun a => zero <? balance (h a)) cards).
  set (cards_sorted_refs := map snd (sorted fst (combine (map (fun a => balance (h a)) l) l))).
  assert (Hsorted : map h cards_sorted_refs = cards_sorted (map h cards)).
  { unfold cards_sorted_refs, cards_sorted, cards_with_balance.
    rewrite sorted_by_keys. unfold l.
    now rewrite (filter_map_comm h (fun c => zero <? balance c)). }
  unfold create_payment_schedule, payment_schedule_fuel, total_minimums.
  rewrite <- Hsorted, !map_map.
  destruct (_ <? _); [reflexivity|].
  rewrite Hdicts. reflexivity.
Qed.

End Store.

(** ** Budget check, empty input, the bound of 1000 months *)

(** In exact arithmetic a sum does not depend on the order of its terms: the
    total of the minimum payments, taken over the sorted cards, is the sum
    over the cards with a balance in the order of the input. *)
Lemma fold_left_add_Permutation (l l' : list Qc) :
  Permutation l l' -> forall a : Qc, fold_left add l a = fold_left add l' a.
Proof.
  induction 1 as [|x l l' Hp IH|x y l|l l' l'' Hp IH Hp' IH']; intros a; cbn.
  - reflexivity.
  - apply IH.
  - f_equal. change ((a + y + x = a + x + y)%Qc). ring.
  - now rewrite IH.
Qed.

Lemma total_minimums_exact (cards : list (CreditCard Qc)) :
  total_minimums cards = py_sum (map (@minimum_payment Qc) (cards_with_balance cards)).
Proof.
  unfold total_minimums, py_sum. apply fold_left_add_Permutation.
  apply Permutation_map, sorted_Permutation.
Qed.

(** C3, as the code has it.  A monthly payment below the total of the minimum
    payments of the cards with a balance is answered by the budget error
    with both figures, whatever the number of passes allowed to the loop,
    none included: no period is computed.  A payment that is not below the
    total, in particular one equal to it, never gets the budget error. *)
Theorem budget_floor :
  (forall (num : Type) (N : Num num) (cards : list (CreditCard num)) (budget : num),
     (budget <? total_minimums cards)%num = true ->
     forall fuel : nat,
       payment_schedule_fuel fuel cards budget
       = Some (Error (BudgetError budget (total_minimums cards)))) /\
  (forall (num : Type) (N : Num num) (cards : list (CreditCard num)) (budget : num),
     (budget <? total_minimums cards)%num = false ->
     forall b m : num,
       create_payment_schedule cards budget <> Some (Error (BudgetError b m))) /\
  (forall (cards : list (CreditCard Qc)) (b m : Qc),
     total_minimums cards
     = py_sum (map (@minimum_payment Qc) (cards_with_balance cards)) /\
     create_payment_schedule cards (total_minimums cards)
     <> Some (Error (BudgetError b m))) /\
  (forall (cards : list (CreditCard float)) (b m : float),
     create_payment_schedule cards (total_minimums cards)
     <> Some (Error (BudgetError b m))).
Proof.
  assert (Hge : forall (num : Type) (N : Num num) (cards : list (CreditCard num))
                       (budget : num),
             (budget <? total_minimums cards)%num = false ->
             forall b m : num,
               create_payment_schedule cards budget <> Some (Error (BudgetError b m))).
  { intros num N cards budget Hb b m Hrun.
    destruct (create_payment_schedule_outcome cards budget) as (_ & Hs & He).
    destruct (remaining_after (extra_payment_of cards budget) 999
                (initial_remaining cards)) eqn:Hrem.
    - destruct (Hs Hb eq_refl) as (s & n & ti & ta & Hrun').
      rewrite Hrun' in Hrun. discriminate.
    - rewrite He in Hrun by (auto; discriminate). discriminate. }
  repeat split.
  - intros num N cards budget Hb fuel.
    unfold payment_schedule_fuel. now rewrite Hb.
  - exact Hge.
  - apply total_minimums_exact.
  - revert b m. apply Hge. apply Qc_ltb_irrefl.
  - intros cards. apply Hge. apply float_ltb_irrefl.
Qed.

(** The budget error on the two cards with a payment of 90. *)
Lemma budget_floor_witness :
  create_payment_schedule (two_cards (num := Qc)) (qc 90)
  = Some (Error (BudgetError (qc 90) (total_minimums two_cards))).
Proof.
  apply (proj1 budget_floor Qc Qc_Num two_cards (qc 90)).
  vm_compute. reflexivity.
Defined.

(** C3, the converse as the claim words it, fails: a payment equal to the
    total of the minimum payments is an error when the loop does not finish,
    here on a card whose minimum payment never covers its interest. *)
Lemma budget_equal_minimums_error :
  total_minimums (interest_only (num := Qc)) = qc 10 /\
  create_payment_schedule (interest_only (num := Qc)) (qc 10)
  = Some (Error ExceedsError) /\
  total_minimums (interest_only (num := float)) = fl 10 /\
  create_payment_schedule (interest_only (num := float)) (fl 10)
  = Some (Error ExceedsError).
Proof.
  repeat split;
    (vm_compute; reflexivity) || (apply Qc_is_canon; vm_compute; reflexivity).
Qed.

(** C8, as the code has it.  With no card that has a balance, the total of
    the minimum payments is the empty sum: a monthly payment that is not
    below zero gets the empty schedule with zero months, zero interest and
    zero paid, without a pass of the loop; a payment below zero gets the
    budget error. *)
Theorem nothing_to_schedule (num : Type) (N : Num num)
    (cards : list (CreditCard num)) (budget : num) :
  cards_with_balance cards = [] ->
  ((budget <? zero)%num = false ->
   forall fuel : nat,
     payment_schedule_fuel fuel cards budget = Some (Schedule [] 0 zero zero)) /\
  ((budget <? zero)%num = true ->
   create_payment_schedule cards budget = Some (Error (BudgetError budget zero))).
Proof.
  intros Hnone.
  unfold create_payment_schedule, payment_schedule_fuel, total_minimums, cards_sorted.
  rewrite Hnone. cbn [sorted fold_right map py_sum fold_left].
  split; intros Hb; [intros fuel|]; rewrite Hb; [|reflexivity].
  now destruct fuel.
Qed.

(** The empty schedule for two cards that owe nothing and for no card. *)
Lemma nothing_to_schedule_witness :
  create_payment_schedule (zero_cards (num := float)) (fl 100)
  = Some (Schedule [] 0 zero zero) /\
  create_payment_schedule ([] : list (CreditCard Qc)) (qc 100)
  = Some (Schedule [] 0 zero zero).
Proof.
  split.
  - refine (proj1 (nothing_to_schedule float_Num zero_cards (fl 100) _) _ 1000%nat);
      vm_compute; reflexivity.
  - refine (proj1 (nothing_to_schedule Qc_Num [] (qc 100) _) _ 1000%nat);
      vm_compute; reflexivity.
Defined.

(** C8 as stated fails: no card and a negative monthly payment is the budget
    error, not the empty schedule. *)
Lemma no_cards_negative_budget :
  create_payment_schedule ([] : list (CreditCard Qc)) (qc (-1))
  = Some (Error (BudgetError (qc (-1)) zero)) /\
  create_payment_schedule ([] : list (CreditCard float)) (fl (-1))
  = Some (Error (BudgetError (fl (-1)) zero)).
Proof. split; reflexivity. Qed.

(** C4 at its failing input.  Minimum payments of 1 clear a balance of 1000
    in exactly 1000 months: the working list is empty after 1000 periods and
    not after 999.  The loop has then counted [month] up to 1001 and returns
    the error. *)
Theorem thousand_months_rejected :
  (remaining_after (extra_payment_of thousand_months (fl 1)) 1000
     (initial_remaining thousand_months) = [] /\
   remaining_after (extra_payment_of thousand_months (fl 1)) 999
     (initial_remaining thousand_months) <> [] /\
   create_payment_schedule thousand_months (fl 1) = Some (Error ExceedsError)) /\
  (remaining_after (extra_payment_of thousand_months (qc 1)) 1000
     (initial_remaining thousand_months) = [] /\
   remaining_after (extra_payment_of thousand_months (qc 1)) 999
     (initial_remaining thousand_months) <> [] /\
   create_payment_schedule thousand_months (qc 1) = Some (Error ExceedsError)).
Proof.
  repeat split; try (vm_compute; reflexivity); vm_compute; discriminate.
Qed.

(** C7.  The card of 500 with a minimum payment of 25 at 18% and a monthly
    payment of 1000: one month, 7.50 of interest, 507.50 paid, in floats and
    in exact arithmetic. *)
Theorem quick_payoff_one_month :
  create_payment_schedule quick_payoff (fl 1000)
  = Some (Schedule
            [{| m_month := 1;
                m_payments :=
                  [{| p_card := "Quick Payoff";
                      p_payment := 507.5%float;
                      p_interest := 7.5%float;
                      p_principal := 500%float;
                      p_balance_before := 500%float;
                      p_balance_after := 0%float |}];
                m_balances_after := [("Quick Payoff"%string, 0%float)];
                m_total_paid := 507.5%float;
                m_interest_paid := 7.5%float |}]
            1 7.5%float 507.5%float) /\
  exists (s : list (month_data Qc)) (ti ta : Qc),
    create_payment_schedule quick_payoff (qc 1000) = Some (Schedule s 1 ti ta) /\
    ti = Q2Qc (15 # 2) /\ ta = Q2Qc (1015 # 2) /\ ta <> qc 1000.
Proof.
  split; [vm_compute; reflexivity|].
  do 3 eexists. split; [vm_compute; reflexivity|].
  repeat split; try (apply Qc_is_canon; vm_compute; reflexivity).
  intros Heq. apply (f_equal this) in Heq. vm_compute in Heq. discriminate.
Qed.

(** C2 at its failing input.  A card of 100 without interest and minimum
    payments of 30: four months, each recorded with a payment of 30, so 120
    is paid against an initial balance of 100 and no interest. *)
Theorem last_payment_overpays :
  (create_payment_schedule last_payment_over (fl 30)
   = Some (Schedule
             (map (fun '(month, before, after) =>
                     {| m_month := month;
                        m_payments :=
                          [{| p_card := "A";
                              p_payment := fl 30;
                              p_interest := fl 0;
                              p_principal := fl 30;
                              p_balance_before := fl before;
                              p_balance_after := fl after |}];
                        m_balances_after := [("A"%string, fl after)];
                        m_total_paid := fl 30;
                        m_interest_paid := fl 0 |})
                  [(1%nat, 100, 70); (2%nat, 70, 40); (3%nat, 40, 10); (4%nat, 10, 0)]%Z)
             4 (fl 0) (fl 120)) /\
   py_sum (map (@balance float) (cards_with_balance last_payment_over)) = fl 100 /\
   fl 120 <> (fl 0 + fl 100)%num) /\
  (exists (s : list (month_data Qc)) (ti ta : Qc),
     create_payment_schedule last_payment_over (qc 30) = Some (Schedule s 4 ti ta) /\
     ti = qc 0 /\ ta = qc 120 /\
     py_sum (map (@balance Qc) (cards_with_balance last_payment_over)) = qc 100 /\
     ta <> (ti + qc 100)%num).
Proof.
  split.
  - repeat split; try (vm_compute; reflexivity).
    intros Heq. apply (f_equal (fun x => PrimFloat.eqb x (fl 120))) in Heq.
    vm_compute in Heq. discriminate.
  - do 3 eexists. split; [vm_compute; reflexivity|].
    repeat split; try (apply Qc_is_canon; vm_compute; reflexivity).
    intros Heq. apply (f_equal this) in Heq. vm_compute in Heq. discriminate.
Qed.

(** * Further properties of the schedule *)

Section ScheduleShape.

Context {num : Type} `{Num num}.

Local Open Scope num_scope.

(** The two views of a month, ["payments"] and ["balances_after"], are built
    from different objects: the first from the payment records, the second
    from the card dicts after the extra payment. *)
Lemma period_balances_view (extra_payment : num)
    (remaining_cards : list (card_dict num)) :
  map (fun card => (c_name card, c_balance card))
    (period_cards extra_payment remaining_cards)
  = map (fun r => (p_card r, p_balance_after r))
      (period_payments extra_payment remaining_cards).
Proof.
  assert (Hmin : forall l : list (card_dict num),
             map (fun card => (c_name card, c_balance card)) (map after_minimum l)
             = map (fun r => (p_card r, p_balance_after r)) (map minimum_record l)).
  { intros l. rewrite !map_map. apply map_ext. intros c.
    now rewrite after_minimum_name, minimum_record_card, minimum_record_balance_after. }
  destruct remaining_cards as [|target_card rest]; [reflexivity|]. cbn.
  destruct (extra_for extra_payment target_card); cbn [map].
  - rewrite Hmin. cbn. now rewrite after_minimum_name, minimum_record_card.
  - apply (Hmin (target_card :: rest)).
Qed.

(** The months of a returned schedule are numbered from 1 without gaps,
    ["total_months"] is their number and is at most 999, and in every month
    the list ["balances_after"] names the cards of ["payments"], in the same
    order, each with the balance its payment record shows. *)
Theorem months_numbered (cards : list (CreditCard num)) (budget : num)
    (s : list (month_data num)) (n : nat) (ti ta : num) :
  create_payment_schedule cards budget = Some (Schedule s n ti ta) ->
  n = List.length s /\ (n <= 999)%nat /\
  forall (k : nat) (md : month_data num),
    nth_error s k = Some md ->
    m_month md = S k /\
    m_payments md <> [] /\
    m_balances_after md
    = map (fun r => (p_card r, p_balance_after r)) (m_payments md).
Proof.
  intros Hrun.
  apply create_payment_schedule_schedule in Hrun as (_ & Hp & Hlen & -> & _).
  split; [reflexivity|]. split; [exact Hlen|]. intros k md Hk.
  destruct (payoff_nth Hp _ Hk) as (Hne & ->). rewrite period_eq.
  cbn [fst m_month m_payments m_balances_after]. repeat split.
  - destruct (remaining_after (extra_payment_of cards budget) k (initial_remaining cards))
      as [|c w]; [congruence|]. cbn.
    destruct (extra_for (extra_payment_of cards budget) c); discriminate.
  - apply period_balances_view.
Qed.

(** A returned schedule is empty exactly when no card has a balance.
    Otherwise its first month has one payment record for each card with a
    balance, in the sorted order, under the name of the card and starting
    from its balance; cards without a balance have no record. *)
Theorem first_month_cards (cards : list (CreditCard num)) (budget : num)
    (s : list (month_data num)) (n : nat) (ti ta : num) :
  create_payment_schedule cards budget = Some (Schedule s n ti ta) ->
  (s = [] <-> cards_with_balance cards = []) /\
  forall md : month_data num,
    nth_error s 0 = Some md ->
    map (fun r => (p_card r, p_balance_before r)) (m_payments md)
    = map (fun c => (name c, balance c)) (cards_sorted cards).
Proof.
  intros Hrun.
  apply create_payment_schedule_schedule in Hrun as (_ & Hp & _).
  assert (Hinit : map (fun c => (c_name c, c_balance c)) (initial_remaining cards)
                  = map (fun c => (name c, balance c)) (cards_sorted cards)).
  { unfold initial_remaining. now rewrite map_map. }
  split.
  - split; intros Hs.
    + subst s.
      assert (Hw : initial_remaining cards = []) by (inversion Hp; reflexivity).
      unfold initial_remaining in Hw. apply map_eq_nil in Hw.
      apply Permutation_nil. rewrite <- Hw.
      exact (sorted_Permutation balance (cards_with_balance cards)).
    + assert (Hw : initial_remaining cards = [])
        by (unfold initial_remaining, cards_sorted; now rewrite Hs).
      rewrite Hw in Hp. now inversion Hp.
  - intros md Hmd. destruct (payoff_nth Hp _ Hmd) as (_ & ->).
    cbn [remaining_after]. rewrite period_eq. cbn [fst m_payments].
    rewrite <- Hinit.
    assert (Hmin : forall l : list (card_dict num),
               map (fun r => (p_card r, p_balance_before r)) (map minimum_record l)
               = map (fun c => (c_name c, c_balance c)) l).
    { intros l. rewrite map_map. apply map_ext. intros c.
      now rewrite minimum_record_card, minimum_record_balance_before. }
    destruct (initial_remaining cards) as [|c w]; [reflexivity|]. cbn.
    destruct (extra_for (extra_payment_of cards budget) c); cbn [map].
    + rewrite Hmin. cbn. now rewrite minimum_record_card, minimum_record_balance_before.
    + apply (Hmin (c :: w)).
Qed.

End ScheduleShape.

(** The schedule of the two cards with a monthly payment of 200 has 17
    months. *)
Lemma months_numbered_witness :
  total_months_of (create_payment_schedule two_cards (qc 200)) = 17%nat /\
  (total_months_of (create_payment_schedule two_cards (qc 200)) <= 999)%nat.
Proof.
  destruct (months_numbered two_cards (qc 200) two_cards_schedule) as (Hn & Hle & _).
  split; [vm_compute; reflexivity|exact Hle].
Defined.

(** The first month of the schedule of the two cards. *)
Lemma first_month_cards_witness :
  match schedule_of (create_payment_schedule two_cards (qc 200)) with
  | md :: _ => map (@p_card Qc) (m_payments md) = ["A"; "B"]%string
  | [] => False
  end.
Proof.
  destruct (first_month_cards two_cards (qc 200) two_cards_schedule) as (_ & Hfirst).
  destruct (schedule_of (create_payment_schedule two_cards (qc 200))) as [|md later]
    eqn:Hs.
  - vm_compute in Hs. discriminate.
  - specialize (Hfirst md eq_refl).
    apply (f_equal (map fst)) in Hfirst. rewrite !map_map in Hfirst. cbn [fst] in Hfirst.
    etransitivity; [exact Hfirst|]. vm_compute. reflexivity.
Defined.

(** ** Totals and accounts *)

Section Totals.

Context {num : Type} `{Num num}.

Local Open Scope num_scope.




(** The life of an account ends with a record that leaves no balance above
    zero; the records before it leave one. *)
Lemma account_run_settles (extra_payment : num) (c : card_dict num)
    (rs : list (payment_record num)) :
  account_run extra_payment c rs ->
  exists front r,
    rs = front ++ [r] /\
    (zero <? p_balance_after r) = false /\
    Forall (fun r' => (zero <? p_balance_after r') = true) front.
Proof.
  induction 1 as [c r c' Hline Hb|c r c' rs Hline Hb Hrun (front & r' & -> & Hz & Hf)];
    pose proof (still_owed_has_balance Hline) as Hso; unfold still_owed in Hso.
  - exists [], r. split; [reflexivity|]. split; [congruence|constructor].
  - exists (r :: front), r'. split; [reflexivity|]. split; [exact Hz|].
    constructor; [congruence|exact Hf].
Qed.


(** In a returned schedule every card with a balance is paid off: the
    payment records of the card at any position of the sorted list carry its
    name, start from its balance, each from the balance the one before has
    left, and end with a record that leaves no balance above zero, after
    records that each leave one. *)
Theorem every_card_paid_off (cards : list (CreditCard num)) (budget : num)
    (s : list (month_data num)) (n : nat) (ti ta : num) (i : nat) (c : CreditCard num) :
  create_payment_schedule cards budget = Some (Schedule s n ti ta) ->
  nth_error (cards_sorted cards) i = Some c ->
  Forall (fun r => p_card r = name c) (account_lines s i) /\
  chained (balance c) (account_lines s i) /\
  exists front r,
    account_lines s i = front ++ [r] /\
    (zero <? p_balance_after r) = false /\
    Forall (fun r' => (zero <? p_balance_after r') = true) front.
Proof.
  intros Hrun Hc.
  apply create_payment_schedule_schedule in Hrun as (_ & Hp & _).
  assert (Hi : nth_error (initial_remaining cards) i = Some (card_dict_of c)).
  { unfold initial_remaining. now apply map_nth_error. }
  pose proof (payoff_account Hp _ Hi) as Hacc.
  destruct (account_run_chained Hacc) as (Hchain & Hnames).
  split; [exact Hnames|]. split; [exact Hchain|].
  now apply account_run_settles with (extra_payment_of cards budget) (card_dict_of c).
Qed.

End Totals.


(** The card of 500 in the schedule of the two cards, in floats. *)
Lemma every_card_paid_off_witness :
  exists front r,
    account_lines (schedule_of (create_payment_schedule two_cards (fl 200))) 0
    = front ++ [r] /\
    PrimFloat.ltb (fl 0) (p_balance_after r) = false.
Proof.
  destruct (every_card_paid_off two_cards (fl 200) 0 (c := card "A" 500 25 18)
              two_cards_schedule_float) as (_ & _ & front & r & Hlast & Hz & _).
  - vm_compute. reflexivity.
  - exists front, r. split; [exact Hlast|exact Hz].
Defined.

(** ** The order of the input *)

Lemma filter_Permutation {A : Type} (f : A -> bool) (l l' : list A) :
  Permutation l l' -> Permutation (filter f l) (filter f l').
Proof.
  induction 1 as [|x l l' Hp IH|x y l|l l' l'' Hp IH Hp' IH']; cbn [filter].
  - constructor.
  - destruct (f x); [now constructor|exact IH].
  - destruct (f x); destruct (f y); try reflexivity. constructor.
  - now transitivity (filter f l').
Qed.

(** Two sorted lists of the same elements, no two with the same key, are
    the same list. *)
Lemma sorted_unique {A : Type} (key : A -> Qc) (l : list A) :
  forall l' : list A,
    StronglySorted (fun a b => (key a <= key b)%Qc) l ->
    StronglySorted (fun a b => (key a <= key b)%Qc) l' ->
    Permutation l l' ->
    NoDup (map key l) ->
    l = l'.
Proof.
  induction l as [|x t IH]; intros l' Hs Hs' Hp Hnd.
  - apply Permutation_nil in Hp. now subst.
  - destruct l' as [|y t']; [apply Permutation_sym, Permutation_nil in Hp; discriminate|].
    inversion Hs as [|? ? Hst Hx]; subst. inversion Hs' as [|? ? Hst' Hy]; subst.
    inversion Hnd as [|? ? Hnx Hnd']; subst.
    rewrite Forall_forall in Hx, Hy.
    assert (Hxy : x = y).
    { assert (Hin : In y (x :: t))
        by (apply (Permutation_in _ (Permutation_sym Hp)); now left).
      destruct Hin as [Heq|Hin]; [exact Heq|]. exfalso.
      assert (Hin' : In x (y :: t')) by (apply (Permutation_in _ Hp); now left).
      destruct Hin' as [Heq|Hin']; [now subst; apply Hnx, in_map|].
      apply Hnx. replace (key x) with (key y); [now apply in_map|].
      apply Qcle_antisym; [now apply Hy|now apply Hx]. }
    subst y. f_equal. apply IH; auto. now apply Permutation_cons_inv in Hp.
Qed.

(** In exact arithmetic, the order in which the cards are given does not
    matter when the cards with a balance have different balances: the
    result is the same for every order. *)
Theorem input_order_irrelevant (cards cards' : list (CreditCard Qc)) (budget : Qc) :
  Permutation cards cards' ->
  NoDup (map (@balance Qc) (cards_with_balance cards)) ->
  create_payment_schedule cards' budget = create_payment_schedule cards budget.
Proof.
  intros Hp Hnd.
  assert (Hsorted : cards_sorted cards' = cards_sorted cards).
  { unfold cards_sorted. symmetry. apply (sorted_unique (@balance Qc)).
    - apply sorted_sorted.
    - apply sorted_sorted.
    - rewrite !sorted_Permutation. unfold cards_with_balance. now apply filter_Permutation.
    - apply (Permutation_NoDup (l := map (@balance Qc) (cards_with_balance cards)));
        [|exact Hnd].
      apply Permutation_map, Permutation_sym, sorted_Permutation. }
  unfold create_payment_schedule, payment_schedule_fuel, total_minimums.
  now rewrite Hsorted.
Qed.

(** The two cards, given in the other order. *)
Lemma input_order_irrelevant_witness :
  create_payment_schedule (rev two_cards) (qc 200)
  = create_payment_schedule two_cards (qc 200).
Proof.
  apply input_order_irrelevant.
  - apply Permutation_sym, Permutation_rev.
  - vm_compute. repeat constructor; cbn; intuition discriminate.
Defined.

(** * The helpers of the calendar and of the file readers *)

(** ** Strings

    Python strings are modelled as strings of ASCII characters, with the
    character classes that [str.strip], [str.lower] and the patterns [\d],
    [\s], [\w] and [\b] of [re] have on them. *)

Local Open Scope string_scope.

Definition char_in (a : ascii) (lo hi : nat) : bool :=
  (lo <=? nat_of_ascii a)%nat && (nat_of_ascii a <=? hi)%nat.

(** An ASCII character, and a string of them. *)
Definition is_ascii (a : ascii) : bool := char_in a 0 127.

Fixpoint is_ascii_string (s : string) : bool :=
  match s with
  | EmptyString => true
  | String a s' => is_ascii a && is_ascii_string s'
  end.

(** [str.isspace] and [\s]: tab to carriage return, the four separators
    28 to 31, and the space. *)
Definition is_space (a : ascii) : bool := char_in a 9 13 || char_in a 28 32.

(** [\d]. *)
Definition is_digit (a : ascii) : bool := char_in a 48 57.

(** [\w]: letters, digits and the underscore. *)
Definition is_word (a : ascii) : bool :=
  is_digit a || char_in a 65 90 || char_in a 97 122 || char_in a 95 95.

(** [str.lower] on one character. *)
Definition lower_char (a : ascii) : ascii :=
  if char_in a 65 90 then ascii_of_nat (nat_of_ascii a + 32) else a.

Fixpoint lower (s : string) : string :=
  match s with
  | EmptyString => EmptyString
  | String a s' => String (lower_char a) (lower s')
  end.

(** [str.lstrip], [str.rstrip] and [str.strip] without argument. *)
Fixpoint lstrip (s : string) : string :=
  match s with
  | EmptyString => EmptyString
  | String a s' => if is_space a then lstrip s' else s
  end.

Fixpoint rstrip (s : string) : string :=
  match s with
  | EmptyString => EmptyString
  | String a s' =>
      match rstrip s' with
      | EmptyString => if is_space a then EmptyString else String a EmptyString
      | r => String a r
      end
  end.

Definition strip (s : string) : string := rstrip (lstrip s).

(** The longest prefix of digits, and what follows it. *)
Fixpoint digits_prefix (s : string) : string :=
  match s with
  | EmptyString => EmptyString
  | String a s' => if is_digit a then String a (digits_prefix s') else EmptyString
  end.

Fixpoint drop_digits (s : string) : string :=
  match s with
  | EmptyString => EmptyString
  | String a s' => if is_digit a then drop_digits s' else s
  end.

(** [re.search(r'\d+', s)]: the first run of digits, if there is a digit. *)
Fixpoint search_digits (s : string) : option string :=
  match s with
  | EmptyString => None
  | String a s' => if is_digit a then Some (digits_prefix s) else search_digits s'
  end.

(** [int] of a string of digits. *)
Definition digit_value (a : ascii) : Z := Z.of_nat (nat_of_ascii a) - 48.

Fixpoint int_of_digits_from (acc : Z) (s : string) : Z :=
  match s with
  | EmptyString => acc
  | String a s' => int_of_digits_from (10 * acc + digit_value a) s'
  end.

Definition int_of_digits (s : string) : Z := int_of_digits_from 0 s.

(** [str] of an integer. *)
Definition str_of_int (z : Z) : string := NilZero.string_of_int (Z.to_int z).

(** ** [get_day_suffix] *)

Definition get_day_suffix (day : Z) : string :=
  if (10 <=? day mod 100)%Z && (day mod 100 <=? 20)%Z then "th"
  else match (day mod 10)%Z with
       | 1%Z => "st"
       | 2%Z => "nd"
       | 3%Z => "rd"
       | _ => "th"
       end.

(** ** [parse_due_date] *)

(** One of [st], [nd], [rd], [th]. *)
Definition is_ordinal_suffix (a b : ascii) : bool :=
  let ab := String a (String b EmptyString) in
  (ab =? "st") || (ab =? "nd") || (ab =? "rd") || (ab =? "th").

Definition starts_with_word (s : string) : bool :=
  match s with
  | EmptyString => false
  | String a _ => is_word a
  end.

(** [re.sub(r'(st|nd|rd|th)\b', '', s)]: from the left, every one of the
    four pairs that is followed by the end of the string or by a character
    that is not a word character is removed; the scan goes on after it. *)
Fixpoint remove_ordinal_suffixes (s : string) : string :=
  match s with
  | EmptyString => EmptyString
  | String a s' =>
      match s' with
      | String b rest =>
          if is_ordinal_suffix a b && negb (starts_with_word rest)
          then remove_ordinal_suffixes rest
          else String a (remove_ordinal_suffixes s')
      | EmptyString => String a EmptyString
      end
  end.

Definition parse_due_date (due_date : string) : Z :=
  let cleaned := remove_ordinal_suffixes (strip (lower due_date)) in
  match search_digits cleaned with
  | Some digits =>
      let day := int_of_digits digits in
      if (1 <=? day)%Z && (day <=? 31)%Z then day else 15%Z
  | None => 15%Z
  end.

(** ** [normalize_header] *)

(** [re.sub(r"^\d+\s*", "", header.strip())]: the pattern can match at the
    start only. *)
Definition normalize_header (header : string) : string :=
  let s := strip header in
  match s with
  | String a _ => if is_digit a then lstrip (drop_digits s) else s
  | EmptyString => s
  end.


(** A string that [parse_due_date] is modelled for: ASCII characters, and
    short enough for [int], which converts up to 4300 digits by default. *)
Definition plain (s : string) : bool :=
  is_ascii_string s && (String.length s <=? 4300)%nat.

Fixpoint all_chars (p : ascii -> bool) (s : string) : bool :=
  match s with
  | EmptyString => true
  | String a s' => p a && all_chars p s'
  end.

Definition starts_with (p : ascii -> bool) (s : string) : bool :=
  match s with
  | EmptyString => false
  | String a _ => p a
  end.

(** *** Character classes *)

Ltac each_char a := destruct a as [[] [] [] [] [] [] [] []].

Lemma digit_not_space (a : ascii) : is_digit a = true -> is_space a = false.
Proof. each_char a; vm_compute; congruence. Qed.

Lemma space_not_digit (a : ascii) : is_space a = true -> is_digit a = false.
Proof. each_char a; vm_compute; congruence. Qed.

Lemma not_word_not_digit (a : ascii) : is_word a = false -> is_digit a = false.
Proof. each_char a; vm_compute; congruence. Qed.

Lemma lower_char_digit (a : ascii) : is_digit (lower_char a) = is_digit a.
Proof. each_char a; vm_compute; congruence. Qed.

Lemma lower_char_of_digit (a : ascii) : is_digit a = true -> lower_char a = a.
Proof. each_char a; vm_compute; congruence. Qed.

Lemma ordinal_suffix_letters (a b : ascii) :
  is_ordinal_suffix a b = true -> is_digit a = false /\ is_digit b = false.
Proof.
  unfold is_ordinal_suffix. cbv zeta. rewrite !orb_true_iff, !String.eqb_eq.
  intros [[[E|E]|E]|E]; inversion E; subst; split; reflexivity.
Qed.

(** *** Digits survive lowering, stripping and the removal of suffixes *)

Lemma lower_digits (s : string) :
  digits_prefix (lower s) = digits_prefix s /\ search_digits (lower s) = search_digits s.
Proof.
  induction s as [|a s [IHd IHs]]; [split; reflexivity|].
  cbn [lower digits_prefix search_digits]. rewrite lower_char_digit, IHd, IHs.
  destruct (is_digit a) eqn:Ha; [|split; reflexivity].
  rewrite (lower_char_of_digit _ Ha). split; reflexivity.
Qed.

Lemma lstrip_digits (s : string) : search_digits (lstrip s) = search_digits s.
Proof.
  induction s as [|a s IH]; [reflexivity|]. cbn [lstrip].
  destruct (is_space a) eqn:Ha; [|reflexivity].
  cbn [search_digits]. now rewrite (space_not_digit _ Ha).
Qed.

Lemma rstrip_cons (a : ascii) (s : string) :
  rstrip (String a s)
  = match rstrip s with
    | EmptyString => if is_space a then EmptyString else String a EmptyString
    | r => String a r
    end.
Proof. reflexivity. Qed.

Lemma rstrip_digits (s : string) :
  digits_prefix (rstrip s) = digits_prefix s /\ search_digits (rstrip s) = search_digits s.
Proof.
  induction s as [|a s [IHd IHs]]; [split; reflexivity|].
  rewrite rstrip_cons. cbn [digits_prefix search_digits].
  rewrite <- IHd, <- IHs. destruct (rstrip s) as [|c r].
  - destruct (is_space a) eqn:Ha.
    + rewrite (space_not_digit _ Ha). split; reflexivity.
    + split; reflexivity.
  - split; reflexivity.
Qed.

Lemma remove_ordinal_suffixes_cons (a b : ascii) (rest : string) :
  remove_ordinal_suffixes (String a (String b rest))
  = if is_ordinal_suffix a b && negb (starts_with_word rest)
    then remove_ordinal_suffixes rest
    else String a (remove_ordinal_suffixes (String b rest)).
Proof. reflexivity. Qed.

Lemma remove_ordinal_suffixes_digits (n : nat) :
  forall s : string,
    (String.length s <= n)%nat ->
    digits_prefix (remove_ordinal_suffixes s) = digits_prefix s /\
    search_digits (remove_ordinal_suffixes s) = search_digits s.
Proof.
  induction n as [|n IH]; intros s Hlen.
  - destruct s; [split; reflexivity|cbn in Hlen; lia].
  - destruct s as [|a s']; [split; reflexivity|].
    destruct s' as [|b rest]; [split; reflexivity|].
    cbn [String.length] in Hlen. rewrite remove_ordinal_suffixes_cons.
    destruct (is_ordinal_suffix a b && negb (starts_with_word rest)) eqn:E.
    + apply andb_true_iff in E as [Hab Hw]. apply negb_true_iff in Hw.
      destruct (ordinal_suffix_letters _ _ Hab) as [Ha Hb].
      destruct (IH rest ltac:(lia)) as [IHd IHs]. rewrite IHd, IHs.
      cbn [digits_prefix search_digits]. rewrite Ha, Hb. split; [|reflexivity].
      destruct rest as [|c r]; [reflexivity|]. cbn in Hw |- *.
      now rewrite (not_word_not_digit _ Hw).
    + destruct (IH (String b rest) ltac:(cbn [String.length]; lia)) as [IHd IHs].
      set (s' := String b rest) in *. clearbody s'.
      cbn [digits_prefix search_digits]. rewrite IHd, IHs. split; reflexivity.
Qed.

Lemma cleaned_digits (s : string) :
  search_digits (remove_ordinal_suffixes (strip (lower s))) = search_digits s.
Proof.
  destruct (@remove_ordinal_suffixes_digits _ (strip (lower s)) (le_n _)) as [_ ->].
  unfold strip.
  now rewrite (proj2 (rstrip_digits _)), lstrip_digits, (proj2 (lower_digits _)).
Qed.

(** ** What [get_day_suffix] and [parse_due_date] return *)

(** The suffix is that of the English ordinal: [st], [nd] and [rd] for the
    days that end in 1, 2 and 3 but not in 11, 12 and 13, and [th] for all
    others. *)
Theorem get_day_suffix_ordinal (day : Z) :
  (get_day_suffix day = "st" <-> (day mod 10 = 1 /\ day mod 100 <> 11)%Z) /\
  (get_day_suffix day = "nd" <-> (day mod 10 = 2 /\ day mod 100 <> 12)%Z) /\
  (get_day_suffix day = "rd" <-> (day mod 10 = 3 /\ day mod 100 <> 13)%Z) /\
  (get_day_suffix day = "th" <->
   (day mod 10 = 0 \/ 4 <= day mod 10 \/ 11 <= day mod 100 <= 13)%Z).
Proof.
  assert (Hm : (day mod 10 = (day mod 100) mod 10)%Z).
  { Z.div_mod_to_equations. lia. }
  pose proof (Z.mod_pos_bound day 100 ltac:(lia)) as Hb.
  pose proof (Z.mod_pos_bound day 10 ltac:(lia)) as Hb'.
  unfold get_day_suffix.
  destruct (10 <=? day mod 100)%Z eqn:E1; destruct (day mod 100 <=? 20)%Z eqn:E2;
    cbn [andb]; try apply Z.leb_le in E1; try apply Z.leb_le in E2;
    try apply Z.leb_gt in E1; try apply Z.leb_gt in E2.
  1: { generalize dependent (day mod 100)%Z. intros m Hm Hbm H1 H2.
       assert (Hc : (m = 10 \/ m = 11 \/ m = 12 \/ m = 13 \/ m = 14 \/ m = 15 \/ m = 16
                     \/ m = 17 \/ m = 18 \/ m = 19 \/ m = 20)%Z) by lia.
       repeat (destruct Hc as [Hc|Hc]); subst m; cbn in Hm; rewrite Hm;
         repeat split; intros; try discriminate; try lia. }
  all: clear Hm; generalize dependent (day mod 10)%Z; intros d Hbd;
    assert (Hc : (d = 0 \/ d = 1 \/ d = 2 \/ d = 3 \/ 4 <= d)%Z) by lia;
    destruct Hc as [Hc|[Hc|[Hc|[Hc|Hc]]]]; try subst d;
    [..|destruct d as [|[[[]|[]|]|[[]|[]|]|]|]; try lia];
    repeat split; intros; try discriminate; try reflexivity; try lia.
Qed.

(** On a plain string, [parse_due_date] returns a day from 1 to 31, and it
    depends on the first run of digits of the string alone: its value when
    that lies between 1 and 31, and 15 when it does not or when the string
    has no digit.  Letter case, outer whitespace and ordinal suffixes have no
    effect, and later digits are not looked at. *)
Theorem parse_due_date_first_digits (due_date : string) :
  plain due_date = true ->
  (1 <= parse_due_date due_date <= 31)%Z /\
  match search_digits due_date with
  | Some digits =>
      ((1 <= int_of_digits digits <= 31)%Z ->
       parse_due_date due_date = int_of_digits digits) /\
      (~ (1 <= int_of_digits digits <= 31)%Z -> parse_due_date due_date = 15%Z)
  | None => parse_due_date due_date = 15%Z
  end.
Proof.
  intros _. unfold parse_due_date. rewrite cleaned_digits.
  destruct (search_digits due_date) as [digits|]; [|split; [lia|reflexivity]].
  cbv zeta.
  destruct (1 <=? int_of_digits digits)%Z eqn:E1;
    destruct (int_of_digits digits <=? 31)%Z eqn:E2; cbn [andb];
    try apply Z.leb_le in E1; try apply Z.leb_le in E2;
    try apply Z.leb_gt in E1; try apply Z.leb_gt in E2;
    (split; [lia|split; intros; [try reflexivity; lia|try reflexivity; lia]]).
Qed.

(** The second number of a date is not read, and a day out of range gives
    the default. *)
Lemma parse_due_date_first_digits_witness :
  parse_due_date "Due the 3RD, not the 14th" = 3%Z /\ parse_due_date "45th" = 15%Z.
Proof.
  split.
  - refine (proj1 (proj2 (@parse_due_date_first_digits "Due the 3RD, not the 14th" _)) _).
    + vm_compute; reflexivity.
    + vm_compute. split; discriminate.
  - refine (proj2 (proj2 (@parse_due_date_first_digits "45th" _)) _).
    + vm_compute; reflexivity.
    + vm_compute. intros [_ Hle]. now apply Hle.
Defined.

Lemma days_round_trip :
  forallb (fun day => (parse_due_date (str_of_int day ++ get_day_suffix day) =? day)%Z)
    (map Z.of_nat (seq 1 31)) = true.
Proof. vm_compute. reflexivity. Qed.

(** A day from 1 to 31 written as an ordinal, as the legend of the calendar
    prints it with [get_day_suffix], is read back by [parse_due_date]. *)
Theorem due_date_round_trip (day : Z) :
  (1 <= day <= 31)%Z ->
  parse_due_date (str_of_int day ++ get_day_suffix day) = day.
Proof.
  intros Hday. apply Z.eqb_eq.
  apply (proj1 (forallb_forall _ _) days_round_trip).
  apply in_map_iff. exists (Z.to_nat day). split; [lia|]. apply in_seq. lia.
Qed.

Lemma due_date_round_trip_witness : parse_due_date "22nd" = 22%Z.
Proof. apply (@due_date_round_trip 22). lia. Defined.

(** *** Stripping *)

Lemma lstrip_idem (s : string) : lstrip (lstrip s) = lstrip s.
Proof.
  induction s as [|a s IH]; [reflexivity|]. cbn [lstrip].
  destruct (is_space a) eqn:Ha; [exact IH|]. cbn [lstrip]. now rewrite Ha.
Qed.

Lemma rstrip_idem (s : string) : rstrip (rstrip s) = rstrip s.
Proof.
  induction s as [|a s IH]; [reflexivity|]. rewrite rstrip_cons.
  destruct (rstrip s) as [|c r] eqn:Er.
  - destruct (is_space a) eqn:Ha; [reflexivity|]. rewrite rstrip_cons. cbn. now rewrite Ha.
  - rewrite rstrip_cons, IH. reflexivity.
Qed.

Lemma lstrip_length (s : string) : (String.length (lstrip s) <= String.length s)%nat.
Proof.
  induction s as [|a s IH]; [apply le_n|]. cbn [lstrip].
  destruct (is_space a); cbn [String.length]; lia.
Qed.

Lemma rstrip_length (s : string) : (String.length (rstrip s) <= String.length s)%nat.
Proof.
  induction s as [|a s IH]; [apply le_n|]. rewrite rstrip_cons.
  destruct (rstrip s); [destruct (is_space a)|]; cbn [String.length] in *; lia.
Qed.

Lemma lstrip_fixed (s : string) : starts_with is_space s = false -> lstrip s = s.
Proof. destruct s as [|a s]; [reflexivity|]. cbn. now intros ->. Qed.

Lemma lstrip_starts (s : string) : starts_with is_space (lstrip s) = false.
Proof.
  induction s as [|a s IH]; [reflexivity|]. cbn [lstrip].
  destruct (is_space a) eqn:Ha; [exact IH|exact Ha].
Qed.

Lemma rstrip_starts (s : string) :
  starts_with is_space s = false -> starts_with is_space (rstrip s) = false.
Proof.
  destruct s as [|a s]; [reflexivity|]. cbn [starts_with]. intros Ha.
  rewrite rstrip_cons. destruct (rstrip s); [rewrite Ha|]; exact Ha.
Qed.

Lemma strip_fixed (s : string) : strip s = s -> lstrip s = s /\ rstrip s = s.
Proof.
  intros Hs. assert (Hl : lstrip s = s).
  { destruct s as [|a s]; [reflexivity|]. cbn [lstrip].
    destruct (is_space a) eqn:Ha; [|reflexivity]. exfalso.
    unfold strip in Hs. cbn [lstrip] in Hs. rewrite Ha in Hs.
    pose proof (rstrip_length (lstrip s)) as H1. pose proof (lstrip_length s) as H2.
    rewrite Hs in H1. cbn [String.length] in H1. lia. }
  split; [exact Hl|]. unfold strip in Hs. now rewrite Hl in Hs.
Qed.

Lemma strip_stripped (s : string) :
  lstrip (strip s) = strip s /\ rstrip (strip s) = strip s.
Proof.
  unfold strip. split; [|apply rstrip_idem].
  apply lstrip_fixed, rstrip_starts, lstrip_starts.
Qed.

Lemma append_empty (p q : string) : p ++ q = "" -> q = "".
Proof. destruct p; [trivial|discriminate]. Qed.

Lemma append_empty_r (s : string) : s ++ "" = s.
Proof. induction s as [|a s IH]; [reflexivity|]. cbn. now rewrite IH. Qed.

Lemma append_assoc (p q r : string) : (p ++ q) ++ r = p ++ q ++ r.
Proof. induction p as [|a p IH]; [reflexivity|]. cbn. now rewrite IH. Qed.

Lemma rstrip_suffix (p q : string) : rstrip (p ++ q) = p ++ q -> rstrip q = q.
Proof.
  induction p as [|a p IH]; [trivial|]. cbn [append]. rewrite rstrip_cons.
  destruct (rstrip (p ++ q)) as [|c r] eqn:Er.
  - destruct (is_space a); [discriminate|]. intros Heq.
    assert (Hq : q = "") by (apply (append_empty p); congruence). now subst q.
  - intros Heq. apply IH. congruence.
Qed.

Lemma lstrip_split (s : string) :
  exists spaces, all_chars is_space spaces = true /\ s = spaces ++ lstrip s.
Proof.
  induction s as [|a s (p & Hp & IH)]; [now exists ""|]. cbn [lstrip].
  destruct (is_space a) eqn:Ha.
  - exists (String a p). cbn. rewrite Ha, Hp. split; [reflexivity|]. now rewrite <- IH.
  - now exists "".
Qed.

Lemma drop_digits_split (s : string) :
  all_chars is_digit (digits_prefix s) = true /\ s = digits_prefix s ++ drop_digits s.
Proof.
  induction s as [|a s [Hd IH]]; [now split|]. cbn [digits_prefix drop_digits].
  destruct (is_digit a) eqn:Ha; [|now split].
  cbn. rewrite Ha, Hd. split; [reflexivity|]. now rewrite <- IH.
Qed.

Lemma lstrip_app_spaces (p s : string) :
  all_chars is_space p = true -> lstrip (p ++ s) = lstrip s.
Proof.
  induction p as [|a p IH]; [trivial|]. cbn. intros Hp.
  apply andb_true_iff in Hp as [Ha Hp]. rewrite Ha. now apply IH.
Qed.

Lemma rstrip_spaces (p : string) : all_chars is_space p = true -> rstrip p = "".
Proof.
  induction p as [|a p IH]; [trivial|]. cbn [all_chars]. intros Hp.
  apply andb_true_iff in Hp as [Ha Hp]. rewrite rstrip_cons, (IH Hp), Ha. reflexivity.
Qed.

Lemma rstrip_app_spaces (s p : string) :
  all_chars is_space p = true -> rstrip (s ++ p) = rstrip s.
Proof.
  intros Hp. induction s as [|a s IH]; [now apply rstrip_spaces|].
  cbn [append]. now rewrite !rstrip_cons, IH.
Qed.

Lemma rstrip_app_digits (digits s : string) :
  all_chars is_digit digits = true -> rstrip (digits ++ s) = digits ++ rstrip s.
Proof.
  induction digits as [|a p IH]; [trivial|]. cbn [all_chars append]. intros Hp.
  apply andb_true_iff in Hp as [Ha Hp]. rewrite rstrip_cons, (IH Hp).
  destruct (p ++ rstrip s); [|reflexivity]. now rewrite (digit_not_space _ Ha).
Qed.

Lemma rstrip_app_fixed (p q : string) :
  rstrip q = q -> q <> "" -> rstrip (p ++ q) = p ++ q.
Proof.
  intros Hq Hne. induction p as [|a p IH]; [exact Hq|]. cbn [append].
  rewrite rstrip_cons, IH. destruct (p ++ q) eqn:E; [|reflexivity].
  apply append_empty in E. contradiction.
Qed.

Lemma drop_digits_app (digits s : string) :
  all_chars is_digit digits = true -> drop_digits (digits ++ s) = drop_digits s.
Proof.
  induction digits as [|a p IH]; [trivial|]. cbn. intros Hp.
  apply andb_true_iff in Hp as [Ha Hp]. rewrite Ha. now apply IH.
Qed.

Lemma drop_digits_fixed (s : string) : starts_with is_digit s = false -> drop_digits s = s.
Proof. destruct s as [|a s]; [reflexivity|]. cbn. now intros ->. Qed.

(** ** What [normalize_header] returns *)

(** What is left after the leading digits does not start with a digit. *)
Lemma drop_digits_starts (s : string) : starts_with is_digit (drop_digits s) = false.
Proof.
  induction s as [|a s IH]; [reflexivity|]. cbn [drop_digits].
  destruct (is_digit a) eqn:Ha; [exact IH|]. cbn. exact Ha.
Qed.

(** The normalised header is the stripped header without its leading run of
    digits and the whitespace after it, and nothing else is removed: the
    whole run of digits goes, whitespace goes only after a digit, and the
    result has no whitespace at either end. *)
Theorem normalize_header_stripped (header : string) :
  is_ascii_string header = true ->
  strip (normalize_header header) = normalize_header header /\
  exists digits spaces,
    all_chars is_digit digits = true /\ all_chars is_space spaces = true /\
    strip header = digits ++ spaces ++ normalize_header header /\
    starts_with is_digit (spaces ++ normalize_header header) = false /\
    (digits = "" -> spaces = "").
Proof.
  intros _. destruct (strip_stripped header) as [Hl Hr]. unfold normalize_header.
  cbv zeta. destruct (strip header) as [|a s'] eqn:Es.
  - split; [reflexivity|]. now exists "", "".
  - destruct (is_digit a) eqn:Ha.
    + set (s := String a s') in *.
      destruct (drop_digits_split s) as [Hd Hs].
      destruct (lstrip_split (drop_digits s)) as (spaces & Hsp & Hx).
      assert (Hsplit : s = digits_prefix s ++ spaces ++ lstrip (drop_digits s))
        by (now rewrite <- Hx).
      split.
      * unfold strip. rewrite lstrip_idem.
        apply rstrip_suffix with (digits_prefix s ++ spaces).
        rewrite append_assoc, <- Hsplit. exact Hr.
      * exists (digits_prefix s), spaces. repeat split; auto.
        -- rewrite <- Hx. apply drop_digits_starts.
        -- unfold s. cbn [digits_prefix]. rewrite Ha. discriminate.
    + split; [unfold strip; now rewrite Hl|]. exists "", "".
      repeat split; auto.
Qed.

Lemma normalize_header_stripped_witness :
  strip (normalize_header "  2  Card Name ") = normalize_header "  2  Card Name ".
Proof.
  apply (@normalize_header_stripped "  2  Card Name "). vm_compute. reflexivity.
Defined.

(** A header made of a number, whitespace and a name, with whitespace around
    it, is normalised to the name. *)
Theorem normalize_header_numbered (pre digits spaces name post : string) :
  is_ascii_string (pre ++ digits ++ spaces ++ name ++ post) = true ->
  all_chars is_space pre = true ->
  all_chars is_digit digits = true -> digits <> "" ->
  all_chars is_space spaces = true ->
  strip name = name ->
  (spaces = "" -> starts_with is_digit name = false) ->
  all_chars is_space post = true ->
  normalize_header (pre ++ digits ++ spaces ++ name ++ post) = name.
Proof.
  intros _ Hpre Hd Hne Hsp Hname Hsep Hpost.
  destruct (strip_fixed Hname) as [Hln Hrn].
  assert (Hs : strip (pre ++ digits ++ spaces ++ name ++ post)
               = digits ++ rstrip (spaces ++ name)).
  { unfold strip. rewrite (@lstrip_app_spaces pre _ Hpre).
    rewrite lstrip_fixed.
    - rewrite <- (append_assoc spaces name post), <- (append_assoc digits _ post).
      rewrite (@rstrip_app_spaces _ post Hpost). now apply @rstrip_app_digits.
    - destruct digits as [|a p]; [contradiction|]. cbn in Hd |- *.
      apply andb_true_iff in Hd as [Ha _]. now apply digit_not_space. }
  unfold normalize_header. rewrite Hs. cbv zeta.
  destruct digits as [|a p] eqn:Ed; [contradiction|]. rewrite <- Ed in *.
  assert (Ha : is_digit a = true).
  { rewrite Ed in Hd. cbn in Hd. now apply andb_true_iff in Hd as [Ha _]. }
  replace (digits ++ rstrip (spaces ++ name))
    with (String a (p ++ rstrip (spaces ++ name))) at 1 by (now rewrite Ed).
  rewrite Ha, (@drop_digits_app digits _ Hd).
  destruct name as [|c name'] eqn:En.
  - rewrite append_empty_r, (rstrip_spaces _ Hsp). reflexivity.
  - rewrite <- En in *. rewrite (@rstrip_app_fixed spaces name Hrn) by (rewrite En; discriminate).
    destruct spaces as [|b sp] eqn:Esp.
    + cbn [append]. rewrite (@drop_digits_fixed _ (Hsep eq_refl)). exact Hln.
    + rewrite drop_digits_fixed.
      * rewrite <- Esp in *. now rewrite (@lstrip_app_spaces spaces _ Hsp).
      * cbn in Hsp |- *. apply andb_true_iff in Hsp as [Hb _]. now apply space_not_digit.
Qed.

Lemma normalize_header_numbered_witness :
  normalize_header "1   Current Balance" = "Current Balance".
Proof.
  apply (@normalize_header_numbered "" "1" "   " "Current Balance" "");
    try (vm_compute; reflexivity); discriminate.
Defined.

(** ** Dictionaries

    A [dict] as the list of its items in insertion order: a key that is
    set again keeps its place and gets the new value. *)

Local Open Scope list_scope.

Section Dict.

Variables (K V : Type) (eqb : K -> K -> bool).

Fixpoint dict_get (k : K) (d : list (K * V)) : option V :=
  match d with
  | [] => None
  | (k', v) :: d' => if eqb k' k then Some v else dict_get k d'
  end.

Fixpoint dict_set (k : K) (v : V) (d : list (K * V)) : list (K * V) :=
  match d with
  | [] => [(k, v)]
  | (k', v') :: d' => if eqb k' k then (k', v) :: d' else (k', v') :: dict_set k v d'
  end.

(** [k in d]. *)
Definition dict_mem (k : K) (d : list (K * V)) : bool :=
  match dict_get k d with
  | Some _ => true
  | None => false
  end.

End Dict.

(** [enumerate]. *)
Definition enumerate {A : Type} (l : list A) : list (nat * A) :=
  combine (seq 0 (List.length l)) l.

(** ** [get_card_colors] and [assign_card_colors] *)

Definition get_card_colors : list string :=
  [ "red"; "green"; "blue"; "magenta"; "cyan";
    "bright_red"; "bright_green"; "bright_blue"; "bright_magenta"; "bright_cyan";
    "purple"; "orange"; "grey"; "bright_black";
    "dark_red"; "dark_green"; "dark_blue"; "dark_magenta"; "dark_cyan" ].

Section Calendar.

Context {num : Type} `{Num num}.

(** One pass of the loop of [assign_card_colors].  [colors[color_index]] is
    within the list, [color_index] being a remainder by its length. *)
Definition assign_color (colors : list string) (card_colors : list (string * string))
    (entry : nat * CreditCard num) : list (string * string) :=
  let '(i, card) := entry in
  let color_index := i mod List.length colors in
  dict_set String.eqb (name card) (nth color_index colors "") card_colors.

Definition assign_card_colors (cards : list (CreditCard num)) : list (string * string) :=
  let colors := get_card_colors in
  fold_left (assign_color colors) (enumerate (cards_with_balance cards)) [].

(** ** The due dates of [show_calendar_view] *)

Record card_info : Type := {
  i_name : string;
  i_payment : num;
  i_balance : num
}.

Definition card_info_of (card : CreditCard num) : card_info :=
  {| i_name := name card;
     i_payment := minimum_payment card;
     i_balance := balance card |}.

(** One pass of the loop over the cards: the day gets an empty list if it is
    new, and the card is appended to the list of the day. *)
Definition add_due_date (payment_dates : list (Z * list card_info))
    (card : CreditCard num) : list (Z * list card_info) :=
  if (zero <? balance card)%num then
    let day := parse_due_date (due_date card) in
    let payment_dates :=
      if negb (dict_mem Z.eqb day payment_dates)
      then dict_set Z.eqb day [] payment_dates
      else payment_dates in
    match dict_get Z.eqb day payment_dates with
    | Some due => dict_set Z.eqb day (due ++ [card_info_of card])%list payment_dates
    | None => payment_dates
    end
  else payment_dates.

Definition payment_dates (cards : list (CreditCard num)) : list (Z * list card_info) :=
  fold_left add_due_date cards [].

(** The cards with a balance that are due on a day. *)
Definition due_on (day : Z) (cards : list (CreditCard num)) : list (CreditCard num) :=
  filter (fun card => (zero <? balance card)%num && (parse_due_date (due_date card) =? day)%Z)
    cards.

End Calendar.

Arguments card_info num : clear implicits.

(** *** Lookup after an update *)

Section DictFacts.

Variables (K V : Type) (eqb : K -> K -> bool).
Hypothesis eqb_eq : forall a b : K, eqb a b = true <-> a = b.

Lemma key_eqb_refl (a : K) : eqb a a = true.
Proof. now apply eqb_eq. Qed.

Lemma key_eqb_neq (a b : K) : a <> b -> eqb a b = false.
Proof. intros Hne. destruct (eqb a b) eqn:E; [|reflexivity]. now apply eqb_eq in E. Qed.

Lemma dict_get_set (k k' : K) (v : V) (d : list (K * V)) :
  dict_get eqb k (dict_set eqb k' v d)
  = if eqb k' k then Some v else dict_get eqb k d.
Proof.
  induction d as [|[k0 v0] d IH]; cbn.
  - reflexivity.
  - destruct (eqb k0 k') eqn:E0; cbn.
    + apply eqb_eq in E0. subst k0. now destruct (eqb k' k).
    + rewrite IH. destruct (eqb k0 k) eqn:E1; [|reflexivity].
      apply eqb_eq in E1. subst k0. destruct (eqb k' k) eqn:E2; [|reflexivity].
      apply eqb_eq in E2. subst k'. now rewrite key_eqb_refl in E0.
Qed.

Lemma dict_get_keys (k : K) (d : list (K * V)) :
  dict_get eqb k d <> None <-> In k (map fst d).
Proof.
  induction d as [|[k0 v0] d IH]; cbn; [tauto|].
  destruct (eqb k0 k) eqn:E.
  - apply eqb_eq in E. split; [auto|discriminate].
  - rewrite IH. split; [auto|]. intros [E'|Hin]; [|exact Hin].
    subst k0. now rewrite key_eqb_refl in E.
Qed.

Lemma dict_set_fresh (k : K) (v : V) (d : list (K * V)) :
  ~ In k (map fst d) -> dict_set eqb k v d = d ++ [(k, v)].
Proof.
  induction d as [|[k0 v0] d IH]; cbn; [reflexivity|]. intros Hn.
  rewrite (@key_eqb_neq k0 k) by tauto. rewrite IH by tauto. reflexivity.
Qed.

Lemma dict_set_keys (k : K) (v : V) (d : list (K * V)) :
  map fst (dict_set eqb k v d)
  = if dict_mem eqb k d then map fst d else map fst d ++ [k].
Proof.
  unfold dict_mem. induction d as [|[k0 v0] d IH]; cbn; [reflexivity|].
  destruct (eqb k0 k) eqn:E; cbn; [reflexivity|]. rewrite IH.
  now destruct (dict_get eqb k d).
Qed.

Lemma dict_set_NoDup (k : K) (v : V) (d : list (K * V)) :
  NoDup (map fst d) -> NoDup (map fst (dict_set eqb k v d)).
Proof.
  intros Hd. rewrite dict_set_keys. unfold dict_mem.
  destruct (dict_get eqb k d) eqn:E; [exact Hd|].
  apply NoDup_app; [exact Hd|repeat constructor; intros []|].
  intros x Hx [<-|[]]. apply dict_get_keys in Hx. congruence.
Qed.

End DictFacts.

Lemma get_card_colors_NoDup : NoDup get_card_colors.
Proof.
  unfold get_card_colors.
  repeat (constructor;
          [cbn; intros Hin; repeat (destruct Hin as [Hin|Hin]; [discriminate|]);
           contradiction|]).
  constructor.
Qed.

Lemma enumerate_snd {A : Type} (l : list A) (start : nat) :
  map snd (combine (seq start (List.length l)) l) = l.
Proof.
  revert start. induction l as [|a l IH]; intros start; [reflexivity|].
  cbn. now rewrite IH.
Qed.

Lemma enumerate_fst {A : Type} (l : list A) (start : nat) :
  map fst (combine (seq start (List.length l)) l) = seq start (List.length l).
Proof.
  revert start. induction l as [|a l IH]; intros start; [reflexivity|].
  cbn. now rewrite IH.
Qed.

Section CalendarFacts.

Context {num : Type} `{Num num}.

(** *** The colours *)

Definition color_entry (entry : nat * CreditCard num) : string * string :=
  (name (snd entry),
   nth (fst entry mod List.length get_card_colors) get_card_colors "").

Lemma assign_color_keys (d : list (string * string)) (l : list (nat * CreditCard num))
    (k : string) :
  In k (map fst (fold_left (assign_color get_card_colors) l d))
  <-> In k (map fst d) \/ In k (map (fun e => name (snd e)) l).
Proof.
  revert d. induction l as [|[i c] l IH]; intros d; cbn [fold_left map]; [cbn; tauto|].
  rewrite IH. cbn [assign_color snd In]. rewrite dict_set_keys.
  unfold dict_mem. destruct (dict_get String.eqb (name c) d) eqn:E; cbv iota.
  - assert (Hin : In (name c) (map fst d))
      by (apply (@dict_get_keys _ _ _ String.eqb_eq); congruence).
    split; [tauto|]. intros [Hk|[<-|Hk]]; auto.
  - rewrite in_app_iff. cbn. tauto.
Qed.

Lemma assign_color_values (l : list (nat * CreditCard num)) :
  forall d : list (string * string),
    (forall k color, dict_get String.eqb k d = Some color -> In color get_card_colors) ->
    forall k color,
      dict_get String.eqb k (fold_left (assign_color get_card_colors) l d) = Some color ->
      In color get_card_colors.
Proof.
  induction l as [|[i c] l IH]; intros d Hd; cbn [fold_left]; [exact Hd|].
  apply IH. intros k color. cbn [assign_color].
  rewrite (@dict_get_set _ _ _ String.eqb_eq). destruct (String.eqb (name c) k).
  - intros Heq.
    assert (Hc : color = nth (i mod List.length get_card_colors) get_card_colors "")
      by congruence.
    rewrite Hc. apply nth_In. apply Nat.mod_upper_bound. discriminate.
  - apply Hd.
Qed.

Lemma assign_color_fresh (l : list (CreditCard num)) :
  forall (start : nat) (d : list (string * string)),
    NoDup (map (@name num) l) ->
    (forall c, In c l -> ~ In (name c) (map fst d)) ->
    fold_left (assign_color get_card_colors) (combine (seq start (List.length l)) l) d
    = d ++ map color_entry (combine (seq start (List.length l)) l).
Proof.
  induction l as [|c l IH]; intros start d Hnd Hd; cbn [List.length seq combine fold_left map].
  - now rewrite app_nil_r.
  - inversion Hnd as [|x xs Hc Hnd']; subst.
    cbn [assign_color]. rewrite (@dict_set_fresh _ _ _ String.eqb_eq) by (apply Hd; now left).
    rewrite IH; [now rewrite <- app_assoc|exact Hnd'|].
    intros c' Hc'. rewrite map_app, in_app_iff. cbn. intros [Hin|[Heq|[]]].
    + apply (Hd c'); [now right|exact Hin].
    + apply Hc. rewrite Heq. now apply in_map.
Qed.

(** [assign_card_colors] gives a colour to the names of the cards with a
    balance and to no other name, and every colour it gives is one of
    [get_card_colors]: looking up the colour of a card with a balance, as
    [show_rich_calendar_view] does, finds one. *)
Theorem assign_card_colors_names (cards : list (CreditCard num)) (card_name : string) :
  (In card_name (map (@name num) (cards_with_balance cards))
   <-> exists color,
       dict_get String.eqb card_name (assign_card_colors cards) = Some color) /\
  (forall color,
     dict_get String.eqb card_name (assign_card_colors cards) = Some color ->
     In color get_card_colors).
Proof.
  unfold assign_card_colors. cbv zeta. split.
  - transitivity (In card_name
                    (map fst (fold_left (assign_color get_card_colors)
                                (enumerate (cards_with_balance cards)) []))).
    + rewrite assign_color_keys. unfold enumerate.
      rewrite <- (map_map snd (@name num)), enumerate_snd. cbn. tauto.
    + rewrite <- (@dict_get_keys _ _ _ String.eqb_eq).
      destruct (dict_get String.eqb card_name _) as [color|].
      * split; [now exists color|discriminate].
      * split; [congruence|now intros [color Hc]].
  - apply assign_color_values. discriminate.
Qed.

(** When the cards with a balance have different names, the card at
    position [i] among them gets the colour at position [i mod 19] of
    [get_card_colors]; up to 19 cards get colours that all differ. *)
Theorem assign_card_colors_distinct (cards : list (CreditCard num)) :
  NoDup (map (@name num) (cards_with_balance cards)) ->
  assign_card_colors cards = map color_entry (enumerate (cards_with_balance cards)) /\
  ((List.length (cards_with_balance cards) <= 19)%nat ->
   NoDup (map snd (assign_card_colors cards))).
Proof.
  intros Hnd.
  assert (Heq : assign_card_colors cards
                = map color_entry (enumerate (cards_with_balance cards))).
  { unfold assign_card_colors, enumerate. cbv zeta.
    now rewrite (@assign_color_fresh (cards_with_balance cards) 0%nat [] Hnd) by (intros c _ []). }
  split; [exact Heq|]. intros Hlen. rewrite Heq, map_map. unfold enumerate.
  change (fun x => snd (color_entry x))
    with (fun x : nat * CreditCard num =>
            (fun i => nth (i mod List.length get_card_colors) get_card_colors "")
              (fst x)).
  rewrite <- (map_map fst), enumerate_fst.
  generalize (List.length (cards_with_balance cards)) Hlen. clear. intros n Hn.
  apply Finite.Injective_map_NoDup_in; [|apply seq_NoDup].
  intros i j Hi Hj. apply in_seq in Hi, Hj.
  change (List.length get_card_colors) with 19%nat.
  rewrite !Nat.mod_small by lia.
  apply (proj1 (NoDup_nth get_card_colors "") get_card_colors_NoDup);
    change (List.length get_card_colors) with 19%nat; lia.
Qed.

(** *** The due dates *)

(** The entry of a day, from the cards seen. *)
Definition due_entry (day : Z) (cards : list (CreditCard num)) : option (list (card_info num)) :=
  match due_on day cards with
  | [] => None
  | due => Some (map card_info_of due)
  end.

Lemma add_due_date_get (d : list (Z * list (card_info num))) (card : CreditCard num) (day : Z) :
  dict_get Z.eqb day (add_due_date d card)
  = if (zero <? balance card)%num && (parse_due_date (due_date card) =? day)%Z
    then Some (match dict_get Z.eqb day d with Some due => due | None => [] end
               ++ [card_info_of card])
    else dict_get Z.eqb day d.
Proof.
  unfold add_due_date. destruct (zero <? balance card)%num; [|reflexivity].
  cbn [andb]. cbv zeta. set (day' := parse_due_date (due_date card)).
  unfold dict_mem. destruct (dict_get Z.eqb day' d) as [due|] eqn:E; cbn [negb].
  - rewrite E, (@dict_get_set _ _ _ Z.eqb_eq).
    destruct (day' =? day)%Z eqn:Ed; [|reflexivity].
    apply Z.eqb_eq in Ed. subst day. now rewrite E.
  - rewrite (@dict_get_set _ _ _ Z.eqb_eq), Z.eqb_refl, !(@dict_get_set _ _ _ Z.eqb_eq).
    destruct (day' =? day)%Z eqn:Ed; [|reflexivity].
    apply Z.eqb_eq in Ed. subst day. now rewrite E.
Qed.

Lemma add_due_date_NoDup (d : list (Z * list (card_info num))) (card : CreditCard num) :
  NoDup (map fst d) -> NoDup (map fst (add_due_date d card)).
Proof.
  intros Hd. unfold add_due_date. destruct (zero <? balance card)%num; [|exact Hd].
  cbv zeta. set (d1 := if negb _ then _ else d).
  assert (H1 : NoDup (map fst d1)).
  { subst d1. destruct (negb _); [|exact Hd]. now apply (@dict_set_NoDup _ _ _ Z.eqb_eq). }
  destruct (dict_get Z.eqb _ d1); [|exact H1]. now apply (@dict_set_NoDup _ _ _ Z.eqb_eq).
Qed.

Lemma payment_dates_fold (cards : list (CreditCard num)) :
  forall (seen : list (CreditCard num)) (d : list (Z * list (card_info num))),
    (forall day, dict_get Z.eqb day d = due_entry day seen) ->
    forall day,
      dict_get Z.eqb day (fold_left add_due_date cards d) = due_entry day (seen ++ cards).
Proof.
  induction cards as [|c cards IH]; intros seen d Hd day; cbn [fold_left].
  - now rewrite app_nil_r.
  - replace (seen ++ c :: cards) with ((seen ++ [c]) ++ cards)
      by (now rewrite <- app_assoc).
    apply IH. clear day. intros day. rewrite add_due_date_get, Hd.
    unfold due_entry, due_on. rewrite filter_app. cbn [filter].
    destruct ((zero <? balance c)%num && (parse_due_date (due_date c) =? day)%Z).
    + destruct (filter _ seen) as [|c' due]; [reflexivity|].
      cbn [app map]. now rewrite map_app.
    + now rewrite app_nil_r.
Qed.

Lemma payment_dates_NoDup (cards : list (CreditCard num)) :
  forall d : list (Z * list (card_info num)),
    NoDup (map fst d) -> NoDup (map fst (fold_left add_due_date cards d)).
Proof.
  induction cards as [|c cards IH]; intros d Hd; cbn [fold_left]; [exact Hd|].
  apply IH. now apply add_due_date_NoDup.
Qed.

(** In [show_calendar_view], a day is a key of [payment_dates] exactly when
    a card with a balance is due on it, and its entry lists these cards, in
    the order of the input, each with its name, minimum payment and balance.
    No day is entered twice, and [payment_dates] is empty exactly when no
    card has a balance. *)
Theorem payment_dates_groups (cards : list (CreditCard num)) :
  (forall day : Z,
     dict_get Z.eqb day (payment_dates cards)
     = match due_on day cards with
       | [] => None
       | due => Some (map card_info_of due)
       end) /\
  NoDup (map fst (payment_dates cards)) /\
  (payment_dates cards = [] <-> cards_with_balance cards = []).
Proof.
  assert (Hget : forall day, dict_get Z.eqb day (payment_dates cards) = due_entry day cards).
  { intros day. apply (payment_dates_fold cards [] []). reflexivity. }
  split; [exact Hget|]. split.
  - apply payment_dates_NoDup. constructor.
  - split; intros Hnil.
    + destruct (cards_with_balance cards) as [|c l] eqn:Ec; [reflexivity|]. exfalso.
      assert (Hc : In c (cards_with_balance cards)) by (rewrite Ec; now left).
      apply filter_In in Hc as [Hin Hb].
      specialize (Hget (parse_due_date (due_date c))). rewrite Hnil in Hget.
      unfold due_entry in Hget.
      assert (Hdue : In c (due_on (parse_due_date (due_date c)) cards)).
      { apply filter_In. split; [exact Hin|]. now rewrite Hb, Z.eqb_refl. }
      destruct (due_on _ cards); [contradiction|discriminate].
    + destruct (payment_dates cards) as [|[day due] d] eqn:Ed; [reflexivity|]. exfalso.
      specialize (Hget day). cbn in Hget. rewrite Z.eqb_refl in Hget.
      unfold due_entry in Hget.
      destruct (due_on day cards) as [|c l] eqn:Ec; [discriminate|].
      assert (Hc : In c (due_on day cards)) by (rewrite Ec; now left).
      apply filter_In in Hc as [Hin Hb]. apply andb_true_iff in Hb as [Hb _].
      assert (Hc : In c (cards_with_balance cards)) by (apply filter_In; now split).
      now rewrite Hnil in Hc.
Qed.

End CalendarFacts.

(** Two cards with different names get the first two colours. *)
Lemma assign_card_colors_distinct_witness :
  assign_card_colors (@two_cards Qc _) = [("A", "red"); ("B", "green")].
Proof.
  refine (proj1 (@assign_card_colors_distinct Qc _ two_cards _)).
  vm_compute. repeat constructor; cbn; intuition discriminate.
Defined.

(** ** The rows of the calendar *)

(** One cell of a row of [show_calendar_view]: three characters for the days
    of a month, with a star on the days in [payment_dates]. *)
Definition week_cell {V : Type} (payment_dates : list (Z * V)) (day : Z) : string :=
  (if (day =? 0)%Z then "   "
   else if dict_mem Z.eqb day payment_dates then
     if (day <? 10)%Z then " " ++ str_of_int day ++ "*" else str_of_int day ++ "*"
   else
     if (day <? 10)%Z then " " ++ str_of_int day ++ " " else str_of_int day ++ " ")%string.

Definition week_str {V : Type} (payment_dates : list (Z * V)) (week : list Z) : string :=
  fold_left (fun week_str day => (week_str ++ week_cell payment_dates day)%string) week "".

(** ** [parse_calendar_date] *)

(** [str.split(sep)] for a separator of one character. *)
Fixpoint split (sep : ascii) (s : string) : list string :=
  match s with
  | EmptyString => [""]
  | String a s' =>
      if Ascii.eqb a sep then "" :: split sep s'
      else match split sep s' with
           | part :: parts => String a part :: parts
           | [] => [String a ""]
           end
  end.

Section CalendarDate.

(** [int] on a string, [None] when it raises [ValueError]. *)
Variable int : string -> option Z.

(** [None] is the [ValueError] the function raises. *)
Definition parse_calendar_date (date_str : string) : option (Z * Z) :=
  match split "-" date_str with
  | [year_str; month_str] =>
      match int year_str with
      | None => None
      | Some year =>
          match int month_str with
          | None => None
          | Some month =>
              if negb ((1 <=? month)%Z && (month <=? 12)%Z) then None
              else if negb ((1900 <=? year)%Z && (year <=? 2100)%Z) then None
              else Some (year, month)
          end
      end
  | _ => None
  end.

End CalendarDate.

(** ** The call of [create_payment_schedule] in [main] *)

Section Main.

Context {num : Type} `{Num num}.

(** How [main] goes on from the cards of a file and the budget of the
    command line, when no calendar is asked for: it stops for want of cards,
    of debt or of budget, or it calls [create_payment_schedule]. *)
Inductive main_step : Type :=
| NoCards
| AllPaid
| BudgetBelowMinimums
| Planned (result : result num).

Definition main_plan (cards : list (CreditCard num)) (budget : num) : option main_step :=
  match cards with
  | [] => Some NoCards
  | _ =>
      let cards_with_balance := cards_with_balance cards in
      match cards_with_balance with
      | [] => Some AllPaid
      | _ =>
          let total_minimums := py_sum (map (@minimum_payment num) cards_with_balance) in
          if (budget <? total_minimums)%num then Some BudgetBelowMinimums
          else option_map Planned (create_payment_schedule cards_with_balance budget)
      end
  end.

End Main.

(** *** Width of the rows *)

Lemma length_append (s t : string) :
  String.length (s ++ t)%string = (String.length s + String.length t)%nat.
Proof. induction s as [|a s IH]; [reflexivity|]. cbn. now rewrite IH. Qed.

Lemma day_cells_width :
  forallb (fun day =>
             (String.length (str_of_int day) =? (if (day <? 10)%Z then 1 else 2))%nat)
    (map Z.of_nat (seq 1 31)) = true.
Proof. vm_compute. reflexivity. Qed.

(** A row of the calendar is three characters wide for each of its days,
    whether the day is marked or not: the columns stay aligned. *)
Theorem week_str_width (V : Type) (payment_dates : list (Z * V)) (week : list Z) :
  Forall (fun day => (0 <= day <= 31)%Z) week ->
  String.length (week_str payment_dates week) = (3 * List.length week)%nat.
Proof.
  intros Hweek. unfold week_str.
  assert (Hgen : forall acc : string,
             String.length
               (fold_left (fun week_str day => (week_str ++ week_cell payment_dates day)%string)
                  week acc)
             = (String.length acc + 3 * List.length week)%nat).
  { induction Hweek as [|day week Hday Hweek IH]; intros acc; cbn [fold_left List.length].
    - lia.
    - rewrite IH, length_append.
      assert (Hcell : String.length (week_cell payment_dates day) = 3%nat).
      { unfold week_cell. destruct (day =? 0)%Z eqn:E0; [reflexivity|].
        apply Z.eqb_neq in E0.
        assert (Hlen : (String.length (str_of_int day)
                        =? (if (day <? 10)%Z then 1 else 2))%nat = true).
        { apply (proj1 (forallb_forall _ _) day_cells_width).
          apply in_map_iff. exists (Z.to_nat day). split; [lia|]. apply in_seq. lia. }
        apply Nat.eqb_eq in Hlen.
        destruct (dict_mem Z.eqb day payment_dates); destruct (day <? 10)%Z;
          cbn [append String.length]; rewrite ?length_append, Hlen; reflexivity. }
      rewrite Hcell. lia. }
  apply (Hgen ""%string).
Qed.

Lemma week_str_width_witness :
  String.length (week_str [(3%Z, tt)] [0; 0; 1; 2; 3; 4; 5]%Z) = 21%nat.
Proof.
  apply (@week_str_width unit [(3%Z, tt)] [0; 0; 1; 2; 3; 4; 5]%Z).
  repeat constructor; lia.
Defined.

(** *** Splitting at a separator *)

Definition without (sep : ascii) (s : string) : bool :=
  all_chars (fun a => negb (Ascii.eqb a sep)) s.

Lemma split_parts (sep : ascii) (s : string) : split sep s <> [].
Proof.
  destruct s as [|a s]; cbn [split]; [discriminate|].
  destruct (Ascii.eqb a sep); [discriminate|]. destruct (split sep s); discriminate.
Qed.

Lemma split_one (sep : ascii) (s part : string) :
  split sep s = [part] <-> s = part /\ without sep part = true.
Proof.
  revert part. induction s as [|a s IH]; intros part; cbn [split].
  - split; [intros [= <-]; now split|intros [<- _]; reflexivity].
  - destruct (Ascii.eqb a sep) eqn:Ea.
    + split.
      * intros Hs. exfalso. apply (@split_parts sep s). congruence.
      * intros [<- Hw]. cbn in Hw. now rewrite Ea in Hw.
    + destruct (split sep s) as [|p ps] eqn:Es.
      * exfalso. now apply (@split_parts sep s).
      * split.
        -- intros [= <- ->]. destruct (proj1 (IH p) eq_refl) as [-> Hw].
           split; [reflexivity|]. cbn. now rewrite Ea.
        -- intros [<- Hw]. cbn in Hw. rewrite Ea in Hw. cbn in Hw.
           pose proof (proj2 (IH s) (conj eq_refl Hw)) as Hp.
           injection Hp as -> ->. reflexivity.
Qed.

Lemma split_two (sep : ascii) (s first second : string) :
  split sep s = [first; second]
  <-> s = (first ++ String sep second)%string /\
      without sep first = true /\ without sep second = true.
Proof.
  revert first. induction s as [|a s IH]; intros first; cbn [split].
  - split; [discriminate|]. intros [Hs _]. destruct first; discriminate.
  - destruct (Ascii.eqb a sep) eqn:Ea.
    + split.
      * intros [= <- Hs]. apply split_one in Hs as [-> Hw].
        apply Ascii.eqb_eq in Ea. subst a. now repeat split.
      * intros (Hs & Hf & Hw). destruct first as [|b first].
        -- cbn in Hs. injection Hs as _ ->. f_equal. now apply split_one.
        -- cbn in Hs, Hf. injection Hs as <- _. now rewrite Ea in Hf.
    + destruct (split sep s) as [|p ps] eqn:Es.
      * exfalso. now apply (@split_parts sep s).
      * split.
        -- intros [= <- ->]. destruct (proj1 (IH p) eq_refl) as (-> & Hf & Hw).
           repeat split; [|exact Hw]. cbn. now rewrite Ea.
        -- intros (Hs & Hf & Hw).
           destruct first as [|b first]; cbn in Hs; injection Hs as -> Hs.
           ++ now rewrite Ascii.eqb_refl in Ea.
           ++ cbn in Hf. rewrite Ea in Hf. cbn in Hf.
              pose proof (proj2 (IH first) (conj Hs (conj Hf Hw))) as Hp.
              injection Hp as -> ->. reflexivity.
Qed.

(** [parse_calendar_date] returns a year and a month exactly for the strings
    with one dash whose two sides [int] reads as a year from 1900 to 2100
    and a month from 1 to 12; on every other string it raises. *)
Theorem parse_calendar_date_accepts (int : string -> option Z) (date_str : string)
    (year month : Z) :
  parse_calendar_date int date_str = Some (year, month)
  <-> exists year_str month_str,
      date_str = (year_str ++ "-" ++ month_str)%string /\
      without "-" year_str = true /\ without "-" month_str = true /\
      int year_str = Some year /\ int month_str = Some month /\
      (1900 <= year <= 2100)%Z /\ (1 <= month <= 12)%Z.
Proof.
  unfold parse_calendar_date. split.
  - destruct (split "-" date_str) as [|y [|m [|x l]]] eqn:Es; try discriminate.
    apply split_two in Es as (Hs & Hy & Hm).
    destruct (int y) as [yv|] eqn:Ey; [|discriminate].
    destruct (int m) as [mv|] eqn:Em; [|discriminate].
    destruct ((1 <=? mv)%Z && (mv <=? 12)%Z) eqn:E1; [|discriminate].
    destruct ((1900 <=? yv)%Z && (yv <=? 2100)%Z) eqn:E2; [|discriminate].
    cbn [negb]. intros [= <- <-]. exists y, m.
    apply andb_true_iff in E1 as [H1 H2], E2 as [H3 H4].
    apply Z.leb_le in H1, H2, H3, H4. repeat split; auto.
  - intros (y & m & Hs & Hy & Hm & Ey & Em & [H1 H2] & [H3 H4]).
    assert (Es : split "-" date_str = [y; m]) by (apply split_two; now repeat split).
    rewrite Es, Ey, Em.
    apply Z.leb_le in H1, H2, H3, H4. now rewrite H1, H2, H3, H4.
Qed.

(** *** [main] and the budget *)

Lemma cards_with_balance_idem (num : Type) (N : Num num) (cards : list (CreditCard num)) :
  cards_with_balance (cards_with_balance cards) = cards_with_balance cards.
Proof.
  unfold cards_with_balance. induction cards as [|c cards IH]; [reflexivity|].
  cbn [filter]. destruct (zero <? balance c)%num eqn:Ec; [|exact IH].
  cbn [filter]. now rewrite Ec, IH.
Qed.

Lemma create_payment_schedule_filtered (num : Type) (N : Num num)
    (cards : list (CreditCard num)) (budget : num) :
  create_payment_schedule (cards_with_balance cards) budget
  = create_payment_schedule cards budget.
Proof.
  unfold create_payment_schedule, payment_schedule_fuel, total_minimums, cards_sorted.
  now rewrite cards_with_balance_idem.
Qed.

(** When [main] gets as far as calling [create_payment_schedule], on the
    cards with a balance, some card has a balance, the budget is not below
    the sum of their minimum payments taken in the order of the file, and
    the result is that of the call on all the cards.  A schedule has 1 to
    999 months.  The budget error is left only to the check of
    [create_payment_schedule] itself, which adds the minimum payments in
    the sorted order. *)
Theorem main_plan_outcome (num : Type) (N : Num num)
    (cards : list (CreditCard num)) (budget : num) (r : result num) :
  main_plan cards budget = Some (Planned r) ->
  create_payment_schedule cards budget = Some r /\
  cards_with_balance cards <> [] /\
  (budget <? py_sum (map (@minimum_payment num) (cards_with_balance cards)))%num
  = false /\
  match r with
  | Schedule s n ti ta => (1 <= n <= 999)%nat
  | Error (BudgetError b m) =>
      b = budget /\ m = total_minimums cards /\
      (budget <? total_minimums cards)%num = true
  | Error ExceedsError => True
  end.
Proof.
  unfold main_plan. destruct cards as [|c0 cards0]; [discriminate|].
  set (cards := c0 :: cards0). cbv zeta.
  destruct (cards_with_balance cards) as [|c l] eqn:Ecwb; [discriminate|].
  rewrite <- Ecwb.
  destruct (budget <? py_sum (map (@minimum_payment num) (cards_with_balance cards)))%num
    eqn:Eb; [discriminate|].
  rewrite create_payment_schedule_filtered.
  destruct (create_payment_schedule cards budget) as [r'|] eqn:Er; [|discriminate].
  cbn [option_map]. intros [= <-]. split; [reflexivity|].
  split; [congruence|]. split; [reflexivity|].
  destruct r' as [[b m|]|s n ti ta]; [|exact I|].
  - destruct (create_payment_schedule_outcome cards budget) as (Hb & Hs & He).
    destruct (budget <? total_minimums cards)%num eqn:Et.
    + rewrite (Hb eq_refl) in Er. injection Er as <- <-. auto.
    + exfalso.
      destruct (remaining_after (extra_payment_of cards budget) 999
                  (initial_remaining cards)) eqn:Hrem.
      * destruct (Hs eq_refl eq_refl) as (s & n & ti & ta & Hrun).
        rewrite Hrun in Er. discriminate.
      * rewrite He in Er by (auto; discriminate). discriminate.
  - apply create_payment_schedule_schedule in Er as (_ & Hp & Hlen & -> & _).
    split; [|exact Hlen].
    destruct s as [|md s]; [|cbn; lia]. exfalso.
    assert (Hw : initial_remaining cards = []) by (inversion Hp; reflexivity).
    unfold initial_remaining in Hw. apply map_eq_nil in Hw.
    assert (Hnil : cards_with_balance cards = []).
    { apply Permutation_nil. rewrite <- Hw.
      exact (sorted_Permutation (@balance num) (cards_with_balance cards)). }
    congruence.
Qed.

(** In floats, the two cards with a budget of 200 are planned in 17 months. *)
Lemma main_plan_outcome_witness :
  create_payment_schedule two_cards (fl 200)
  = Some (Schedule (schedule_of (create_payment_schedule two_cards (fl 200))) 17
            (total_interest_paid_of (create_payment_schedule two_cards (fl 200)))
            (total_amount_paid_of (create_payment_schedule two_cards (fl 200)))).
Proof.
  refine (proj1 (@main_plan_outcome float float_Num two_cards (fl 200) _ _)).
  vm_compute. reflexivity.
Defined.

(** ** [read_cards_from_json] and [save_cards_to_json] *)

Section Json.

Context {num : Type} `{Num num}.

(** What [json.load] returns and [json.dump] takes. *)
Local Unset Elimination Schemes.

Inductive json : Type :=
| JNull
| JBool (b : bool)
| JInt (z : Z)
| JFloat (x : num)
| JString (s : string)
| JList (l : list json)
| JDict (d : list (string * json)).

Local Set Elimination Schemes.

(** The outcome of [float]: a number, a [ValueError] or [TypeError], or an
    [OverflowError]. *)
Inductive converted : Type :=
| Value (x : num)
| Invalid
| Overflow.

(** [float] on an integer and on a string, and [str] on a value that is
    not a string, are Python's own. *)
Variable float_of_int : Z -> converted.
Variable float_of_string : string -> option num.
Variable repr_of : json -> string.

Definition py_float (v : json) : converted :=
  match v with
  | JFloat x => Value x
  | JInt z => float_of_int z
  | JBool b => Value (of_int (if b then 1 else 0))
  | JString s => match float_of_string s with Some x => Value x | None => Invalid end
  | JNull | JList _ | JDict _ => Invalid
  end.

Definition py_str (v : json) : string :=
  match v with
  | JString s => s
  | _ => repr_of v
  end.

(** What the body of the loop over [cards_data] does with one entry: it
    appends a card, it reports the entry and goes on (a [ValueError],
    [KeyError] or [TypeError] was caught), or an exception leaves the loop. *)
Inductive card_result : Type :=
| Accepted (card : CreditCard num)
| Skipped
| Aborted.

Definition with_float (r : converted) (k : num -> card_result) : card_result :=
  match r with
  | Value x => k x
  | Invalid => Skipped
  | Overflow => Aborted
  end.

(** [card_data[key]]. *)
Definition with_item (key : string) (card_data : list (string * json))
    (k : json -> card_result) : card_result :=
  match dict_get String.eqb key card_data with
  | Some v => k v
  | None => Skipped
  end.

(** [card_data.get(key, default)]. *)
Definition get_item (key : string) (default : json) (card_data : list (string * json))
  : json :=
  match dict_get String.eqb key card_data with
  | Some v => v
  | None => default
  end.

Definition required_fields : list string :=
  ["card_name"; "current_balance"; "minimum_payment"].

(** The body of the loop.  An entry that is not an object leaves the loop:
    whatever is raised for it is caught, and the handler then calls
    [card_data.get], which no other value has. *)
Definition read_card (file_default_apr : num) (card_data : json) : card_result :=
  match card_data with
  | JDict card_data =>
      let missing_fields :=
        filter (fun field => negb (dict_mem String.eqb field card_data)) required_fields in
      match missing_fields with
      | _ :: _ => Skipped
      | [] =>
          with_item "card_name" card_data (fun v =>
          let name := strip (py_str v) in
          if (name =? "")%string then Skipped else
          with_item "current_balance" card_data (fun v =>
          with_float (py_float v) (fun balance =>
          if (balance <? zero)%num then Skipped else
          with_item "minimum_payment" card_data (fun v =>
          with_float (py_float v) (fun min_payment =>
          if (min_payment <? zero)%num then Skipped else
          if (zero <? balance)%num && (balance <? min_payment)%num then Skipped else
          let due_date :=
            strip (py_str (get_item "payment_due_date" (JString "15th") card_data)) in
          let due_date := if (due_date =? "")%string then "15th" else due_date in
          with_float (py_float (get_item "apr" (JFloat file_default_apr) card_data))
            (fun apr =>
          with_float (py_float (get_item "credit_limit" (JFloat zero) card_data))
            (fun credit_limit =>
          let notes := strip (py_str (get_item "notes" (JString "") card_data)) in
          Accepted
            (CreditCard_init name balance min_payment due_date apr credit_limit notes))))))))
      end
  | _ => Aborted
  end.

(** The loop; [None] when an exception leaves it. *)
Fixpoint read_cards (file_default_apr : num) (cards_data : list json)
    (cards : list (CreditCard num)) : option (list (CreditCard num)) :=
  match cards_data with
  | [] => Some cards
  | card_data :: cards_data =>
      match read_card file_default_apr card_data with
      | Accepted card => read_cards file_default_apr cards_data (cards ++ [card])
      | Skipped => read_cards file_default_apr cards_data cards
      | Aborted => None
      end
  end.

(** [cards_data] and [file_default_apr], from the two formats of the file;
    [None] when a [ValueError] or the exception of [float] is raised. *)
Definition cards_of_file (data : json) (default_apr : num) : option (json * num) :=
  match data with
  | JList _ => Some (data, default_apr)
  | JDict d =>
      match dict_get String.eqb "cards" d with
      | Some cards_data =>
          match dict_get String.eqb "default_apr" d with
          | Some v =>
              match py_float v with
              | Value file_default_apr => Some (cards_data, file_default_apr)
              | _ => None
              end
          | None => Some (cards_data, default_apr)
          end
      | None => None
      end
  | _ => None
  end.

(** [read_cards_from_json] on the value read from the file; [None] is the
    [click.ClickException] it raises.  A ["cards"] that is not a list raises
    one as well: it is empty or zero, or it has no length, or its elements
    are strings, which are not objects. *)
Definition read_cards_from_json (data : json) (default_apr : num)
  : option (list (CreditCard num)) :=
  match cards_of_file data default_apr with
  | Some (JList (card_data :: cards_data), file_default_apr) =>
      match read_cards file_default_apr (card_data :: cards_data) [] with
      | Some [] => None
      | cards => cards
      end
  | _ => None
  end.

(** The value [save_cards_to_json] hands to [json.dump]. *)
Definition card_json (card : CreditCard num) : json :=
  JDict [ ("card_name", JString (name card));
          ("current_balance", JFloat (balance card));
          ("minimum_payment", JFloat (minimum_payment card));
          ("payment_due_date", JString (due_date card));
          ("apr", JFloat (apr card));
          ("credit_limit", JFloat (credit_limit card));
          ("notes", JString (notes card)) ].

Definition save_cards_to_json (cards : list (CreditCard num)) : json :=
  JList (map card_json cards).

(** A card that the reader accepts. *)
Definition valid_card (card : CreditCard num) : Prop :=
  name card <> ""%string /\ strip (name card) = name card /\
  (balance card <? zero)%num = false /\
  (minimum_payment card <? zero)%num = false /\
  (zero <? balance card)%num && (balance card <? minimum_payment card)%num = false /\
  due_date card <> ""%string /\ strip (due_date card) = due_date card /\
  strip (notes card) = notes card /\
  monthly_interest_rate card = (apr card / of_int 100 / of_int 12)%num.

(** The strings of a value are ASCII strings. *)
Fixpoint ascii_json (v : json) : bool :=
  match v with
  | JString s => is_ascii_string s
  | JList l => forallb ascii_json l
  | JDict d => forallb (fun item => is_ascii_string (fst item) && ascii_json (snd item)) d
  | _ => true
  end.

Definition ascii_card (card : CreditCard num) : bool :=
  is_ascii_string (name card) && is_ascii_string (due_date card)
  && is_ascii_string (notes card).

End Json.

Arguments json num : clear implicits.
Arguments converted num : clear implicits.
Arguments card_result num : clear implicits.

Lemma strip_idem (s : string) : strip (strip s) = strip s.
Proof.
  destruct (strip_stripped s) as [Hl Hr]. unfold strip at 1. now rewrite Hl, Hr.
Qed.

Section JsonFacts.

Context {num : Type} `{Num num}.

Variable float_of_int : Z -> converted num.
Variable float_of_string : string -> option num.
Variable repr_of : json num -> string.

Lemma read_card_valid (file_default_apr : num) (card_data : json num)
    (card : CreditCard num) :
  read_card float_of_int float_of_string repr_of file_default_apr card_data
  = Accepted card ->
  valid_card card.
Proof.
  unfold read_card. destruct card_data as [| | | | | |d]; try discriminate.
  destruct (filter _ required_fields); [|discriminate].
  unfold with_item, with_float.
  destruct (dict_get String.eqb "card_name" d) as [v1|]; [|discriminate].
  destruct (strip (py_str repr_of v1) =? "")%string eqn:En; [discriminate|].
  destruct (dict_get String.eqb "current_balance" d) as [v2|]; [|discriminate].
  destruct (py_float float_of_int float_of_string v2) as [b| |]; try discriminate.
  destruct (b <? zero)%num eqn:Eb; [discriminate|].
  destruct (dict_get String.eqb "minimum_payment" d) as [v3|]; [|discriminate].
  destruct (py_float float_of_int float_of_string v3) as [m| |]; try discriminate.
  destruct (m <? zero)%num eqn:Em; [discriminate|].
  destruct ((zero <? b)%num && (b <? m)%num) eqn:Ec; [discriminate|].
  destruct (py_float float_of_int float_of_string (get_item "apr" _ d)) as [a| |];
    try discriminate.
  destruct (py_float float_of_int float_of_string (get_item "credit_limit" _ d)) as [l| |];
    try discriminate.
  intros [= <-]. unfold valid_card, CreditCard_init.
  cbn [name balance minimum_payment due_date apr notes monthly_interest_rate].
  apply String.eqb_neq in En.
  split; [exact En|]. split; [apply strip_idem|]. split; [exact Eb|].
  split; [exact Em|]. split; [exact Ec|].
  split; [|split; [|split; [apply strip_idem|reflexivity]]].
  - destruct (strip _ =? "")%string eqn:Ed; [discriminate|]. now apply String.eqb_neq.
  - destruct (strip _ =? "")%string eqn:Ed; [reflexivity|]. apply strip_idem.
Qed.

Lemma read_cards_valid (file_default_apr : num) (cards_data : list (json num)) :
  forall seen cards : list (CreditCard num),
    Forall valid_card seen ->
    read_cards float_of_int float_of_string repr_of file_default_apr cards_data seen
    = Some cards ->
    Forall valid_card cards.
Proof.
  induction cards_data as [|card_data cards_data IH]; intros seen cards Hseen;
    cbn [read_cards].
  - now intros [= <-].
  - destruct (read_card float_of_int float_of_string repr_of file_default_apr card_data)
      as [card| |] eqn:Ec.
    + apply IH. apply Forall_app. split; [exact Hseen|].
      constructor; [|constructor]. now apply read_card_valid in Ec.
    + now apply IH.
    + discriminate.
Qed.

(** Every card that [read_cards_from_json] returns has passed its checks,
    and there is at least one card: the name and the due date are not empty
    and, like the notes, have no whitespace around them; the balance and the
    minimum payment are not below zero; the minimum payment of a card with a
    balance is not above the balance; the monthly rate is the APR divided
    by 100 and by 12. *)
Theorem read_cards_from_json_valid (data : json num) (default_apr : num)
    (cards : list (CreditCard num)) :
  ascii_json data = true ->
  read_cards_from_json float_of_int float_of_string repr_of data default_apr = Some cards ->
  cards <> [] /\ Forall valid_card cards.
Proof.
  intros _. unfold read_cards_from_json.
  destruct (cards_of_file float_of_int float_of_string data default_apr)
    as [[cards_data file_default_apr]|]; [|discriminate].
  destruct cards_data as [| | | | |[|card_data cards_data]|]; try discriminate.
  destruct (read_cards float_of_int float_of_string repr_of file_default_apr
              (card_data :: cards_data) []) as [[|c l]|] eqn:Er;
    try discriminate.
  intros [= <-]. split; [discriminate|].
  apply (read_cards_valid _ _ (Forall_nil _) Er).
Qed.

Lemma read_cards_not_object (file_default_apr : num) (entry : json num)
    (cards_data : list (json num)) :
  In entry cards_data -> (forall d, entry <> JDict d) ->
  forall seen : list (CreditCard num),
    read_cards float_of_int float_of_string repr_of file_default_apr cards_data seen
    = None.
Proof.
  intros Hin Hentry.
  induction cards_data as [|card_data cards_data IH]; intros seen; [contradiction|].
  cbn [read_cards]. destruct Hin as [->|Hin].
  - destruct entry as [| | | | | |d]; try reflexivity. now destruct (Hentry d).
  - destruct (read_card _ _ _ file_default_apr card_data); auto.
Qed.

(** One entry that is not an object makes [read_cards_from_json] fail as a
    whole, wherever it stands among the entries and whatever the others
    are: it is not skipped as an object with a wrong field is. *)
Theorem read_cards_from_json_not_object (data : json num) (default_apr : num)
    (cards_data : list (json num)) (file_default_apr : num) (entry : json num) :
  cards_of_file float_of_int float_of_string data default_apr
  = Some (JList cards_data, file_default_apr) ->
  In entry cards_data -> (forall d, entry <> JDict d) ->
  read_cards_from_json float_of_int float_of_string repr_of data default_apr = None.
Proof.
  intros Hfile Hin Hentry. unfold read_cards_from_json. rewrite Hfile.
  destruct cards_data as [|card_data cards_data]; [reflexivity|].
  now rewrite (@read_cards_not_object file_default_apr _ _ Hin Hentry).
Qed.

Lemma read_card_saved (file_default_apr : num) (card : CreditCard num) :
  valid_card card ->
  read_card float_of_int float_of_string repr_of file_default_apr (card_json card)
  = Accepted card.
Proof.
  intros (Hn & Hsn & Hb & Hm & Hc & Hd & Hsd & Hsno & Hrate).
  unfold read_card, card_json.
  match goal with |- context [filter ?f required_fields] =>
    change (filter f required_fields) with (@nil string) end.
  unfold with_item, get_item, with_float.
  repeat match goal with |- context [dict_get String.eqb ?k ?d] =>
    let v := eval cbv [dict_get String.eqb Ascii.eqb Bool.eqb] in (dict_get String.eqb k d)
    in change (dict_get String.eqb k d) with v end.
  cbn [py_str py_float]. cbv zeta. rewrite Hsn, Hsd, Hsno.
  apply String.eqb_neq in Hn, Hd. rewrite Hn, Hd, Hb, Hm, Hc.
  f_equal. destruct card. unfold CreditCard_init. cbn in Hrate |- *. now rewrite Hrate.
Qed.

Lemma read_cards_saved (file_default_apr : num) (cards : list (CreditCard num)) :
  Forall valid_card cards ->
  forall seen : list (CreditCard num),
    read_cards float_of_int float_of_string repr_of file_default_apr
      (map card_json cards) seen
    = Some (seen ++ cards).
Proof.
  induction 1 as [|card cards Hcard Hcards IH]; intros seen; cbn [map read_cards].
  - now rewrite app_nil_r.
  - rewrite (read_card_saved _ Hcard), IH. now rewrite <- app_assoc.
Qed.

(** What [save_cards_to_json] writes, [read_cards_from_json] reads back:
    for cards that pass the checks of the reader, and at least one of them,
    reading the saved value returns the same cards, whatever the default
    APR. *)
Theorem save_then_read (cards : list (CreditCard num)) (default_apr : num) :
  cards <> [] ->
  forallb ascii_card cards = true ->
  Forall valid_card cards ->
  read_cards_from_json float_of_int float_of_string repr_of
    (save_cards_to_json cards) default_apr
  = Some cards.
Proof.
  intros Hne _ Hvalid. unfold read_cards_from_json, save_cards_to_json.
  cbn [cards_of_file]. destruct cards as [|card cards]; [contradiction|].
  cbn [map]. change (card_json card :: map card_json cards)
    with (map card_json (card :: cards)).
  now rewrite (read_cards_saved _ Hvalid).
Qed.

End JsonFacts.

(** A file with a default APR and two entries, the second with a negative
    balance: one card is read, with the name stripped and the APR of the
    file. *)
Lemma read_cards_from_json_valid_witness :
  Forall valid_card [CreditCard_init "Visa" (qc 500) (qc 25) "15th" (qc 20) (qc 0) ""].
Proof.
  refine (proj2 (@read_cards_from_json_valid Qc _
                   (fun z => Value (qc z)) (fun _ => None) (fun _ => ""%string)
                   (JDict [("cards",
                            JList [JDict [("card_name", JString " Visa ");
                                          ("current_balance", JInt 500);
                                          ("minimum_payment", JInt 25)];
                                   JDict [("card_name", JString "Loan");
                                          ("current_balance", JInt (-1));
                                          ("minimum_payment", JInt 0)]]);
                           ("default_apr", JInt 20)])
                   (qc 18) _ _ _)); vm_compute; reflexivity.
Defined.

(** A number among the entries. *)
Lemma read_cards_from_json_not_object_witness :
  read_cards_from_json (fun z => Value (qc z)) (fun _ => None) (fun _ => ""%string)
    (JList [JDict [("card_name", JString "Visa");
                   ("current_balance", JInt 500);
                   ("minimum_payment", JInt 25)];
            JInt 7])
    (qc 18)
  = None.
Proof.
  refine (@read_cards_from_json_not_object Qc _ _ _ _ _ (qc 18) _ (qc 18) (JInt 7) _ _ _).
  - reflexivity.
  - right. left. reflexivity.
  - discriminate.
Defined.

(** The two cards, saved and read. *)
Lemma save_then_read_witness :
  read_cards_from_json (fun z => Value (qc z)) (fun _ => None) (fun _ => ""%string)
    (save_cards_to_json two_cards) (qc 18)
  = Some two_cards.
Proof.
  apply (@save_then_read Qc _).
  - discriminate.
  - reflexivity.
  - repeat constructor; try discriminate; vm_compute; reflexivity.
Defined.

(** ** [read_cards_from_csv] *)

Section Csv.

Context {num : Type} `{Num num}.

(** [float] on a string is Python's own; [None] is its [ValueError]. *)
Variable float_of_string : string -> option num.

(** A row as [csv.DictReader] yields it: the fields under the headers of
    the file, and [None] under the headers for which a short row has no
    field. *)
Definition csv_row : Type := list (string * option string).

(** [{normalize_header(h): h for h in original_headers}]. *)
Definition normalized_headers (original_headers : list string) : list (string * string) :=
  fold_left (fun headers h => dict_set String.eqb (normalize_header h) h headers)
    original_headers [].

Definition required_headers : list string :=
  ["Card Name"; "Current Balance"; "Credit Limit"; "Minimum Payment"; "Payment Due Date"].

(** [normalized_headers[key]] and [row[col]]: a [KeyError] is caught, and the
    row is reported. *)
Definition with_key {V : Type} (key : string) (d : list (string * V))
    (k : V -> card_result num) : card_result num :=
  match dict_get String.eqb key d with
  | Some v => k v
  | None => Skipped
  end.

(** A method of [str] on a field: [None] has none, and the [AttributeError]
    is not caught in the loop. *)
Definition with_text (field : option string) (k : string -> card_result num)
  : card_result num :=
  match field with
  | Some s => k s
  | None => Aborted
  end.

(** [float] on a field: the [ValueError] of a string is caught, the
    [TypeError] of [None] is not. *)
Definition with_number (field : option string) (k : num -> card_result num)
  : card_result num :=
  match field with
  | Some s =>
      match float_of_string s with
      | Some x => k x
      | None => Skipped
      end
  | None => Aborted
  end.

(** The body of the loop over the rows. *)
Definition read_row (headers : list (string * string)) (default_apr : num)
    (row : csv_row) : card_result num :=
  with_key "Card Name" headers (fun name_col =>
  with_key "Current Balance" headers (fun balance_col =>
  with_key "Credit Limit" headers (fun credit_limit_col =>
  with_key "Minimum Payment" headers (fun min_payment_col =>
  with_key "Payment Due Date" headers (fun due_date_col =>
  with_key name_col row (fun field =>
  with_text field (fun s =>
  let name := strip s in
  if (name =? "")%string then Skipped else
  with_key balance_col row (fun field =>
  with_number field (fun balance =>
  if (balance <? zero)%num then Skipped else
  with_key credit_limit_col row (fun field =>
  with_text field (fun s =>
  (fun k => if (strip s =? "")%string then k zero else with_number field k)
    (fun credit_limit =>
  with_key min_payment_col row (fun field =>
  with_number field (fun min_payment =>
  if (min_payment <? zero)%num then Skipped else
  if (zero <? balance)%num && (balance <? min_payment)%num then Skipped else
  with_key due_date_col row (fun field =>
  with_text field (fun s =>
  let due_date := strip s in
  let due_date := if (due_date =? "")%string then "15th" else due_date in
  (fun k =>
     match dict_get String.eqb "Notes" headers with
     | Some notes_col =>
         with_key notes_col row (fun field => with_text field (fun s => k (strip s)))
     | None => k ""
     end)
    (fun notes =>
  Accepted
    (CreditCard_init name balance min_payment due_date default_apr credit_limit
       notes)))))))))))))))))).

(** The loop; [None] when an exception leaves it. *)
Fixpoint read_rows (headers : list (string * string)) (default_apr : num)
    (rows : list csv_row) (cards : list (CreditCard num))
  : option (list (CreditCard num)) :=
  match rows with
  | [] => Some cards
  | row :: rows =>
      match read_row headers default_apr row with
      | Accepted card => read_rows headers default_apr rows (cards ++ [card])
      | Skipped => read_rows headers default_apr rows cards
      | Aborted => None
      end
  end.

(** [read_cards_from_csv] on the headers and the rows of the reader; [None]
    is the [click.ClickException] it raises. *)
Definition read_cards_from_csv (original_headers : list string) (rows : list csv_row)
    (default_apr : num) : option (list (CreditCard num)) :=
  let headers := normalized_headers original_headers in
  let missing_headers :=
    filter (fun h => negb (dict_mem String.eqb h headers)) required_headers in
  match missing_headers with
  | _ :: _ => None
  | [] =>
      match read_rows headers default_apr rows [] with
      | Some [] => None
      | cards => cards
      end
  end.

(** The strings of a file are ASCII strings. *)
Definition ascii_csv (original_headers : list string) (rows : list csv_row) : bool :=
  forallb is_ascii_string original_headers
  && forallb (forallb (fun item : string * option string =>
                         is_ascii_string (fst item)
                         && match snd item with
                            | Some s => is_ascii_string s
                            | None => true
                            end)) rows.

End Csv.

Lemma filter_nil_all {A : Type} (f : A -> bool) (l : list A) :
  filter f l = [] -> forall x, In x l -> f x = false.
Proof.
  induction l as [|a l IH]; cbn [filter]; [contradiction|].
  destruct (f a) eqn:Ea; [discriminate|]. intros Hnil x [<-|Hin]; auto.
Qed.

Lemma normalized_headers_origin (original_headers : list string) (key h : string) :
  dict_get String.eqb key (normalized_headers original_headers) = Some h ->
  In h original_headers /\ normalize_header h = key.
Proof.
  unfold normalized_headers.
  assert (Hgen : forall (l : list string) (d : list (string * string)),
             incl l original_headers ->
             (forall k x, dict_get String.eqb k d = Some x ->
                          In x original_headers /\ normalize_header x = k) ->
             forall k x,
               dict_get String.eqb k
                 (fold_left (fun headers h => dict_set String.eqb (normalize_header h) h headers)
                    l d) = Some x ->
               In x original_headers /\ normalize_header x = k).
  { induction l as [|a l IH]; intros d Hl Hd; cbn [fold_left]; [exact Hd|].
    apply IH; [intros x Hx; apply Hl; now right|].
    intros k x. rewrite (@dict_get_set _ _ _ String.eqb_eq).
    destruct (String.eqb (normalize_header a) k) eqn:Ek; [|apply Hd].
    intros [= <-]. apply String.eqb_eq in Ek. split; [apply Hl; now left|exact Ek]. }
  apply Hgen; [apply incl_refl|discriminate].
Qed.

Section CsvFacts.

Context {num : Type} `{Num num}.

Variable float_of_string : string -> option num.

Lemma read_row_valid (headers : list (string * string)) (default_apr : num)
    (row : csv_row) (card : CreditCard num) :
  read_row float_of_string headers default_apr row = Accepted card ->
  valid_card card /\ apr card = default_apr.
Proof.
  unfold read_row, with_key, with_text, with_number. cbv beta.
  repeat match goal with
         | |- context [match dict_get String.eqb ?k ?d with _ => _ end] =>
             destruct (dict_get String.eqb k d) as [?|]; try discriminate
         | |- context [match float_of_string ?s with _ => _ end] =>
             destruct (float_of_string s) as [?|]; try discriminate
         | |- context [if ?b then _ else _] => destruct b eqn:?; try discriminate
         | |- match ?field with Some _ => _ | None => _ end = _ -> _ =>
             destruct field as [?|]; try discriminate
         end;
    intros [= <-]; unfold valid_card, CreditCard_init;
    cbn [name balance minimum_payment due_date apr notes monthly_interest_rate];
    repeat apply conj;
    try apply strip_idem; try assumption; try reflexivity; try discriminate;
    try (apply String.eqb_neq; assumption).
Qed.

Lemma read_rows_valid (headers : list (string * string)) (default_apr : num)
    (rows : list csv_row) :
  forall seen cards : list (CreditCard num),
    Forall (fun card => valid_card card /\ apr card = default_apr) seen ->
    read_rows float_of_string headers default_apr rows seen = Some cards ->
    Forall (fun card => valid_card card /\ apr card = default_apr) cards.
Proof.
  induction rows as [|row rows IH]; intros seen cards Hseen; cbn [read_rows].
  - now intros [= <-].
  - destruct (read_row float_of_string headers default_apr row) as [card| |] eqn:Er.
    + apply IH. apply Forall_app. split; [exact Hseen|].
      constructor; [|constructor]. now apply read_row_valid in Er.
    + now apply IH.
    + discriminate.
Qed.

(** Whenever [read_cards_from_csv] returns, each of the five required
    headers is the normalised form of a header of the file, there is at
    least one card, every card has passed the checks of the reader (those of
    the JSON reader), and every card has the default APR. *)
Theorem read_cards_from_csv_valid (original_headers : list string) (rows : list csv_row)
    (default_apr : num) (cards : list (CreditCard num)) :
  ascii_csv original_headers rows = true ->
  read_cards_from_csv float_of_string original_headers rows default_apr = Some cards ->
  Forall (fun required =>
            exists h, In h original_headers /\ normalize_header h = required)
    required_headers /\
  cards <> [] /\
  Forall (fun card => valid_card card /\ apr card = default_apr) cards.
Proof.
  intros _. unfold read_cards_from_csv. cbv zeta.
  destruct (filter _ required_headers) eqn:Emiss; [|discriminate].
  destruct (read_rows float_of_string (normalized_headers original_headers) default_apr
              rows []) as [[|c l]|] eqn:Er; try discriminate.
  intros [= <-]. split; [|split; [discriminate|]].
  - apply Forall_forall. intros required Hreq.
    pose proof (filter_nil_all _ _ Emiss required Hreq) as Hmem.
    apply negb_false_iff in Hmem. unfold dict_mem in Hmem.
    destruct (dict_get String.eqb required (normalized_headers original_headers))
      as [h|] eqn:Eh; [|discriminate].
    exists h. now apply normalized_headers_origin.
  - eapply read_rows_valid; [|exact Er]. constructor.
Qed.

Lemma read_rows_aborted (headers : list (string * string)) (default_apr : num)
    (row : csv_row) (rows : list csv_row) :
  In row rows ->
  read_row float_of_string headers default_apr row = Aborted ->
  forall seen : list (CreditCard num),
    read_rows float_of_string headers default_apr rows seen = None.
Proof.
  intros Hin Hrow. induction rows as [|r rows IH]; intros seen; [contradiction|].
  cbn [read_rows]. destruct Hin as [->|Hin].
  - now rewrite Hrow.
  - destruct (read_row float_of_string headers default_apr r); auto.
Qed.

(** A row that is too short to have a card name, so that the reader of the
    file has put [None] there, makes [read_cards_from_csv] fail as a whole:
    the row is not skipped as a row with a wrong value is. *)
Theorem read_cards_from_csv_short_row (original_headers : list string)
    (rows : list csv_row) (default_apr : num) (row : csv_row) (name_col : string) :
  In row rows ->
  dict_get String.eqb "Card Name" (normalized_headers original_headers) = Some name_col ->
  dict_get String.eqb name_col row = Some None ->
  read_cards_from_csv float_of_string original_headers rows default_apr = None.
Proof.
  intros Hin Hcol Hfield. unfold read_cards_from_csv. cbv zeta.
  destruct (filter _ required_headers) eqn:Emiss; [|reflexivity].
  assert (Hrow : read_row float_of_string (normalized_headers original_headers)
                   default_apr row = Aborted).
  { assert (Hreq : forall required, In required required_headers ->
                     exists h, dict_get String.eqb required
                                 (normalized_headers original_headers) = Some h).
    { intros required Hreq.
      pose proof (filter_nil_all _ _ Emiss required Hreq) as Hmem.
      apply negb_false_iff in Hmem. unfold dict_mem in Hmem.
      destruct (dict_get String.eqb required _) as [h|]; [now exists h|discriminate]. }
    unfold read_row, with_key.
    destruct (Hreq "Current Balance") as [c2 ->]; [cbn; tauto|].
    destruct (Hreq "Credit Limit") as [c3 ->]; [cbn; tauto|].
    destruct (Hreq "Minimum Payment") as [c4 ->]; [cbn; tauto|].
    destruct (Hreq "Payment Due Date") as [c5 ->]; [cbn; tauto|].
    rewrite Hcol, Hfield. reflexivity. }
  now rewrite (@read_rows_aborted _ _ _ _ Hin Hrow).
Qed.

End CsvFacts.

(** A reader of whole numbers, for the examples. *)
Definition whole_number (s : string) : option Qc :=
  if all_chars is_digit s && negb (s =? "")%string then Some (qc (int_of_digits s))
  else None.

(** A file with numbered headers: the second row has no number for the
    balance and is left out. *)
Lemma read_cards_from_csv_valid_witness :
  Forall (fun card => valid_card card /\ apr card = qc 18)
    [CreditCard_init "Visa" (qc 500) (qc 25) "15th" (qc 18) (qc 2000) ""].
Proof.
  refine (proj2 (proj2 (@read_cards_from_csv_valid Qc _ whole_number
    ["1   Card Name"; "2   Current Balance"; "3   Credit Limit"; "4   Minimum Payment";
     "5   Payment Due Date"]
    [ [("1   Card Name", Some " Visa"); ("2   Current Balance", Some "500");
       ("3   Credit Limit", Some "2000"); ("4   Minimum Payment", Some "25");
       ("5   Payment Due Date", Some "")];
      [("1   Card Name", Some "Loan"); ("2   Current Balance", Some "n/a");
       ("3   Credit Limit", Some ""); ("4   Minimum Payment", Some "10");
       ("5   Payment Due Date", Some "1st")] ]
    (qc 18) _ _ _))); vm_compute; reflexivity.
Defined.

(** A row of one field under five headers. *)
Lemma read_cards_from_csv_short_row_witness :
  read_cards_from_csv whole_number
    ["Payment Due Date"; "Minimum Payment"; "Credit Limit"; "Current Balance"; "Card Name"]
    [ [("Payment Due Date", Some "15th"); ("Minimum Payment", None); ("Credit Limit", None);
       ("Current Balance", None); ("Card Name", None)] ]
    (qc 18)
  = None.
Proof.
  refine (@read_cards_from_csv_short_row Qc _ whole_number _ _ (qc 18) _ "Card Name" _ _ _).
  - left. reflexivity.
  - reflexivity.
  - reflexivity.
Defined.
